(** * MonkkeyStore: the in-memory cache layer of [apps/web/src/lib/cache.ts]

    A shallow embedding of [SmartCache], [CacheManager], [CachedQuery],
    [CacheInvalidation] and [CacheMonitoring], followed by the properties of
    the cache specification.

    Modelling conventions.
    - A JavaScript [Map] keeps its keys distinct and iterates in insertion
      order; overwriting a key keeps its position.  It is an association list
      here ([JsMap]).
    - A plain object used as a record of named values ([JsObject]) keeps its
      own properties in creation order, lists those whose name is an array
      index first and in ascending numeric order, and treats an assignment to
      [__proto__] as a change of prototype, not as a new property.
    - [Date.now()] is an input: every function takes one integer argument
      (milliseconds) per call of [Date.now()] it makes, in program order.
      Clock readings are integers ([Z]) that a double holds exactly, and so is
      the difference of two readings.
    - The values a caller supplies as [number], that is [ttl], [maxSize],
      [defaultTtl] and [cleanupInterval], are IEEE 754 doubles ([Number]):
      [NaN], the two infinities, or a finite value given as a rational.  The
      comparisons are those of the language (every comparison with [NaN] is
      false) and the sum [timestamp + ttl] is rounded to the nearest double,
      ties to even.  The sign of zero is not modelled.  A configuration field
      that is [undefined] behaves as [NaN] in every comparison and sum the
      class makes.
    - Counters and sizes are natural numbers; [hitRate] is an exact rational.
    - A value of type [T | null] is an [option T]; [None] is [null]. *)

From Stdlib Require Import List String Ascii ZArith NArith QArith Qround.
From Stdlib Require Import Lia Bool Arith Permutation Sorted.
Import ListNotations.

Local Open Scope string_scope.
Local Open Scope list_scope.
Local Open Scope Z_scope.

(** ** Numbers of the host language *)

(** [x < y] on rationals. *)
Definition Qltb (x y : Q) : bool := negb (Qle_bool y x).

Inductive Number : Type :=
| NaN
| PosInf
| NegInf
| Finite (q : Q).

(** The double of an integer clock reading, counter or literal. *)
Definition num (z : Z) : Number := Finite (inject_Z z).

(** [a < b] *)
Definition numLt (a b : Number) : bool :=
  match a, b with
  | NaN, _ | _, NaN => false
  | PosInf, _ => false
  | _, NegInf => false
  | NegInf, _ => true
  | _, PosInf => true
  | Finite x, Finite y => Qltb x y
  end.

(** [a > b] *)
Definition numGt (a b : Number) : bool := numLt b a.

(** [a >= b] *)
Definition numGe (a b : Number) : bool :=
  match a, b with
  | NaN, _ | _, NaN => false
  | _, _ => negb (numLt a b)
  end.

(** [!a]: the falsy numbers are [NaN] and zero. *)
Definition isFalsy (a : Number) : bool :=
  match a with
  | NaN => true
  | Finite q => Qeq_bool q (inject_Z 0)
  | _ => false
  end.

(** [a || b] on numbers; [None] is [undefined]. *)
Definition orDefault (a : option Number) (b : Number) : Number :=
  match a with
  | Some x => if isFalsy x then b else x
  | None => b
  end.

(** Rounding of an exact rational to the nearest integer, ties to even. *)
Definition roundHalfEven (x : Q) : Z :=
  let f := Qfloor x in
  match Qcompare (Qminus x (inject_Z f)) (1 # 2) with
  | Lt => f
  | Gt => f + 1
  | Eq => if Z.even f then f else f + 1
  end.

(** The exponent [e] with [2^e <= q < 2^(e+1)], for [q > 0]. *)
Definition floorLog2 (q : Q) : Z :=
  let e0 := Z.log2 (Qnum q) - Z.log2 (Z.pos (Qden q)) in
  if Qltb q (Qpower (inject_Z 2) e0) then e0 - 1 else e0.

(** Rounding of a positive rational to binary64: 53 significant bits down to
    the exponent -1022, a fixed spacing of [2^-1074] below, overflow to
    [Infinity] from [2^1024] on. *)
Definition roundPositive (q : Q) : Number :=
  let e := Z.max (floorLog2 q) (-1022) in
  let quantum := Qpower (inject_Z 2) (e - 52) in
  let r := Qred (Qmult (inject_Z (roundHalfEven (Qdiv q quantum))) quantum) in
  if Qle_bool (Qpower (inject_Z 2) 1024) r then PosInf else Finite r.

Definition roundDouble (q : Q) : Number :=
  match Qcompare q (inject_Z 0) with
  | Eq => Finite (inject_Z 0)
  | Gt => roundPositive q
  | Lt =>
      match roundPositive (Qopp q) with
      | Finite r => Finite (Qopp r)
      | _ => NegInf
      end
  end.

(** [a + b] *)
Definition numAdd (a b : Number) : Number :=
  match a, b with
  | NaN, _ | _, NaN => NaN
  | PosInf, NegInf | NegInf, PosInf => NaN
  | PosInf, _ | _, PosInf => PosInf
  | NegInf, _ | _, NegInf => NegInf
  | Finite x, Finite y => roundDouble (Qplus x y)
  end.

(** ** The insertion-ordered map of the host language *)

Module JsMap.
Section WithValue.
Context {V : Type}.

Definition t : Type := list (string * V).

Definition empty : t := [].

Fixpoint get (k : string) (m : t) : option V :=
  match m with
  | [] => None
  | (k', v) :: m' => if String.eqb k k' then Some v else get k m'
  end.

Definition has (k : string) (m : t) : bool :=
  match get k m with
  | Some _ => true
  | None => false
  end.

(** [Map.prototype.set]: a present key keeps its place, a new key goes last. *)
Fixpoint set (k : string) (v : V) (m : t) : t :=
  match m with
  | [] => [(k, v)]
  | (k', v') :: m' =>
      if String.eqb k k' then (k, v) :: m' else (k', v') :: set k v m'
  end.

(** [Map.prototype.delete]; the boolean it returns is [has k m]. *)
Fixpoint delete (k : string) (m : t) : t :=
  match m with
  | [] => []
  | (k', v') :: m' =>
      if String.eqb k k' then m' else (k', v') :: delete k m'
  end.

Definition keys (m : t) : list string := map fst m.

Definition size (m : t) : nat := List.length m.

(** What [Map] guarantees by construction. *)
Definition distinct (m : t) : Prop := NoDup (keys m).
End WithValue.
Arguments t : clear implicits.
End JsMap.

(** ** A plain object holding named values *)

Module JsObject.

(** The decimal digit a character stands for. *)
Definition digitOf (c : ascii) : option N :=
  let n := N_of_ascii c in
  if ((48 <=? n) && (n <=? 57))%N then Some (n - 48)%N else None.

Fixpoint parseDigits (acc : N) (s : string) : option N :=
  match s with
  | EmptyString => Some acc
  | String c rest =>
      match digitOf c with
      | Some d => parseDigits (10 * acc + d)%N rest
      | None => None
      end
  end.

(** A property name is an array index when it is the canonical decimal
    numeral, without a leading zero, of an integer from 0 to 2^32 - 2. *)
Definition arrayIndex (s : string) : option N :=
  match s with
  | EmptyString => None
  | String c rest =>
      if Ascii.eqb c "0"%char && negb (String.eqb rest EmptyString) then None
      else
        match parseDigits 0%N s with
        | Some n => if (n <? 4294967295)%N then Some n else None
        | None => None
        end
  end.

Definition isArrayIndex (s : string) : bool :=
  match arrayIndex s with
  | Some _ => true
  | None => false
  end.

Section WithValue.
Context {V : Type}.

(** The own properties in creation order, and the prototype when it is not
    [Object.prototype]. *)
Record t : Type := mk {
  own : JsMap.t V;
  proto : option V
}.

(** [{}] *)
Definition empty : t := mk [] None.

(** [o[k] = v] where [v] is an object.  The name [__proto__] reaches the
    setter inherited from [Object.prototype], which replaces the prototype
    of [o]; any other name creates or updates an own property. *)
Definition set (k : string) (v : V) (o : t) : t :=
  if String.eqb k "__proto__" then mk (own o) (Some v)
  else mk (JsMap.set k v (own o)) (proto o).

Fixpoint insertByIndex (x : N * (string * V)) (sorted : list (N * (string * V)))
    : list (N * (string * V)) :=
  match sorted with
  | [] => [x]
  | y :: rest =>
      if (fst x <? fst y)%N then x :: sorted else y :: insertByIndex x rest
  end.

(** The properties whose name is an array index, with that index. *)
Definition indexed (l : JsMap.t V) : list (N * (string * V)) :=
  flat_map
    (fun kv =>
       match arrayIndex (fst kv) with
       | Some n => [(n, kv)]
       | None => []
       end)
    l.

(** The order in which the own properties are enumerated: array indices
    ascending, then the other names in creation order. *)
Definition ordered (l : JsMap.t V) : list (string * V) :=
  map snd (fold_right insertByIndex [] (indexed l))
  ++ filter (fun kv => negb (isArrayIndex (fst kv))) l.

(** [Object.entries(o)] *)
Definition entries (o : t) : list (string * V) := ordered (own o).
End WithValue.
Arguments t : clear implicits.
End JsObject.

(** ** Entries, statistics, configuration *)

Record CacheEntry (T : Type) : Type := mkEntry {
  data : option T;
  timestamp : Z;
  ttl : Number;
  accessCount : nat;
  lastAccessed : Z
}.
Arguments mkEntry {T}.
Arguments data {T}.
Arguments timestamp {T}.
Arguments ttl {T}.
Arguments accessCount {T}.
Arguments lastAccessed {T}.

Record CacheStats : Type := mkStats {
  hits : nat;
  misses : nat;
  sets : nat;
  deletes : nat;
  evictions : nat;
  totalSize : nat;
  hitRate : Q
}.

(** The declared type of [evictionPolicy] is ['lru' | 'lfu' | 'ttl'];
    [PolicyOther] stands for the [default] branch of the switch in
    [evictEntry], which only an untyped caller reaches. *)
Inductive EvictionPolicy : Type :=
| Lru
| Lfu
| Ttl
| PolicyOther.

Record CacheConfig : Type := mkConfig {
  maxSize : Number;
  defaultTtl : Number;
  cleanupInterval : Number;
  evictionPolicy : EvictionPolicy
}.

(** ** SmartCache *)

Module SmartCache.
Section WithT.
Context {T : Type}.

Record t : Type := mk {
  cache : JsMap.t (CacheEntry T);
  stats : CacheStats;
  config : CacheConfig;
  cleanupTimer : bool
}.

Definition withCache (m : JsMap.t (CacheEntry T)) (c : t) : t :=
  mk m (stats c) (config c) (cleanupTimer c).

Definition withStats (s : CacheStats) (c : t) : t :=
  mk (cache c) s (config c) (cleanupTimer c).

Definition initialStats : CacheStats := mkStats 0 0 0 0 0 0 (inject_Z 0).

(** The constructor; [startCleanup] arms the timer. *)
Definition new (cfg : CacheConfig) : t := mk JsMap.empty initialStats cfg true.

Definition bumpHits (s : CacheStats) : CacheStats :=
  mkStats (S (hits s)) (misses s) (sets s) (deletes s) (evictions s)
          (totalSize s) (hitRate s).
Definition bumpMisses (s : CacheStats) : CacheStats :=
  mkStats (hits s) (S (misses s)) (sets s) (deletes s) (evictions s)
          (totalSize s) (hitRate s).
Definition bumpSets (s : CacheStats) : CacheStats :=
  mkStats (hits s) (misses s) (S (sets s)) (deletes s) (evictions s)
          (totalSize s) (hitRate s).
Definition bumpDeletes (s : CacheStats) : CacheStats :=
  mkStats (hits s) (misses s) (sets s) (S (deletes s)) (evictions s)
          (totalSize s) (hitRate s).
Definition bumpEvictions (s : CacheStats) : CacheStats :=
  mkStats (hits s) (misses s) (sets s) (deletes s) (S (evictions s))
          (totalSize s) (hitRate s).
Definition setTotalSize (n : nat) (s : CacheStats) : CacheStats :=
  mkStats (hits s) (misses s) (sets s) (deletes s) (evictions s)
          n (hitRate s).

Definition updateHitRate (c : t) : t :=
  let s := stats c in
  let total := (hits s + misses s)%nat in
  let rate :=
    if (0 <? total)%nat
    then Qmult (Qdiv (inject_Z (Z.of_nat (hits s))) (inject_Z (Z.of_nat total)))
               (inject_Z 100)
    else inject_Z 0 in
  withStats (mkStats (hits s) (misses s) (sets s) (deletes s) (evictions s)
                     (totalSize s) rate) c.

Definition isExpired (now : Z) (entry : CacheEntry T) : bool :=
  numGt (num (now - timestamp entry)) (ttl entry).

(** [now] is read by [isExpired], [now'] by the access-time update. *)
Definition get (now now' : Z) (key : string) (c : t) : option T * t :=
  match JsMap.get key (cache c) with
  | None => (None, updateHitRate (withStats (bumpMisses (stats c)) c))
  | Some entry =>
      if isExpired now entry then
        let c1 := withCache (JsMap.delete key (cache c)) c in
        let c2 := withStats (bumpMisses (stats c1)) c1 in
        let c3 := withStats (bumpEvictions (stats c2)) c2 in
        (None, updateHitRate c3)
      else
        let entry' := mkEntry (data entry) (timestamp entry) (ttl entry)
                              (S (accessCount entry)) now' in
        let c1 := withCache (JsMap.set key entry' (cache c)) c in
        let c2 := withStats (bumpHits (stats c1)) c1 in
        (data entry, updateHitRate c2)
  end.

(** The loop shared by the three [find...] functions: keep the first entry
    whose measure is strictly below the best seen, starting from the empty
    key and [Infinity]. *)
Definition scanStep (measure : CacheEntry T -> Number)
    (acc : string * Number) (kv : string * CacheEntry T) : string * Number :=
  if numLt (measure (snd kv)) (snd acc)
  then (fst kv, measure (snd kv))
  else acc.

Definition scanMin (measure : CacheEntry T -> Number)
    (m : JsMap.t (CacheEntry T)) : string :=
  fst (fold_left (scanStep measure) m (EmptyString, PosInf)).

Definition findLeastRecentlyUsed (c : t) : string :=
  scanMin (fun e => num (lastAccessed e)) (cache c).

Definition findLeastFrequentlyUsed (c : t) : string :=
  scanMin (fun e => num (Z.of_nat (accessCount e))) (cache c).

(** [entry.timestamp + entry.ttl] *)
Definition expiryTime (e : CacheEntry T) : Number :=
  numAdd (num (timestamp e)) (ttl e).

Definition findNearestExpiry (c : t) : string :=
  scanMin expiryTime (cache c).

(** [this.cache.keys().next().value] on a map that is not empty. *)
Definition firstKey (m : JsMap.t (CacheEntry T)) : string :=
  match m with
  | [] => EmptyString
  | (k, _) :: _ => k
  end.

Definition evictEntry (c : t) : t :=
  if (JsMap.size (cache c) =? 0)%nat then c
  else
    let keyToEvict :=
      match evictionPolicy (config c) with
      | Lru => findLeastRecentlyUsed c
      | Lfu => findLeastFrequentlyUsed c
      | Ttl => findNearestExpiry c
      | PolicyOther => firstKey (cache c)
      end in
    let c1 := withCache (JsMap.delete keyToEvict (cache c)) c in
    let c2 := withStats (bumpEvictions (stats c1)) c1 in
    withStats (setTotalSize (JsMap.size (cache c2)) (stats c2)) c2.

Definition set (now : Z) (key : string) (value : option T)
    (ttl_ : option Number) (c : t) : t :=
  let entryTtl := orDefault ttl_ (defaultTtl (config c)) in
  let c1 :=
    if numGe (num (Z.of_nat (JsMap.size (cache c)))) (maxSize (config c))
       && negb (JsMap.has key (cache c))
    then evictEntry c
    else c in
  let entry := mkEntry value now entryTtl 1 now in
  let c2 := withCache (JsMap.set key entry (cache c1)) c1 in
  let c3 := withStats (bumpSets (stats c2)) c2 in
  withStats (setTotalSize (JsMap.size (cache c3)) (stats c3)) c3.

Definition delete (key : string) (c : t) : bool * t :=
  let deleted := JsMap.has key (cache c) in
  let c1 := withCache (JsMap.delete key (cache c)) c in
  if deleted then
    let c2 := withStats (bumpDeletes (stats c1)) c1 in
    (true, withStats (setTotalSize (JsMap.size (cache c2)) (stats c2)) c2)
  else (false, c1).

Definition has (now : Z) (key : string) (c : t) : bool * t :=
  match JsMap.get key (cache c) with
  | None => (false, c)
  | Some entry =>
      if isExpired now entry
      then (false, withCache (JsMap.delete key (cache c)) c)
      else (true, c)
  end.

Definition clear (c : t) : t :=
  let c1 := withCache JsMap.empty c in
  withStats (setTotalSize 0 (stats c1)) c1.

Definition getStats (c : t) : CacheStats := stats c.

Definition keys (c : t) : list string := JsMap.keys (cache c).

Definition size (c : t) : nat := JsMap.size (cache c).

(** The callback of [expiredKeys.forEach] in [cleanup]. *)
Definition sweepStep (acc : t) (key : string) : t :=
  let a1 := withCache (JsMap.delete key (cache acc)) acc in
  withStats (bumpEvictions (stats a1)) a1.

(** The body of the interval timer. *)
Definition cleanup (now : Z) (c : t) : t :=
  let expiredKeys :=
    map fst (filter (fun kv => numGt (num (now - timestamp (snd kv)))
                                     (ttl (snd kv)))
                    (cache c)) in
  let c1 := fold_left sweepStep expiredKeys c in
  withStats (setTotalSize (JsMap.size (cache c1)) (stats c1)) c1.

Definition destroy (c : t) : t :=
  clear (mk (cache c) (stats c) (config c) false).

(** *** Histories of one cache *)

Inductive Op : Type :=
| OpGet (now now' : Z) (key : string)
| OpSet (now : Z) (key : string) (value : option T) (ttl_ : option Number)
| OpDelete (key : string)
| OpHas (now : Z) (key : string)
| OpClear
| OpCleanup (now : Z).

Definition step (c : t) (op : Op) : t :=
  match op with
  | OpGet now now' key => snd (get now now' key c)
  | OpSet now key value ttl_ => set now key value ttl_ c
  | OpDelete key => snd (delete key c)
  | OpHas now key => snd (has now key c)
  | OpClear => clear c
  | OpCleanup now => cleanup now c
  end.

Definition run (ops : list Op) (c : t) : t := fold_left step ops c.

(** The states a cache object can be in: built by the constructor and
    changed only through its methods and its timer. *)
Inductive reachable : t -> Prop :=
| reach_new cfg : reachable (new cfg)
| reach_step c op : reachable c -> reachable (step c op).
End WithT.
Arguments t : clear implicits.
Arguments Op : clear implicits.
End SmartCache.

(** ** CacheManager *)

(** [Partial<CacheConfig>]: every field may be missing. *)
Record PartialConfig : Type := mkPartial {
  maxSize_opt : option Number;
  defaultTtl_opt : option Number;
  cleanupInterval_opt : option Number;
  evictionPolicy_opt : option EvictionPolicy
}.

Module CacheManager.
Section WithT.
Context {T : Type}.

(** Cache objects are references.  [heap] holds the objects ever
    constructed, an address is an index in it, and the static map
    [caches] sends a name to an address.  Two references are the same
    instance when the addresses are equal. *)
Record t : Type := mk {
  caches : JsMap.t nat;
  heap : list (SmartCache.t T)
}.

Definition empty : t := mk JsMap.empty [].

Definition defaultConfig : CacheConfig :=
  mkConfig (num 1000) (num (5 * 60 * 1000)) (num (60 * 1000)) Lru.

Definition pick {A : Type} (d : A) (o : option A) : A :=
  match o with
  | Some x => x
  | None => d
  end.

(** [{ ...defaultConfig, ...config }] *)
Definition mergeConfig (d : CacheConfig) (config : option PartialConfig)
    : CacheConfig :=
  match config with
  | None => d
  | Some p =>
      mkConfig (pick (maxSize d) (maxSize_opt p))
               (pick (defaultTtl d) (defaultTtl_opt p))
               (pick (cleanupInterval d) (cleanupInterval_opt p))
               (pick (evictionPolicy d) (evictionPolicy_opt p))
  end.

Definition deref (a : nat) (m : t) : option (SmartCache.t T) :=
  nth_error (heap m) a.

Fixpoint updateAt (a : nat) (f : SmartCache.t T -> SmartCache.t T)
    (h : list (SmartCache.t T)) : list (SmartCache.t T) :=
  match h, a with
  | [], _ => []
  | c :: h', O => f c :: h'
  | c :: h', S a' => c :: updateAt a' f h'
  end.

(** A method call through a reference. *)
Definition onCache (a : nat) (f : SmartCache.t T -> SmartCache.t T) (m : t) : t :=
  mk (caches m) (updateAt a f (heap m)).

(** Returns the address of the instance registered under [name]. *)
Definition getCache (name : string) (config : option PartialConfig) (m : t)
    : nat * t :=
  let m1 :=
    if negb (JsMap.has name (caches m)) then
      let mergedConfig := mergeConfig defaultConfig config in
      mk (JsMap.set name (List.length (heap m)) (caches m))
         (heap m ++ [SmartCache.new mergedConfig])
    else m in
  (pick (List.length (heap m1)) (JsMap.get name (caches m1)), m1).

Definition destroyCache (name : string) (m : t) : bool * t :=
  match JsMap.get name (caches m) with
  | Some a =>
      let m1 := onCache a SmartCache.destroy m in
      (true, mk (JsMap.delete name (caches m1)) (heap m1))
  | None => (false, m)
  end.

(** The body of the loop of [getAllStats]: [stats[name] = cache.getStats()]. *)
Definition statsStep (m : t) (stats : JsObject.t CacheStats)
    (na : string * nat) : JsObject.t CacheStats :=
  match deref (snd na) m with
  | Some c => JsObject.set (fst na) (SmartCache.getStats c) stats
  | None => stats
  end.

Definition getAllStats (m : t) : JsObject.t CacheStats :=
  fold_left (statsStep m) (caches m) JsObject.empty.

Definition clearAll (m : t) : t :=
  fold_left (fun acc na => onCache (snd na) SmartCache.clear acc) (caches m) m.

(** What a program can do with the registry and with the references it
    hands out. *)
Inductive Action : Type :=
| ActGetCache (name : string) (config : option PartialConfig)
| ActDestroyCache (name : string)
| ActClearAll
| ActCacheOp (a : nat) (op : SmartCache.Op T).

Definition act (m : t) (x : Action) : t :=
  match x with
  | ActGetCache name config => snd (getCache name config m)
  | ActDestroyCache name => snd (destroyCache name m)
  | ActClearAll => clearAll m
  | ActCacheOp a op => onCache a (fun c => SmartCache.step c op) m
  end.

Definition destroys (name : string) (x : Action) : bool :=
  match x with
  | ActDestroyCache n => String.eqb n name
  | _ => false
  end.

(** The configuration of every object on the heap, by address. *)
Definition configs (m : t) : list CacheConfig :=
  map SmartCache.config (heap m).

(** Every registered address points into the heap. *)
Definition wellFormed (m : t) : Prop :=
  forall name a, JsMap.get name (caches m) = Some a ->
                 (a < List.length (heap m))%nat.
End WithT.
Arguments t : clear implicits.
Arguments Action : clear implicits.
End CacheManager.

(** ** CachedQuery *)

(** [s.includes(pattern)] *)
Fixpoint includes (s pattern : string) : bool :=
  String.prefix pattern s
  || match s with
     | EmptyString => false
     | String _ s' => includes s' pattern
     end.

Module CachedQuery.
Section WithT.
Context {T : Type}.

(** The loader is an effectful thunk: [L] is whatever state it owns, [E] the
    type of rejections.  [inl e] is a rejected promise.  The three times are
    the clock readings of [cache.get] (two) and of [cache.set]. *)
Definition getWithCache {L E : Type} (now now' now'' : Z) (cacheKey : string)
    (cache : SmartCache.t T) (queryFn : L -> (E + option T) * L) (l : L)
    (ttl_ : option Number) : (E + option T) * SmartCache.t T * L :=
  let (cached, cache1) := SmartCache.get now now' cacheKey cache in
  match cached with
  | Some v => (inr (Some v), cache1, l)
  | None =>
      let (outcome, l') := queryFn l in
      match outcome with
      | inl err => (inl err, cache1, l')
      | inr result =>
          (inr result, SmartCache.set now'' cacheKey result ttl_ cache1, l')
      end
  end.

(** The body of the loop over [keys]: [acc] holds [invalidated] and the
    cache. *)
Definition invalidateStep (pattern : string)
    (acc : nat * SmartCache.t T) (key : string) : nat * SmartCache.t T :=
  if includes key pattern
  then (S (fst acc), snd (SmartCache.delete key (snd acc)))
  else acc.

Definition invalidatePattern (cache : SmartCache.t T) (pattern : string)
    : nat * SmartCache.t T :=
  fold_left (invalidateStep pattern) (SmartCache.keys cache) (O, cache).
End WithT.
End CachedQuery.

(** ** Specification vocabulary *)

Section Vocabulary.
Context {T : Type}.

(** [victim] is the first entry, in iteration order, whose measure is the
    smallest of the map: everything before it is strictly larger,
    everything after it is at least as large. *)
Definition firstMinimum (measure : CacheEntry T -> Z)
    (pre : JsMap.t (CacheEntry T)) (e : CacheEntry T)
    (post : JsMap.t (CacheEntry T)) : Prop :=
  (forall kv, In kv pre -> measure e < measure (snd kv)) /\
  (forall kv, In kv post -> measure e <= measure (snd kv)).

(** The same choice for a measure that is a double: the measure of [victim]
    is below [Infinity], no entry before it has a measure that is less than
    or equal to it, and no entry after it has a measure that is less.  An
    entry whose measure is [NaN] or [Infinity] is never chosen. *)
Definition firstBelow (measure : CacheEntry T -> Number)
    (pre : JsMap.t (CacheEntry T)) (e : CacheEntry T)
    (post : JsMap.t (CacheEntry T)) : Prop :=
  numLt (measure e) PosInf = true /\
  (forall kv, In kv pre -> numGe (measure e) (measure (snd kv)) = false) /\
  (forall kv, In kv post -> numLt (measure (snd kv)) (measure e) = false).

(** The choice each policy makes among [pre ++ (victim, e) :: post]. *)
Definition chosenBy (p : EvictionPolicy)
    (pre : JsMap.t (CacheEntry T)) (e : CacheEntry T)
    (post : JsMap.t (CacheEntry T)) : Prop :=
  match p with
  | Lru => firstMinimum lastAccessed pre e post
  | Lfu => firstMinimum (fun x => Z.of_nat (accessCount x)) pre e post
  | Ttl => firstBelow SmartCache.expiryTime pre e post
  | PolicyOther => pre = []
  end.

(** The capacity test of [set]: [this.cache.size >= this.config.maxSize]. *)
Definition atCapacity (c : SmartCache.t T) : bool :=
  numGe (num (Z.of_nat (SmartCache.size c))) (maxSize (SmartCache.config c)).

(** The computed [timestamp + ttl] of the entry is below [Infinity]. *)
Definition finiteExpiry (e : CacheEntry T) : Prop :=
  numLt (SmartCache.expiryTime e) PosInf = true.

(** The scan of the configured policy finds an entry: the cache holds one
    and, under the ['ttl'] policy, one whose [timestamp + ttl] is below
    [Infinity]. *)
Definition evictable (c : SmartCache.t T) : Prop :=
  match evictionPolicy (SmartCache.config c) with
  | Ttl => exists kv, In kv (SmartCache.cache c) /\ finiteExpiry (snd kv)
  | _ => SmartCache.cache c <> []
  end.

(** Under the ['ttl'] policy every stored entry has its [timestamp + ttl]
    below [Infinity]. *)
Definition expiriesFinite (c : SmartCache.t T) : Prop :=
  evictionPolicy (SmartCache.config c) = Ttl ->
  forall kv, In kv (SmartCache.cache c) -> finiteExpiry (snd kv).

(** The entry that [set(key, value, ttl)] stores at time [now]. *)
Definition freshEntry (now : Z) (value : option T) (ttl_ : option Number)
    (c : SmartCache.t T) : CacheEntry T :=
  mkEntry value now (orDefault ttl_ (defaultTtl (SmartCache.config c))) 1 now.

(** A [set] stores an entry whose [timestamp + ttl] is below [Infinity]. *)
Definition opFinite (cfg : CacheConfig) (op : SmartCache.Op T) : Prop :=
  match op with
  | SmartCache.OpSet now _ _ ttl_ =>
      numLt (numAdd (num now) (orDefault ttl_ (defaultTtl cfg))) PosInf = true
  | _ => True
  end.

(** A history whose [set] calls, under the ['ttl'] policy, all store such
    entries. *)
Definition tame (cfg : CacheConfig) (ops : list (SmartCache.Op T)) : Prop :=
  evictionPolicy cfg = Ttl -> Forall (opFinite cfg) ops.

(** [get(key)] called once per pair of clock readings. *)
Fixpoint getRepeatedly (key : string) (reads : list (Z * Z))
    (c : SmartCache.t T) : list (option T) * SmartCache.t T :=
  match reads with
  | [] => ([], c)
  | (now, now') :: rest =>
      let (r, c1) := SmartCache.get now now' key c in
      let (rs, c2) := getRepeatedly key rest c1 in
      (r :: rs, c2)
  end.
End Vocabulary.

(** [k] contains [pattern] as a contiguous run of characters. *)
Definition isSubstring (pattern k : string) : Prop :=
  exists pre post : string, k = (pre ++ pattern ++ post)%string.

(** A loader that resolves to [v] and counts its invocations. *)
Definition countingLoader {T : Type} (v : option T) (calls : nat)
    : (string + option T) * nat :=
  (inr v, S calls).

(** A loader that rejects with [err] and counts its invocations. *)
Definition failingLoader {T : Type} (err : string) (calls : nat)
    : (string + option T) * nat :=
  (inl err, S calls).



(** ** The rest of [cache.ts] *)

(** *** [CachedQuery.warmUpCache] *)

(** One iteration of the loop over the loaded items; [acc] holds the index of
    the item and the cache.  [clock i] is the reading of [Date.now()] inside
    the [set] of item [i]. *)
Definition warmUpStep {T : Type} (clock : nat -> Z) (ttl_ : option Number)
    (acc : nat * SmartCache.t T) (item : string * option T)
    : nat * SmartCache.t T :=
  (S (fst acc),
   SmartCache.set (clock (fst acc)) (fst item) (snd item) ttl_ (snd acc)).

(** The loader resolves to the list of [{key, data}] items or rejects; the
    rejection is caught.  The two console calls are not modelled.  The promise
    that [warmUpCache] returns always resolves, to [undefined]. *)
Definition warmUpCache {T L E : Type} (clock : nat -> Z)
    (cache : SmartCache.t T)
    (dataLoader : L -> (E + list (string * option T)) * L) (l : L)
    (ttl_ : option Number) : SmartCache.t T * L :=
  let (outcome, l') := dataLoader l in
  match outcome with
  | inr data => (snd (fold_left (warmUpStep clock ttl_) data (O, cache)), l')
  | inl error => (cache, l')
  end.

(** *** CacheInvalidation *)

Module CacheInvalidation.

(** The exported constants [ProductCache], [CustomerCache], [OrderCache] and
    [SearchCache]: four references into the heap of the registry. *)
Record DomainCaches : Type := mkDomainCaches {
  ProductCache : nat;
  CustomerCache : nat;
  OrderCache : nat;
  SearchCache : nat
}.

Definition productsConfig : PartialConfig :=
  mkPartial (Some (num 500)) (Some (num (10 * 60 * 1000))) None (Some Lfu).

Definition customersConfig : PartialConfig :=
  mkPartial (Some (num 1000)) (Some (num (5 * 60 * 1000))) None (Some Lru).

Definition ordersConfig : PartialConfig :=
  mkPartial (Some (num 200)) (Some (num (2 * 60 * 1000))) None (Some Lru).

Definition searchConfig : PartialConfig :=
  mkPartial (Some (num 100)) (Some (num (15 * 60 * 1000))) None (Some Lfu).

Section WithT.
Context {T : Type}.

(** What loading the module does to the registry: the four
    [CacheManager.getCache] calls, in the order of the file. *)
Definition load (m : CacheManager.t T) : DomainCaches * CacheManager.t T :=
  let r1 := CacheManager.getCache "products" (Some productsConfig) m in
  let r2 := CacheManager.getCache "customers" (Some customersConfig) (snd r1) in
  let r3 := CacheManager.getCache "orders" (Some ordersConfig) (snd r2) in
  let r4 := CacheManager.getCache "search" (Some searchConfig) (snd r3) in
  (mkDomainCaches (fst r1) (fst r2) (fst r3) (fst r4), snd r4).

(** [cache.delete(key)] and [CachedQuery.invalidatePattern(cache, pattern)]
    as statements: the value they return is dropped. *)
Definition deleteKey (key : string) (c : SmartCache.t T) : SmartCache.t T :=
  snd (SmartCache.delete key c).

Definition invalidate (pattern : string) (c : SmartCache.t T) : SmartCache.t T :=
  snd (CachedQuery.invalidatePattern c pattern).

Definition invalidateProductCaches (d : DomainCaches) (productId : string)
    (m : CacheManager.t T) : CacheManager.t T :=
  let m1 :=
    CacheManager.onCache (ProductCache d)
      (deleteKey ("product:" ++ productId)%string) m in
  let m2 := CacheManager.onCache (SearchCache d) (invalidate "product") m1 in
  CacheManager.onCache (ProductCache d) (invalidate "list") m2.

Definition invalidateCustomerCaches (d : DomainCaches) (customerId : string)
    (m : CacheManager.t T) : CacheManager.t T :=
  let m1 :=
    CacheManager.onCache (CustomerCache d)
      (deleteKey ("customer:" ++ customerId)%string) m in
  CacheManager.onCache (OrderCache d)
    (invalidate ("customer:" ++ customerId)%string) m1.

(** [if (customerId)]: [undefined] and the empty string are falsy. *)
Definition invalidateOrderCaches (d : DomainCaches) (orderId : string)
    (customerId : option string) (m : CacheManager.t T) : CacheManager.t T :=
  let m1 :=
    CacheManager.onCache (OrderCache d)
      (deleteKey ("order:" ++ orderId)%string) m in
  match customerId with
  | Some cid =>
      if String.eqb cid EmptyString then m1
      else CacheManager.onCache (OrderCache d)
             (invalidate ("customer:" ++ cid)%string) m1
  | None => m1
  end.

Definition invalidateAll (m : CacheManager.t T) : CacheManager.t T :=
  CacheManager.clearAll m.
End WithT.
End CacheInvalidation.

(** *** CacheMonitoring *)

Module CacheMonitoring.

Inductive HealthStatus : Type :=
| healthy
| warning
| critical.

Record Overall : Type := mkOverall {
  totalHitRate : Q;
  overallTotalSize : nat;
  healthStatus : HealthStatus
}.

Record Report : Type := mkReport {
  caches : JsObject.t CacheStats;
  recommendations : list string;
  overall : Overall
}.

(** The four variables the loop of [generateReport] updates. *)
Record Running : Type := mkRunning {
  pushed : list string;
  totalHits : nat;
  totalRequests : nat;
  runningSize : nat
}.

Section WithFormat.
(** [Number.prototype.toFixed(1)], the one-decimal rendering of a rate, is
    not modelled: it is a parameter. *)
Variable toFixed1 : Q -> string.

Definition lowHitRateText (name : string) (stat : CacheStats) : string :=
  (name ++ " cache has low hit rate (" ++ toFixed1 (hitRate stat)
   ++ "%). Consider increasing TTL or cache size.")%string.

Definition highEvictionText (name : string) : string :=
  (name ++ " cache has high eviction rate. Consider increasing cache size.")%string.

(** The body of the loop over [Object.entries(stats)]. *)
Definition reportStep (acc : Running) (entry : string * CacheStats) : Running :=
  let name := fst entry in
  let stat := snd entry in
  let recs1 :=
    if Qltb (hitRate stat) (inject_Z 50)
    then pushed acc ++ [lowHitRateText name stat]
    else pushed acc in
  let recs2 :=
    if Qltb (Qmult (inject_Z (Z.of_nat (sets stat))) (3 # 10))
            (inject_Z (Z.of_nat (evictions stat)))
    then recs1 ++ [highEvictionText name]
    else recs1 in
  mkRunning recs2
    (totalHits acc + hits stat)
    (totalRequests acc + (hits stat + misses stat))
    (runningSize acc + totalSize stat).

Definition generateReport {T : Type} (m : CacheManager.t T) : Report :=
  let stats := CacheManager.getAllStats m in
  let acc :=
    fold_left reportStep (JsObject.entries stats) (mkRunning [] 0 0 0) in
  let rate :=
    if (0 <? totalRequests acc)%nat
    then Qmult (Qdiv (inject_Z (Z.of_nat (totalHits acc)))
                     (inject_Z (Z.of_nat (totalRequests acc))))
               (inject_Z 100)
    else inject_Z 0 in
  let status :=
    if Qltb rate (inject_Z 30) then critical
    else if Qltb rate (inject_Z 60) then warning
    else healthy in
  mkReport stats (pushed acc) (mkOverall rate (runningSize acc) status).
End WithFormat.
End CacheMonitoring.

(** *** More vocabulary *)

(** The rate [updateHitRate] computes from [h] hits and [m] misses. *)
Definition rateOf (h m : nat) : Q :=
  if (0 <? h + m)%nat
  then Qmult (Qdiv (inject_Z (Z.of_nat h)) (inject_Z (Z.of_nat (h + m))))
             (inject_Z 100)
  else inject_Z 0.

(** A counter summed over the statistics of several caches. *)
Definition sumOver (f : CacheStats -> nat) (stats : list (string * CacheStats))
    : nat :=
  fold_right (fun entry n => (f (snd entry) + n)%nat) O stats.

(** The entry is past its time-to-live at time [now]. *)
Definition expiredAt {T : Type} (now : Z) (kv : string * CacheEntry T) : bool :=
  numGt (num (now - timestamp (snd kv))) (ttl (snd kv)).

(** The stored [hitRate] is the rate of the stored hits and misses. *)
Definition rateAgrees {T : Type} (c : SmartCache.t T) : Prop :=
  hitRate (SmartCache.stats c)
  = rateOf (hits (SmartCache.stats c)) (misses (SmartCache.stats c)).

(** Every stored entry, every delete and every eviction is paid for by a
    [set]. *)
Definition accounted {T : Type} (c : SmartCache.t T) : Prop :=
  (SmartCache.size c + deletes (SmartCache.stats c)
   + evictions (SmartCache.stats c) <= sets (SmartCache.stats c))%nat.

(** The recommendations one cache contributes to the report. *)
Definition recommendationsFor (toFixed1 : Q -> string)
    (entry : string * CacheStats) : list string :=
  (if Qltb (hitRate (snd entry)) (inject_Z 50)
   then [CacheMonitoring.lowHitRateText toFixed1 (fst entry) (snd entry)]
   else [])
  ++ (if Qltb (Qmult (inject_Z (Z.of_nat (sets (snd entry)))) (3 # 10))
              (inject_Z (Z.of_nat (evictions (snd entry))))
      then [CacheMonitoring.highEvictionText (fst entry)]
      else []).

(** The caches of the registry that a report can name, with their
    statistics, in the order of registration: every registered name but
    [__proto__]. *)
Definition reported {T : Type} (m : CacheManager.t T)
    : list (string * CacheStats) :=
  flat_map
    (fun na =>
       if String.eqb (fst na) "__proto__" then []
       else
         match CacheManager.deref (snd na) m with
         | Some c => [(fst na, SmartCache.getStats c)]
         | None => []
         end)
    (CacheManager.caches m).

(** The [set] calls that [warmUpCache] makes for the items [data], the first
    one reading the clock as [clock i]. *)
Fixpoint warmUpOps {T : Type} (clock : nat -> Z) (ttl_ : option Number)
    (i : nat) (data : list (string * option T)) : list (SmartCache.Op T) :=
  match data with
  | [] => []
  | item :: rest =>
      SmartCache.OpSet (clock i) (fst item) (snd item) ttl_
      :: warmUpOps clock ttl_ (S i) rest
  end.

(** Two properties whose names are array indices, the index of the first
    not above the index of the second. *)
Definition ascendingIndex {V : Type} (a b : string * V) : Prop :=
  match JsObject.arrayIndex (fst a), JsObject.arrayIndex (fst b) with
  | Some i, Some j => (i <= j)%N
  | _, _ => False
  end.

(** * Properties *)

(** ** The comparisons of the host language *)

Section NumberFacts.
Implicit Types (a b c : Number) (x y : Z).

Lemma Qltb_lt (p q : Q) : Qltb p q = true <-> Qlt p q.
Proof.
  unfold Qltb. rewrite negb_true_iff, <- not_true_iff_false, Qle_bool_iff.
  split; [apply Qnot_le_lt | apply Qlt_not_le].
Qed.

Lemma Qltb_ge (p q : Q) : Qltb p q = false <-> Qle q p.
Proof.
  unfold Qltb. rewrite negb_false_iff. apply Qle_bool_iff.
Qed.

Lemma numLt_num x y : numLt (num x) (num y) = (x <? y).
Proof.
  unfold num, numLt. apply Bool.eq_iff_eq_true.
  rewrite Qltb_lt, Z.ltb_lt, Zlt_Qlt. reflexivity.
Qed.

Lemma numGe_num x y : numGe (num x) (num y) = (y <=? x).
Proof.
  unfold numGe. change (negb (numLt (num x) (num y)) = (y <=? x)).
  rewrite numLt_num. destruct (Z.ltb_spec x y), (Z.leb_spec y x); try reflexivity; lia.
Qed.

Lemma numGt_num x y : numGt (num x) (num y) = (y <? x).
Proof. apply numLt_num. Qed.


Lemma numLt_trans a b c :
  numLt a b = true -> numLt b c = true -> numLt a c = true.
Proof.
  destruct a as [| | |p], b as [| | |q], c as [| | |r]; simpl;
    try discriminate; try reflexivity.
  rewrite !Qltb_lt. apply Qlt_trans.
Qed.

(** [a < b] rules out [a >= b]. *)
Lemma numLt_not_ge a b : numLt a b = true -> numGe a b = false.
Proof.
  destruct a as [| | |p], b as [| | |q]; simpl; try discriminate;
    try reflexivity.
  intros ->. reflexivity.
Qed.

(** If [a] is below a bound that [b] is not below, then [a >= b] fails:
    [b] is [NaN] or larger than [a]. *)
Lemma numLt_between a b bound :
  numLt a bound = true -> numLt b bound = false -> numGe a b = false.
Proof.
  destruct a as [| | |p], b as [| | |q], bound as [| | |r]; simpl;
    try discriminate; try reflexivity.
  rewrite Qltb_lt, Qltb_ge. intros H1 H2. apply negb_false_iff, Qltb_lt.
  eapply Qlt_le_trans; eassumption.
Qed.

Lemma numGe_num_false x y : numGe (num x) (num y) = false <-> x < y.
Proof. rewrite numGe_num. apply Z.leb_gt. Qed.

Lemma numLt_num_false x y : numLt (num x) (num y) = false <-> y <= x.
Proof. rewrite numLt_num. apply Z.ltb_ge. Qed.

(** A number below zero is below every elapsed time that is not negative,
    and is not falsy. *)
Lemma negative_below a x :
  numLt a (num 0) = true -> 0 <= x -> numLt a (num x) = true.
Proof.
  destruct a as [| | |p]; simpl; try discriminate; try reflexivity.
  rewrite !Qltb_lt. intros Hp Hx. eapply Qlt_le_trans; [exact Hp|].
  now rewrite <- Zle_Qle.
Qed.

Lemma negative_truthy a : numLt a (num 0) = true -> isFalsy a = false.
Proof.
  destruct a as [| | |p]; simpl; try discriminate; try reflexivity.
  rewrite Qltb_lt. intros Hp. apply not_true_iff_false. intros He.
  apply Qeq_bool_iff in He. rewrite He in Hp. now apply Qlt_irrefl in Hp.
Qed.
End NumberFacts.

(** ** The ordered map *)

Section JsMapFacts.
Context {V : Type}.
Implicit Types (m : JsMap.t V) (k : string) (v : V).

Lemma has_true_iff k m : JsMap.has k m = true <-> In k (JsMap.keys m).
Proof.
  unfold JsMap.has. induction m as [|[k' v'] m IH]; simpl.
  - split; [discriminate | tauto].
  - destruct (String.eqb_spec k k') as [->|Hne].
    + split; auto.
    + rewrite IH. split; [auto | intros [H|H]; [congruence | exact H]].
Qed.

Lemma has_false_iff k m : JsMap.has k m = false <-> ~ In k (JsMap.keys m).
Proof.
  rewrite <- has_true_iff. destruct (JsMap.has k m); split; congruence.
Qed.

Lemma has_get k m : JsMap.has k m = false <-> JsMap.get k m = None.
Proof.
  unfold JsMap.has. destruct (JsMap.get k m); split; congruence.
Qed.

Lemma get_set_same k v m : JsMap.get k (JsMap.set k v m) = Some v.
Proof.
  induction m as [|[k' v'] m IH]; simpl.
  - now rewrite String.eqb_refl.
  - destruct (String.eqb_spec k k') as [->|Hne]; simpl.
    + now rewrite String.eqb_refl.
    + destruct (String.eqb_spec k k'); [contradiction | exact IH].
Qed.

Lemma get_set_other k k' v m :
  k <> k' -> JsMap.get k' (JsMap.set k v m) = JsMap.get k' m.
Proof.
  intros Hne. induction m as [|[k0 v0] m IH]; simpl.
  - destruct (String.eqb_spec k' k); [congruence | reflexivity].
  - destruct (String.eqb_spec k k0) as [->|H0]; simpl.
    + destruct (String.eqb_spec k' k0); [congruence | reflexivity].
    + now rewrite IH.
Qed.

Lemma get_delete_other k k' m :
  k <> k' -> JsMap.get k' (JsMap.delete k m) = JsMap.get k' m.
Proof.
  intros Hne. induction m as [|[k0 v0] m IH]; simpl; [reflexivity|].
  destruct (String.eqb_spec k k0) as [->|H0]; simpl.
  - destruct (String.eqb_spec k' k0); [congruence | reflexivity].
  - now rewrite IH.
Qed.

Lemma delete_absent k m : JsMap.has k m = false -> JsMap.delete k m = m.
Proof.
  rewrite has_false_iff. induction m as [|[k0 v0] m IH]; simpl; [reflexivity|].
  intros Hn. destruct (String.eqb_spec k k0) as [->|H0].
  - exfalso. apply Hn. now left.
  - f_equal. apply IH. tauto.
Qed.

Lemma set_present_keys k v m :
  JsMap.has k m = true -> JsMap.keys (JsMap.set k v m) = JsMap.keys m.
Proof.
  rewrite has_true_iff. induction m as [|[k0 v0] m IH]; simpl; [tauto|].
  intros Hin. destruct (String.eqb_spec k k0) as [->|H0]; simpl; [reflexivity|].
  f_equal. apply IH. destruct Hin; [congruence | assumption].
Qed.

Lemma set_absent k v m :
  JsMap.has k m = false -> JsMap.set k v m = m ++ [(k, v)].
Proof.
  rewrite has_false_iff. induction m as [|[k0 v0] m IH]; simpl; [reflexivity|].
  intros Hn. destruct (String.eqb_spec k k0) as [->|H0].
  - exfalso. apply Hn. now left.
  - f_equal. apply IH. tauto.
Qed.

Lemma size_set k v m :
  JsMap.size (JsMap.set k v m)
  = if JsMap.has k m then JsMap.size m else S (JsMap.size m).
Proof.
  destruct (JsMap.has k m) eqn:H.
  - unfold JsMap.size. rewrite <- !(length_map fst).
    change (map fst (JsMap.set k v m)) with (JsMap.keys (JsMap.set k v m)).
    now rewrite set_present_keys.
  - rewrite set_absent by assumption. unfold JsMap.size.
    rewrite length_app. simpl. lia.
Qed.

(** Deleting a present key takes out its first, and in a real map only,
    occurrence. *)
Lemma delete_split k m :
  JsMap.has k m = true ->
  exists pre v post,
    m = pre ++ (k, v) :: post /\ JsMap.delete k m = pre ++ post /\
    ~ In k (JsMap.keys pre).
Proof.
  rewrite has_true_iff. induction m as [|[k0 v0] m IH]; simpl; [tauto|].
  intros Hin. destruct (String.eqb_spec k k0) as [->|H0].
  - exists [], v0, m. simpl. tauto.
  - destruct IH as (pre & v & post & E & D & N); [destruct Hin; congruence|].
    exists ((k0, v0) :: pre), v, post. simpl. rewrite E at 1. rewrite D.
    repeat split; auto. intros [H|H]; [congruence | contradiction].
Qed.

Lemma size_delete k m :
  JsMap.has k m = true -> S (JsMap.size (JsMap.delete k m)) = JsMap.size m.
Proof.
  intros H. destruct (delete_split k m H) as (pre & v & post & E & D & _).
  rewrite D, E. unfold JsMap.size. rewrite !length_app. simpl. lia.
Qed.

Lemma size_delete_le k m : (JsMap.size (JsMap.delete k m) <= JsMap.size m)%nat.
Proof.
  destruct (JsMap.has k m) eqn:H.
  - pose proof (size_delete k m H). lia.
  - rewrite delete_absent by assumption. lia.
Qed.

Lemma delete_filter k m :
  JsMap.distinct m ->
  JsMap.delete k m = filter (fun kv => negb (String.eqb k (fst kv))) m.
Proof.
  unfold JsMap.distinct. induction m as [|[k0 v0] m IH]; simpl; [reflexivity|].
  intros Hnd. inversion Hnd as [|? ? Hnotin Hnd']; subst.
  destruct (String.eqb_spec k k0) as [->|H0]; simpl.
  - symmetry. apply forallb_filter_id.
    apply forallb_forall. intros [k1 v1] Hin. simpl.
    destruct (String.eqb_spec k0 k1) as [->|]; [|reflexivity].
    exfalso. apply Hnotin. change k1 with (fst (k1, v1)). now apply in_map.
  - f_equal. now apply IH.
Qed.

Lemma distinct_filter (f : string * V -> bool) m :
  JsMap.distinct m -> JsMap.distinct (filter f m).
Proof.
  unfold JsMap.distinct, JsMap.keys.
  induction m as [|kv m IH]; simpl; [auto|].
  intros Hnd. inversion Hnd as [|? ? Hnotin Hnd']; subst.
  destruct (f kv); simpl; [|now apply IH].
  constructor; [|now apply IH].
  intros Hin. apply Hnotin. apply in_map_iff in Hin.
  destruct Hin as (x & Hx & Hin). apply filter_In in Hin.
  apply in_map_iff. exists x. tauto.
Qed.

Lemma distinct_delete k m : JsMap.distinct m -> JsMap.distinct (JsMap.delete k m).
Proof.
  intros H. rewrite delete_filter by assumption. now apply distinct_filter.
Qed.

Lemma distinct_set k v m : JsMap.distinct m -> JsMap.distinct (JsMap.set k v m).
Proof.
  intros H. unfold JsMap.distinct. destruct (JsMap.has k m) eqn:Hh.
  - now rewrite set_present_keys.
  - rewrite set_absent by assumption. unfold JsMap.keys.
    rewrite map_app. simpl.
    apply NoDup_app; [exact H | repeat constructor; simpl; tauto |].
    intros a Ha [<-|[]]. now apply has_false_iff in Hh.
Qed.

Lemma get_delete_same k m :
  JsMap.distinct m -> JsMap.get k (JsMap.delete k m) = None.
Proof.
  intros Hd. apply has_get. apply has_false_iff.
  rewrite delete_filter by assumption. unfold JsMap.keys.
  intros Hin. apply in_map_iff in Hin. destruct Hin as ([k1 v1] & E & Hin).
  apply filter_In in Hin. destruct Hin as [_ Hf]. simpl in *. subst k1.
  now rewrite String.eqb_refl in Hf.
Qed.

Lemma get_In k m v : JsMap.get k m = Some v -> In (k, v) m.
Proof.
  induction m as [|[k0 v0] m IH]; simpl; [discriminate|].
  destruct (String.eqb_spec k k0) as [->|Hne].
  - intros [= ->]. now left.
  - intros Hg. right. now apply IH.
Qed.

Lemma keys_set_iff k k0 v m :
  In k (JsMap.keys (JsMap.set k0 v m)) <-> k = k0 \/ In k (JsMap.keys m).
Proof.
  destruct (JsMap.has k0 m) eqn:Hh.
  - rewrite set_present_keys by assumption. apply has_true_iff in Hh.
    split; [auto | intros [->|H]; assumption].
  - rewrite set_absent by assumption. unfold JsMap.keys. rewrite map_app, in_app_iff.
    simpl. intuition.
Qed.
End JsMapFacts.

Lemma delete_middle {V : Type} (pre post : JsMap.t V) (k : string) (v : V) :
  JsMap.distinct (pre ++ (k, v) :: post) ->
  JsMap.delete k (pre ++ (k, v) :: post) = pre ++ post.
Proof.
  unfold JsMap.distinct, JsMap.keys.
  induction pre as [|[k0 v0] pre IH]; simpl; intros Hnd.
  - now rewrite String.eqb_refl.
  - inversion Hnd as [|? ? Hnotin Hnd']; subst.
    destruct (String.eqb_spec k k0) as [->|Hne].
    + exfalso. apply Hnotin. rewrite map_app. apply in_or_app. right. now left.
    + f_equal. now apply IH.
Qed.

(** ** The minimum scans and eviction *)

Section EvictionFacts.
Context {T : Type}.
Implicit Types (c : SmartCache.t T) (m : JsMap.t (CacheEntry T)).

(** What the loop of a scan computes from any starting pair: either no
    entry is below the starting bound and the pair is returned as it is, or
    the first entry that is below the bound and below or unordered with
    everything before it, and not above anything after it. *)
Lemma scan_fold (measure : CacheEntry T -> Number) m :
  forall acc,
    (fold_left (SmartCache.scanStep measure) m acc = acc /\
     forall kv, In kv m -> numLt (measure (snd kv)) (snd acc) = false)
    \/
    (exists pre k e post,
        m = pre ++ (k, e) :: post /\
        fold_left (SmartCache.scanStep measure) m acc = (k, measure e) /\
        numLt (measure e) (snd acc) = true /\
        (forall kv, In kv pre -> numGe (measure e) (measure (snd kv)) = false) /\
        (forall kv, In kv post -> numLt (measure (snd kv)) (measure e) = false)).
Proof.
  induction m as [|[k0 e0] m IH]; intros acc; simpl.
  - left. split; [reflexivity | intros ? []].
  - unfold SmartCache.scanStep at 2 4. simpl.
    destruct (numLt (measure e0) (snd acc)) eqn:Hlt.
    + right.
      destruct (IH (k0, measure e0))
        as [[Hr Hall]|(pre & k & e & post & E & Hr & Hb & Hpre & Hpost)].
      * exists [], k0, e0, m. repeat split; auto. intros ? [].
      * simpl in Hb.
        exists ((k0, e0) :: pre), k, e, post. subst m. repeat split; auto.
        -- eapply numLt_trans; eauto.
        -- intros kv [<-|Hin]; simpl; [now apply numLt_not_ge | now apply Hpre].
    + destruct (IH acc)
        as [[Hr Hall]|(pre & k & e & post & E & Hr & Hb & Hpre & Hpost)].
      * left. split; [exact Hr|]. intros kv [<-|Hin]; [exact Hlt | now apply Hall].
      * right. exists ((k0, e0) :: pre), k, e, post. subst m. repeat split; auto.
        intros kv [<-|Hin]; simpl; [|now apply Hpre].
        eapply numLt_between; eauto.
Qed.

(** When some entry has its measure below [Infinity], the scan returns the
    key of the first entry with the least measure. *)
Lemma scanMin_spec (measure : CacheEntry T -> Number) m :
  (exists kv, In kv m /\ numLt (measure (snd kv)) PosInf = true) ->
  exists pre k e post,
    m = pre ++ (k, e) :: post /\
    SmartCache.scanMin measure m = k /\
    firstBelow measure pre e post.
Proof.
  intros (kv & Hin & Hkv). unfold SmartCache.scanMin.
  destruct (scan_fold measure m (EmptyString, PosInf))
    as [[_ Hall]|(pre & k & e & post & E & Hr & Hb & Hpre & Hpost)].
  - specialize (Hall kv Hin). simpl in Hall. congruence.
  - exists pre, k, e, post. rewrite Hr. repeat split; auto.
Qed.


(** For a measure that is an integer, the choice is the first minimum. *)
Lemma firstBelow_num (z : CacheEntry T -> Z) pre e post :
  firstBelow (fun x => num (z x)) pre e post -> firstMinimum z pre e post.
Proof.
  intros (_ & Hpre & Hpost). split.
  - intros kv Hin. apply numGe_num_false. now apply Hpre.
  - intros kv Hin. apply numLt_num_false. now apply Hpost.
Qed.

Lemma scanMin_num (z : CacheEntry T -> Z) m :
  m <> [] ->
  exists pre k e post,
    m = pre ++ (k, e) :: post /\
    SmartCache.scanMin (fun x => num (z x)) m = k /\
    firstMinimum z pre e post.
Proof.
  intros Hne.
  destruct (scanMin_spec (fun x => num (z x)) m)
    as (pre & k & e & post & E & Hk & Hmin).
  - destruct m as [|kv m]; [congruence|]. exists kv. split; [now left | reflexivity].
  - exists pre, k, e, post. split; [exact E|]. split; [exact Hk|].
    now apply firstBelow_num.
Qed.

Lemma evictable_nonempty c : evictable c -> SmartCache.cache c <> [].
Proof.
  unfold evictable. destruct (evictionPolicy (SmartCache.config c)); auto.
  intros (kv & Hin & _) E. now rewrite E in Hin.
Qed.

(** A cache that is not empty is evictable as soon as, under the ['ttl']
    policy, its entries have their expiry below [Infinity]. *)
Lemma expiriesFinite_evictable c :
  expiriesFinite c -> SmartCache.cache c <> [] -> evictable c.
Proof.
  unfold expiriesFinite, evictable. intros Hfin Hne.
  destruct (evictionPolicy (SmartCache.config c)); auto.
  destruct (SmartCache.cache c) as [|kv m]; [congruence|].
  exists kv. split; [now left|]. apply Hfin; [reflexivity | now left].
Qed.

(** One branch of the switch in [evictEntry]: the scan found the key that is
    then deleted. *)
Ltac evict_found E Hd pre k e post Hmin :=
  exists pre, k, e, post; split; [exact E|]; split; [exact Hmin|];
  unfold SmartCache.withStats, SmartCache.withCache; simpl;
  rewrite E in Hd |- *; now rewrite delete_middle.

Lemma evictEntry_spec c :
  JsMap.distinct (SmartCache.cache c) ->
  evictable c ->
  exists pre victim e post,
    SmartCache.cache c = pre ++ (victim, e) :: post /\
    chosenBy (evictionPolicy (SmartCache.config c)) pre e post /\
    SmartCache.evictEntry c
    = SmartCache.mk (pre ++ post)
        (SmartCache.setTotalSize (JsMap.size (pre ++ post))
           (SmartCache.bumpEvictions (SmartCache.stats c)))
        (SmartCache.config c) (SmartCache.cleanupTimer c).
Proof.
  intros Hd Hev. pose proof (evictable_nonempty c Hev) as Hne.
  unfold SmartCache.evictEntry.
  destruct (Nat.eqb_spec (JsMap.size (SmartCache.cache c)) 0) as [Hz|_].
  { destruct (SmartCache.cache c); [congruence | discriminate]. }
  unfold SmartCache.findLeastRecentlyUsed, SmartCache.findLeastFrequentlyUsed,
    SmartCache.findNearestExpiry, chosenBy, evictable in *.
  destruct (evictionPolicy (SmartCache.config c)).
  - destruct (scanMin_num (@lastAccessed T) _ Hne)
      as (pre & k & e & post & E & -> & Hmin).
    evict_found E Hd pre k e post Hmin.
  - destruct (scanMin_num (fun x : CacheEntry T => Z.of_nat (accessCount x)) _ Hne)
      as (pre & k & e & post & E & -> & Hmin).
    evict_found E Hd pre k e post Hmin.
  - destruct (scanMin_spec (@SmartCache.expiryTime T) _ Hev)
      as (pre & k & e & post & E & -> & Hmin).
    evict_found E Hd pre k e post Hmin.
  - destruct (SmartCache.cache c) as [|[k e] post] eqn:E; [congruence|].
    exists [], k, e, post. split; [reflexivity|]. split; [reflexivity|].
    unfold SmartCache.withStats, SmartCache.withCache. simpl.
    now rewrite String.eqb_refl.
Qed.

End EvictionFacts.

(** ** Expiry *)

Section ExpiryFacts.
Context {T : Type}.

(** For a time-to-live that is an integer the test is the integer one. *)
Lemma isExpired_num now (e : CacheEntry T) z :
  ttl e = num z ->
  SmartCache.isExpired now e = (z <? now - timestamp e).
Proof. intros E. unfold SmartCache.isExpired. rewrite E. apply numGt_num. Qed.

(** An entry whose time-to-live is [NaN] or [Infinity] never expires. *)
Lemma isExpired_never now (e : CacheEntry T) :
  ttl e = NaN \/ ttl e = PosInf -> SmartCache.isExpired now e = false.
Proof. unfold SmartCache.isExpired. intros [-> | ->]; reflexivity. Qed.
End ExpiryFacts.

(** ** Eviction on [set] *)

Section SetFacts.
Context {T : Type}.
Implicit Types (c : SmartCache.t T).

Lemma set_overwrite now key value ttl_ c :
  JsMap.has key (SmartCache.cache c) = true ->
  SmartCache.set now key value ttl_ c
  = SmartCache.mk
      (JsMap.set key (freshEntry now value ttl_ c) (SmartCache.cache c))
      (SmartCache.setTotalSize (JsMap.size (SmartCache.cache c))
         (SmartCache.bumpSets (SmartCache.stats c)))
      (SmartCache.config c) (SmartCache.cleanupTimer c).
Proof.
  intros Hh. unfold SmartCache.set. rewrite Hh, andb_false_r.
  unfold SmartCache.withStats, SmartCache.withCache, freshEntry. simpl.
  now rewrite size_set, Hh.
Qed.

Lemma set_below_capacity now key value ttl_ c :
  atCapacity c = false ->
  SmartCache.cache (SmartCache.set now key value ttl_ c)
  = JsMap.set key (freshEntry now value ttl_ c) (SmartCache.cache c) /\
  evictions (SmartCache.stats (SmartCache.set now key value ttl_ c))
  = evictions (SmartCache.stats c).
Proof.
  unfold atCapacity, SmartCache.size. intros Hlt. unfold SmartCache.set.
  rewrite Hlt. simpl. split; reflexivity.
Qed.

(** A [set] of a new key at capacity is [evictEntry] followed by the
    insertion at the end. *)
Lemma set_at_capacity now key value ttl_ c :
  atCapacity c = true ->
  JsMap.has key (SmartCache.cache c) = false ->
  SmartCache.set now key value ttl_ c
  = let c1 := SmartCache.evictEntry c in
    SmartCache.mk
      (JsMap.set key (freshEntry now value ttl_ c) (SmartCache.cache c1))
      (SmartCache.setTotalSize
         (JsMap.size
            (JsMap.set key (freshEntry now value ttl_ c) (SmartCache.cache c1)))
         (SmartCache.bumpSets (SmartCache.stats c1)))
      (SmartCache.config c1) (SmartCache.cleanupTimer c1).
Proof.
  unfold atCapacity, SmartCache.size. intros Hcap Hh. unfold SmartCache.set.
  rewrite Hcap, Hh. reflexivity.
Qed.

Lemma has_delete_still_absent (k key : string) (m : JsMap.t (CacheEntry T)) :
  JsMap.has key m = false -> JsMap.has key (JsMap.delete k m) = false.
Proof.
  rewrite !has_false_iff. intros Hn Hin. apply Hn. clear Hn.
  induction m as [|[k0 v0] m IH]; simpl in *; [contradiction|].
  destruct (String.eqb k k0); simpl in *; [now right|].
  destruct Hin as [H|H]; [now left | right; now apply IH].
Qed.

Lemma set_evicting now key value ttl_ c :
  JsMap.distinct (SmartCache.cache c) ->
  atCapacity c = true ->
  evictable c ->
  JsMap.has key (SmartCache.cache c) = false ->
  exists pre victim e post,
    SmartCache.cache c = pre ++ (victim, e) :: post /\
    chosenBy (evictionPolicy (SmartCache.config c)) pre e post /\
    SmartCache.cache (SmartCache.set now key value ttl_ c)
    = pre ++ post ++ [(key, freshEntry now value ttl_ c)] /\
    evictions (SmartCache.stats (SmartCache.set now key value ttl_ c))
    = S (evictions (SmartCache.stats c)).
Proof.
  intros Hd Hcap Hev Hh.
  destruct (evictEntry_spec c Hd Hev) as (pre & victim & e & post & E & Hch & Hx).
  exists pre, victim, e, post. split; [exact E|]. split; [exact Hch|].
  rewrite set_at_capacity by assumption. cbv zeta. rewrite Hx. simpl.
  split; [|reflexivity].
  rewrite set_absent, <- app_assoc; [reflexivity|].
  apply has_false_iff. apply has_false_iff in Hh. intros Hin. apply Hh.
  rewrite E. unfold JsMap.keys in *. rewrite map_app in *. simpl.
  apply in_app_or in Hin. apply in_or_app. destruct Hin; [left | right; right]; assumption.
Qed.

End SetFacts.

(** ** Scenario A *)

Section ScenarioA.
Lemma get_hit_cache {T : Type} now now' key (c : SmartCache.t T) e :
  JsMap.get key (SmartCache.cache c) = Some e ->
  SmartCache.isExpired now e = false ->
  fst (SmartCache.get now now' key c) = data e /\
  SmartCache.cache (snd (SmartCache.get now now' key c))
  = JsMap.set key
      (mkEntry (data e) (timestamp e) (ttl e) (S (accessCount e)) now')
      (SmartCache.cache c) /\
  SmartCache.config (snd (SmartCache.get now now' key c)) = SmartCache.config c.
Proof.
  intros Hg Hlive. unfold SmartCache.get. rewrite Hg, Hlive. repeat split.
Qed.


Variable d : Number.
Variables t1 t2 t3 t3' t4 t5 t6 t7 : Z.
Hypothesis a_live_at_get : numGt (num (t3 - t1)) d = false.
Hypothesis clock_advanced : t2 < t3'.


Hypothesis a_live_at_end : numGt (num (t5 - t1)) d = false.
Hypothesis c_live_at_end : numGt (num (t7 - t4)) d = false.

End ScenarioA.



(** The ['ttl'] policy compares the sums as the doubles they are.  With
    [ttl = 2^53], the entry stamped 1 has the exact sum [2^53 + 1], which
    rounds to [2^53], the sum of the entry stamped 0: the two tie, and the
    scan evicts the first of them although the exact sum of the second is
    smaller. *)
Lemma nearest_expiry_compares_rounded_sums :
  let c := SmartCache.set 0 "b" (Some 2) (Some (num (2 ^ 53)))
             (SmartCache.set 1 "a" (Some 1) (Some (num (2 ^ 53)))
                (SmartCache.new (mkConfig (num 2) (num 1000) (num 60000) Ttl))) in
  SmartCache.keys c = ["a"; "b"] /\
  SmartCache.keys (SmartCache.set 2 "c" (Some 3) None c) = ["b"; "c"] /\
  0 + 2 ^ 53 < 1 + 2 ^ 53.
Proof.
  cbv zeta. split; [|split]; [vm_compute; reflexivity.. | lia].
Qed.

(** ** What every method preserves *)

Section StepFacts.
Context {T : Type}.
Implicit Types (c : SmartCache.t T) (op : SmartCache.Op T).

Ltac case_get key c :=
  unfold SmartCache.get;
  let e := fresh "e" in
  let Hg := fresh "Hget" in
  let Hx := fresh "Hexp" in
  destruct (JsMap.get key (SmartCache.cache c)) as [e|] eqn:Hg;
  [destruct (SmartCache.isExpired _ e) eqn:Hx|].

Ltac case_has key c :=
  unfold SmartCache.has;
  let e := fresh "e" in
  let Hg := fresh "Hget" in
  let Hx := fresh "Hexp" in
  destruct (JsMap.get key (SmartCache.cache c)) as [e|] eqn:Hg;
  [destruct (SmartCache.isExpired _ e) eqn:Hx|].

Lemma sweep_config ks : forall c,
  SmartCache.config (fold_left SmartCache.sweepStep ks c) = SmartCache.config c.
Proof. induction ks as [|k ks IH]; intros c; simpl; [reflexivity | now rewrite IH]. Qed.

Lemma sweep_size ks : forall c,
  (SmartCache.size (fold_left SmartCache.sweepStep ks c) <= SmartCache.size c)%nat.
Proof.
  induction ks as [|k ks IH]; intros c; simpl; [lia|].
  etransitivity; [apply IH|]. unfold SmartCache.size. simpl.
  apply size_delete_le.
Qed.

Lemma sweep_distinct ks : forall c,
  JsMap.distinct (SmartCache.cache c) ->
  JsMap.distinct (SmartCache.cache (fold_left SmartCache.sweepStep ks c)).
Proof.
  induction ks as [|k ks IH]; intros c Hd; simpl; [exact Hd|].
  apply IH. simpl. now apply distinct_delete.
Qed.

Lemma evictEntry_cache c :
  evictable c ->
  exists k,
    JsMap.has k (SmartCache.cache c) = true /\
    SmartCache.evictEntry c
    = SmartCache.mk (JsMap.delete k (SmartCache.cache c))
        (SmartCache.setTotalSize
           (JsMap.size (JsMap.delete k (SmartCache.cache c)))
           (SmartCache.bumpEvictions (SmartCache.stats c)))
        (SmartCache.config c) (SmartCache.cleanupTimer c).
Proof.
  intros Hev. pose proof (evictable_nonempty c Hev) as Hne.
  unfold SmartCache.evictEntry.
  destruct (Nat.eqb_spec (JsMap.size (SmartCache.cache c)) 0) as [Hz|_].
  { destruct (SmartCache.cache c); [congruence | discriminate]. }
  eexists. split; [|reflexivity].
  apply has_true_iff.
  unfold SmartCache.findLeastRecentlyUsed, SmartCache.findLeastFrequentlyUsed,
    SmartCache.findNearestExpiry, evictable in *.
  assert (Hin : forall measure,
    (exists kv, In kv (SmartCache.cache c)
                /\ numLt (measure (snd kv)) PosInf = true) ->
    In (SmartCache.scanMin measure (SmartCache.cache c))
       (JsMap.keys (SmartCache.cache c))).
  { intros measure Hex.
    destruct (scanMin_spec measure _ Hex) as (pre & k & e & post & E & -> & _).
    rewrite E. unfold JsMap.keys. rewrite map_app. apply in_or_app.
    right. now left. }
  assert (Hany : exists kv, In kv (SmartCache.cache c)).
  { destruct (SmartCache.cache c) as [|kv m]; [congruence|].
    exists kv. now left. }
  destruct (evictionPolicy (SmartCache.config c)).
  - apply Hin. destruct Hany as (kv & Hkv). exists kv. now split.
  - apply Hin. destruct Hany as (kv & Hkv). exists kv. now split.
  - now apply Hin.
  - destruct (SmartCache.cache c) as [|[k e] m]; [congruence | now left].
Qed.

Lemma evictEntry_config c :
  SmartCache.config (SmartCache.evictEntry c) = SmartCache.config c.
Proof.
  unfold SmartCache.evictEntry.
  now destruct (JsMap.size (SmartCache.cache c) =? 0)%nat.
Qed.

Lemma evictEntry_distinct c :
  JsMap.distinct (SmartCache.cache c) ->
  JsMap.distinct (SmartCache.cache (SmartCache.evictEntry c)).
Proof.
  intros Hd. unfold SmartCache.evictEntry.
  destruct (JsMap.size (SmartCache.cache c) =? 0)%nat; [exact Hd|].
  simpl. now apply distinct_delete.
Qed.

Lemma set_config now key value ttl_ c :
  SmartCache.config (SmartCache.set now key value ttl_ c) = SmartCache.config c.
Proof.
  unfold SmartCache.set. simpl.
  destruct (_ && _); [apply evictEntry_config | reflexivity].
Qed.

Lemma set_totalSize now key value ttl_ c :
  totalSize (SmartCache.stats (SmartCache.set now key value ttl_ c))
  = SmartCache.size (SmartCache.set now key value ttl_ c).
Proof. reflexivity. Qed.

Lemma step_config c op :
  SmartCache.config (SmartCache.step c op) = SmartCache.config c.
Proof.
  destruct op as [now now' key|now key value ttl_|key|now key| |now];
    cbn [SmartCache.step].
  - case_get key c; reflexivity.
  - apply set_config.
  - unfold SmartCache.delete. now destruct (JsMap.has key (SmartCache.cache c)).
  - case_has key c; reflexivity.
  - reflexivity.
  - unfold SmartCache.cleanup. simpl. apply sweep_config.
Qed.

Lemma run_config ops : forall c,
  SmartCache.config (SmartCache.run ops c) = SmartCache.config c.
Proof.
  unfold SmartCache.run. induction ops as [|op ops IH]; intros c; simpl;
    [reflexivity | now rewrite IH, step_config].
Qed.

Lemma step_distinct c op :
  JsMap.distinct (SmartCache.cache c) ->
  JsMap.distinct (SmartCache.cache (SmartCache.step c op)).
Proof.
  intros Hd.
  destruct op as [now now' key|now key value ttl_|key|now key| |now];
    cbn [SmartCache.step].
  - case_get key c; simpl; auto using distinct_delete, distinct_set.
  - unfold SmartCache.set. simpl. apply distinct_set.
    destruct (_ && _); [now apply evictEntry_distinct | exact Hd].
  - unfold SmartCache.delete.
    destruct (JsMap.has key (SmartCache.cache c)); simpl; now apply distinct_delete.
  - case_has key c; simpl; auto using distinct_delete.
  - constructor.
  - unfold SmartCache.cleanup. simpl. now apply sweep_distinct.
Qed.

(** A map of a reachable cache has distinct keys. *)
Lemma reachable_distinct c :
  SmartCache.reachable c -> JsMap.distinct (SmartCache.cache c).
Proof.
  induction 1 as [cfg|c op _ IH]; [constructor | now apply step_distinct].
Qed.

Lemma run_distinct ops : forall c,
  JsMap.distinct (SmartCache.cache c) ->
  JsMap.distinct (SmartCache.cache (SmartCache.run ops c)).
Proof.
  unfold SmartCache.run. induction ops as [|op ops IH]; intros c Hd; simpl;
    [exact Hd | now apply IH, step_distinct].
Qed.

(** *** Entries come from somewhere *)

Lemma In_delete (k : string) (m : JsMap.t (CacheEntry T)) kv :
  In kv (JsMap.delete k m) -> In kv m.
Proof.
  induction m as [|[k0 v0] m IH]; simpl; [tauto|].
  destruct (String.eqb k k0); simpl; [now right|].
  intros [H|H]; [now left | right; now apply IH].
Qed.

Lemma In_set (k : string) (v : CacheEntry T) (m : JsMap.t (CacheEntry T)) kv :
  In kv (JsMap.set k v m) -> kv = (k, v) \/ In kv m.
Proof.
  induction m as [|[k0 v0] m IH]; simpl.
  - intros [H|[]]. now left.
  - destruct (String.eqb k k0); simpl.
    + intros [H|H]; [now left | right; now right].
    + intros [H|H]; [right; now left|].
      destruct (IH H); [now left | right; now right].
Qed.

Lemma In_sweep ks : forall c kv,
  In kv (SmartCache.cache (fold_left SmartCache.sweepStep ks c)) ->
  In kv (SmartCache.cache c).
Proof.
  induction ks as [|k ks IH]; intros c kv; simpl; [tauto|].
  intros Hin. apply IH in Hin. simpl in Hin. now apply In_delete in Hin.
Qed.

Lemma In_evictEntry c kv :
  In kv (SmartCache.cache (SmartCache.evictEntry c)) -> In kv (SmartCache.cache c).
Proof.
  unfold SmartCache.evictEntry.
  destruct (JsMap.size (SmartCache.cache c) =? 0)%nat; [tauto|].
  simpl. apply In_delete.
Qed.

Lemma In_after_set now key value ttl_ c kv :
  In kv (SmartCache.cache (SmartCache.set now key value ttl_ c)) ->
  kv = (key, freshEntry now value ttl_ c) \/ In kv (SmartCache.cache c).
Proof.
  unfold SmartCache.set. simpl. intros Hin. apply In_set in Hin.
  destruct Hin as [H|H]; [now left | right].
  destruct (_ && _); [now apply In_evictEntry | exact H].
Qed.

(** Under the ['ttl'] policy, a step whose [set] stores an expiry below
    [Infinity] keeps every stored expiry below [Infinity]. *)
Lemma step_expiriesFinite c op :
  (evictionPolicy (SmartCache.config c) = Ttl -> opFinite (SmartCache.config c) op) ->
  expiriesFinite c -> expiriesFinite (SmartCache.step c op).
Proof.
  unfold expiriesFinite. rewrite step_config. intros Hop Hfin Hp kv.
  specialize (Hop Hp). specialize (Hfin Hp).
  destruct op as [now now' key|now key value ttl_|key|now key| |now];
    cbn [SmartCache.step].
  - case_get key c; simpl; intros Hin.
    + apply Hfin. now apply In_delete in Hin.
    + apply In_set in Hin. destruct Hin as [->|Hin]; [|now apply Hfin].
      apply get_In in Hget. exact (Hfin _ Hget).
    + now apply Hfin.
  - intros Hin. apply In_after_set in Hin.
    destruct Hin as [->|Hin]; [exact Hop | now apply Hfin].
  - unfold SmartCache.delete.
    destruct (JsMap.has key (SmartCache.cache c)); simpl; intros Hin;
      apply Hfin; now apply In_delete in Hin.
  - case_has key c; simpl; intros Hin; try (now apply Hfin).
    apply Hfin. now apply In_delete in Hin.
  - intros [].
  - unfold SmartCache.cleanup. simpl. intros Hin. apply Hfin.
    now apply In_sweep in Hin.
Qed.

Lemma set_size_bound now key value ttl_ c (q : Q) :
  maxSize (SmartCache.config c) = Finite q ->
  Qlt (inject_Z 0) q ->
  expiriesFinite c ->
  Qlt (inject_Z (Z.of_nat (SmartCache.size c))) (Qplus q (inject_Z 1)) ->
  Qlt (inject_Z (Z.of_nat (SmartCache.size (SmartCache.set now key value ttl_ c))))
      (Qplus q (inject_Z 1)).
Proof.
  intros Hmax Hpos Hfin Hle.
  destruct (JsMap.has key (SmartCache.cache c)) eqn:Hh.
  - rewrite set_overwrite by assumption. unfold SmartCache.size in *. simpl.
    now rewrite size_set, Hh.
  - destruct (atCapacity c) eqn:Hcap.
    + assert (Hne : SmartCache.cache c <> []).
      { intros E. unfold atCapacity, SmartCache.size in Hcap.
        rewrite Hmax, E in Hcap. simpl in Hcap.
        apply negb_true_iff, Qltb_ge in Hcap.
        apply (Qlt_not_le _ _ Hpos). exact Hcap. }
      destruct (evictEntry_cache c (expiriesFinite_evictable c Hfin Hne))
        as (k & Hk & Hx).
      rewrite set_at_capacity by assumption. cbv zeta. rewrite Hx.
      unfold SmartCache.size in *. simpl.
      rewrite size_set, has_delete_still_absent by assumption.
      now rewrite (size_delete k _ Hk).
    + destruct (set_below_capacity now key value ttl_ c Hcap) as [Ec _].
      unfold SmartCache.size in *. rewrite Ec, size_set, Hh.
      unfold atCapacity, SmartCache.size in Hcap. rewrite Hmax in Hcap.
      simpl in Hcap. apply negb_false_iff, Qltb_lt in Hcap.
      rewrite Nat2Z.inj_succ. unfold Z.succ. rewrite inject_Z_plus.
      now apply Qplus_lt_l.
Qed.

Lemma step_size_le c op :
  (forall now key value ttl_, op <> SmartCache.OpSet now key value ttl_) ->
  (SmartCache.size (SmartCache.step c op) <= SmartCache.size c)%nat.
Proof.
  intros Hns. unfold SmartCache.size.
  destruct op as [now now' key|now key value ttl_|key|now key| |now];
    cbn [SmartCache.step].
  - case_get key c; simpl; try lia; [apply size_delete_le|].
    rewrite size_set. unfold JsMap.has. rewrite Hget. lia.
  - exfalso. eapply Hns. reflexivity.
  - unfold SmartCache.delete.
    destruct (JsMap.has key (SmartCache.cache c)); simpl; apply size_delete_le.
  - case_has key c; simpl; try lia. apply size_delete_le.
  - unfold JsMap.size. simpl. lia.
  - unfold SmartCache.cleanup. simpl. apply sweep_size.
Qed.

Lemma step_size_bound c op (q : Q) :
  maxSize (SmartCache.config c) = Finite q ->
  Qlt (inject_Z 0) q ->
  expiriesFinite c ->
  Qlt (inject_Z (Z.of_nat (SmartCache.size c))) (Qplus q (inject_Z 1)) ->
  Qlt (inject_Z (Z.of_nat (SmartCache.size (SmartCache.step c op))))
      (Qplus q (inject_Z 1)).
Proof.
  intros Hmax Hpos Hfin Hle.
  destruct op as [now now' key|now key value ttl_|key|now key| |now];
    try (eapply Qle_lt_trans; [|exact Hle];
         rewrite <- Zle_Qle; apply inj_le, step_size_le; discriminate).
  now apply set_size_bound.
Qed.

Lemma run_size_bound ops (q : Q) : forall c,
  maxSize (SmartCache.config c) = Finite q ->
  Qlt (inject_Z 0) q ->
  expiriesFinite c ->
  tame (SmartCache.config c) ops ->
  Qlt (inject_Z (Z.of_nat (SmartCache.size c))) (Qplus q (inject_Z 1)) ->
  Qlt (inject_Z (Z.of_nat (SmartCache.size (SmartCache.run ops c))))
      (Qplus q (inject_Z 1)).
Proof.
  unfold SmartCache.run, tame.
  induction ops as [|op ops IH]; intros c Hmax Hpos Hfin Htame Hle; simpl;
    [exact Hle|].
  apply IH.
  - now rewrite step_config.
  - exact Hpos.
  - apply step_expiriesFinite; [|exact Hfin].
    intros Hp. specialize (Htame Hp). now inversion Htame.
  - rewrite step_config. intros Hp. specialize (Htame Hp). now inversion Htame.
  - now apply step_size_bound.
Qed.

(** The bound for a capacity that is an integer. *)
Lemma run_size_bound_integer ops (n : Z) c :
  maxSize (SmartCache.config c) = num n ->
  1 <= n ->
  expiriesFinite c ->
  tame (SmartCache.config c) ops ->
  Z.of_nat (SmartCache.size c) <= n ->
  Z.of_nat (SmartCache.size (SmartCache.run ops c)) <= n.
Proof.
  intros Hmax Hpos Hfin Htame Hle.
  assert (Hq : forall s : Z,
    Qlt (inject_Z s) (Qplus (inject_Z n) (inject_Z 1)) <-> s <= n).
  { intros s. rewrite <- inject_Z_plus, <- Zlt_Qlt. lia. }
  apply Hq. apply run_size_bound; auto.
  - rewrite <- Zlt_Qlt. lia.
  - now apply Hq.
Qed.
End StepFacts.


(** C2, as amended.  Take a cache whose [maxSize] is a finite number above
    zero and, under the ['ttl'] policy, whose stored entries and whose later
    [set] calls all have [timestamp + ttl] below [Infinity].  If its size is
    below [maxSize + 1], as the size of a new cache is, it stays below
    [maxSize + 1] after every finite sequence of calls of its methods, in
    particular of [set]; when [maxSize] is an integer, at least one, this is
    [size() <= maxSize].  A [set] of a key that is present triggers no
    eviction and leaves the set of keys as it is.  A [set] of a new key on a
    cache that is at capacity and in which the scan of the policy finds an
    entry evicts exactly one entry and then inserts, so the size is
    unchanged. *)
Theorem set_keeps_within_capacity :
  forall (T : Type) (c : SmartCache.t T),
    (forall ops q,
        maxSize (SmartCache.config c) = Finite q ->
        Qlt (inject_Z 0) q ->
        expiriesFinite c ->
        tame (SmartCache.config c) ops ->
        Qlt (inject_Z (Z.of_nat (SmartCache.size c))) (Qplus q (inject_Z 1)) ->
        Qlt (inject_Z (Z.of_nat (SmartCache.size (SmartCache.run ops c))))
            (Qplus q (inject_Z 1)))
    /\
    (forall ops n,
        maxSize (SmartCache.config c) = num n ->
        1 <= n ->
        expiriesFinite c ->
        tame (SmartCache.config c) ops ->
        Z.of_nat (SmartCache.size c) <= n ->
        Z.of_nat (SmartCache.size (SmartCache.run ops c)) <= n)
    /\
    (forall now key value ttl_,
        JsMap.has key (SmartCache.cache c) = true ->
        evictions (SmartCache.stats (SmartCache.set now key value ttl_ c))
        = evictions (SmartCache.stats c) /\
        SmartCache.keys (SmartCache.set now key value ttl_ c) = SmartCache.keys c)
    /\
    (forall now key value ttl_,
        JsMap.distinct (SmartCache.cache c) ->
        atCapacity c = true ->
        evictable c ->
        JsMap.has key (SmartCache.cache c) = false ->
        evictions (SmartCache.stats (SmartCache.set now key value ttl_ c))
        = S (evictions (SmartCache.stats c)) /\
        SmartCache.size (SmartCache.set now key value ttl_ c) = SmartCache.size c /\
        exists pre victim e post,
          SmartCache.cache c = pre ++ (victim, e) :: post /\
          SmartCache.cache (SmartCache.set now key value ttl_ c)
          = pre ++ post ++ [(key, freshEntry now value ttl_ c)]).
Proof.
  intros T c. split; [|split; [|split]].
  - intros ops q. now apply run_size_bound.
  - intros ops n. now apply run_size_bound_integer.
  - intros now key value ttl_ Hh. rewrite set_overwrite by assumption.
    unfold SmartCache.keys. simpl. split; [reflexivity|].
    now apply set_present_keys.
  - intros now key value ttl_ Hd Hcap Hev Hh.
    destruct (set_evicting now key value ttl_ c Hd Hcap Hev Hh)
      as (pre & victim & e & post & E & _ & Hc & Hx).
    split; [exact Hx|]. split.
    + unfold SmartCache.size, JsMap.size. rewrite Hc, E.
      repeat (rewrite length_app; simpl). lia.
    + exists pre, victim, e, post. auto.
Qed.

Lemma set_keeps_within_capacity_example :
  Z.of_nat (SmartCache.size
              (SmartCache.run
                 [SmartCache.OpSet 0 "a" (Some 1) None;
                  SmartCache.OpSet 1 "b" (Some 2) None;
                  SmartCache.OpSet 2 "c" (Some 3) None]
                 (SmartCache.new (mkConfig (num 2) (num 1000) (num 60000) Ttl))))
  <= 2.
Proof.
  apply (proj1 (proj2 (set_keeps_within_capacity Z
                  (SmartCache.new (mkConfig (num 2) (num 1000) (num 60000) Ttl))))).
  - reflexivity.
  - lia.
  - intros _ kv [].
  - intros _. repeat constructor.
  - simpl. lia.
Defined.

(** Three ways out of the bound.  A cache configured with [maxSize = 0]
    holds one entry after one [set]: [evictEntry] returns at once on the
    empty map and the insertion follows.  Under the ['ttl'] policy with
    [maxSize = 2], four entries stored with [ttl = Infinity] are all kept:
    no [timestamp + ttl] is below [Infinity], the scan finds nothing, and
    two evictions are counted for entries that were not removed.  With
    [maxSize = 1.5] the cache holds two entries. *)
Lemma zero_capacity_overflows :
  (SmartCache.size
     (SmartCache.run [SmartCache.OpSet 0 "a" (Some 1) None]
        (SmartCache.new (mkConfig (num 0) (num 1000) (num 60000) Lru))) = 1%nat /\
   ~ (Z.of_nat
        (SmartCache.size
           (SmartCache.run [SmartCache.OpSet 0 "a" (Some 1) None]
              (SmartCache.new (mkConfig (num 0) (num 1000) (num 60000) Lru))))
      <= 0)) /\
  (let c := SmartCache.run
              [SmartCache.OpSet 0 "a" (Some 1) (Some PosInf);
               SmartCache.OpSet 1 "b" (Some 2) (Some PosInf);
               SmartCache.OpSet 2 "c" (Some 3) (Some PosInf);
               SmartCache.OpSet 3 "d" (Some 4) (Some PosInf)]
              (SmartCache.new (mkConfig (num 2) (num 1000) (num 60000) Ttl)) in
   SmartCache.size c = 4%nat /\
   evictions (SmartCache.stats c) = 2%nat /\
   atCapacity c = true) /\
  (let c := SmartCache.run
              [SmartCache.OpSet 0 "a" (Some 1) None;
               SmartCache.OpSet 1 "b" (Some 2) None]
              (SmartCache.new
                 (mkConfig (Finite (3 # 2)) (num 1000) (num 60000) Lru)) in
   SmartCache.size c = 2%nat /\
   numGe (num (Z.of_nat (SmartCache.size c))) (Finite (3 # 2)) = true /\
   numGe (Finite (3 # 2)) (num (Z.of_nat (SmartCache.size c))) = false).
Proof.
  split; [split; [reflexivity | simpl; lia]|].
  split; cbv zeta; repeat split; vm_compute; reflexivity.
Qed.

(** ** Lazy expiry on [get] *)

Section GetFacts.
Context {T : Type}.
Implicit Types (c : SmartCache.t T).

Lemma getRepeatedly_absent key reads : forall c,
  JsMap.get key (SmartCache.cache c) = None ->
  fst (getRepeatedly key reads c) = repeat None (List.length reads) /\
  SmartCache.cache (snd (getRepeatedly key reads c)) = SmartCache.cache c /\
  evictions (SmartCache.stats (snd (getRepeatedly key reads c)))
  = evictions (SmartCache.stats c) /\
  misses (SmartCache.stats (snd (getRepeatedly key reads c)))
  = (misses (SmartCache.stats c) + List.length reads)%nat /\
  hits (SmartCache.stats (snd (getRepeatedly key reads c)))
  = hits (SmartCache.stats c).
Proof.
  induction reads as [|[now now'] reads IH]; intros c Hg; simpl.
  - repeat split; lia.
  - unfold SmartCache.get. rewrite Hg.
    match goal with
    | |- context [getRepeatedly key reads ?c1] =>
        specialize (IH c1 Hg); destruct (getRepeatedly key reads c1) as [rs c2]
    end.
    simpl in *. destruct IH as (-> & -> & -> & -> & ->).
    repeat split; lia.
Qed.
End GetFacts.

(** C3.  If the entry of [key] has expired when [get(key)] reads the clock,
    the call returns absent, removes the entry, and adds one to [misses] and
    one to [evictions]; any number of further [get(key)] calls return absent,
    add one miss each and leave [evictions] where the first call put it. *)
Theorem get_expired_evicts_once :
  forall (T : Type) (c : SmartCache.t T) key entry now now' reads,
    JsMap.distinct (SmartCache.cache c) ->
    JsMap.get key (SmartCache.cache c) = Some entry ->
    SmartCache.isExpired now entry = true ->
    let r := SmartCache.get now now' key c in
    let rs := getRepeatedly key reads (snd r) in
    fst r = None /\
    SmartCache.cache (snd r) = JsMap.delete key (SmartCache.cache c) /\
    JsMap.get key (SmartCache.cache (snd r)) = None /\
    misses (SmartCache.stats (snd r)) = S (misses (SmartCache.stats c)) /\
    evictions (SmartCache.stats (snd r)) = S (evictions (SmartCache.stats c)) /\
    hits (SmartCache.stats (snd r)) = hits (SmartCache.stats c) /\
    fst rs = repeat None (List.length reads) /\
    SmartCache.cache (snd rs) = SmartCache.cache (snd r) /\
    evictions (SmartCache.stats (snd rs)) = S (evictions (SmartCache.stats c)) /\
    misses (SmartCache.stats (snd rs))
    = (S (misses (SmartCache.stats c)) + List.length reads)%nat /\
    hits (SmartCache.stats (snd rs)) = hits (SmartCache.stats c).
Proof.
  intros T c key entry now now' reads Hd Hg Hexp r rs.
  assert (Hr : r = (None,
            SmartCache.updateHitRate
              (SmartCache.withStats
                 (SmartCache.bumpEvictions (SmartCache.bumpMisses (SmartCache.stats c)))
                 (SmartCache.withCache (JsMap.delete key (SmartCache.cache c)) c)))).
  { subst r. unfold SmartCache.get. rewrite Hg. rewrite Hexp. reflexivity. }
  assert (Hgone : JsMap.get key (SmartCache.cache (snd r)) = None).
  { rewrite Hr. simpl. now apply get_delete_same. }
  destruct (getRepeatedly_absent key reads (snd r) Hgone) as (E1 & E2 & E3 & E4 & E5).
  fold rs in E1, E2, E3, E4, E5.
  rewrite E1, E2, E3, E4, E5. rewrite Hr. simpl.
  repeat split; try reflexivity.
  rewrite <- Hgone, Hr. reflexivity.
Qed.

Lemma get_expired_evicts_once_example :
  let c := SmartCache.set 0 "x" (Some 7) (Some (num 10))
             (SmartCache.new (mkConfig (num 4) (num 1000) (num 60000) Lru)) in
  let r := SmartCache.get 11 11 "x" c in
  let rs := getRepeatedly "x" [(12, 12); (13, 13)] (snd r) in
  fst r = None /\
  evictions (SmartCache.stats c) = 0%nat /\
  evictions (SmartCache.stats (snd r)) = 1%nat /\
  fst rs = [None; None] /\
  evictions (SmartCache.stats (snd rs)) = 1%nat /\
  misses (SmartCache.stats (snd rs)) = 3%nat.
Proof.
  pose proof (get_expired_evicts_once Z
                (SmartCache.set 0 "x" (Some 7) (Some (num 10))
                   (SmartCache.new (mkConfig (num 4) (num 1000) (num 60000) Lru)))
                "x" (mkEntry (Some 7) 0 (num 10) 1 0) 11 11 [(12, 12); (13, 13)]) as H.
  simpl in H.
  destruct H as (H1 & _ & _ & _ & H5 & _ & H7 & _ & H9 & H10 & _).
  - repeat constructor. simpl. tauto.
  - reflexivity.
  - reflexivity.
  - simpl. repeat split; assumption.
Defined.

(** ** Lazy expiry on [has], and the [totalSize] statistic *)

Section HasFacts.
Context {T : Type}.
Implicit Types (c : SmartCache.t T).

Lemma get_expired_result now now' key c e :
  JsMap.get key (SmartCache.cache c) = Some e ->
  SmartCache.isExpired now e = true ->
  SmartCache.get now now' key c
  = (None,
     SmartCache.updateHitRate
       (SmartCache.withStats
          (SmartCache.bumpEvictions (SmartCache.bumpMisses (SmartCache.stats c)))
          (SmartCache.withCache (JsMap.delete key (SmartCache.cache c)) c))).
Proof.
  intros Hg Hexp. unfold SmartCache.get. rewrite Hg. rewrite Hexp. reflexivity.
Qed.

(** [has] drops an expired entry and touches no statistic. *)
Lemma has_expired_result now key c e :
  JsMap.get key (SmartCache.cache c) = Some e ->
  SmartCache.isExpired now e = true ->
  SmartCache.has now key c
  = (false, SmartCache.withCache (JsMap.delete key (SmartCache.cache c)) c).
Proof.
  intros Hg Hexp. unfold SmartCache.has. rewrite Hg. rewrite Hexp. reflexivity.
Qed.

Lemma get_totalSize now now' key c :
  totalSize (SmartCache.stats (snd (SmartCache.get now now' key c)))
  = totalSize (SmartCache.stats c).
Proof.
  unfold SmartCache.get.
  destruct (JsMap.get key (SmartCache.cache c)) as [e|];
    [destruct (SmartCache.isExpired now e)|]; reflexivity.
Qed.

Lemma has_stats now key c :
  SmartCache.stats (snd (SmartCache.has now key c)) = SmartCache.stats c.
Proof.
  unfold SmartCache.has.
  destruct (JsMap.get key (SmartCache.cache c)) as [e|];
    [destruct (SmartCache.isExpired now e)|]; reflexivity.
Qed.

Lemma delete_present_totalSize key c :
  JsMap.has key (SmartCache.cache c) = true ->
  totalSize (SmartCache.stats (snd (SmartCache.delete key c)))
  = SmartCache.size (snd (SmartCache.delete key c)).
Proof. intros Hh. unfold SmartCache.delete. now rewrite Hh. Qed.

Lemma delete_absent_same key c :
  JsMap.has key (SmartCache.cache c) = false ->
  SmartCache.delete key c = (false, c).
Proof.
  intros Hh. unfold SmartCache.delete, SmartCache.withCache.
  rewrite Hh, delete_absent by assumption. now destruct c.
Qed.

Lemma step_totalSize c (op : SmartCache.Op T) :
  (SmartCache.size c <= totalSize (SmartCache.stats c))%nat ->
  (SmartCache.size (SmartCache.step c op)
   <= totalSize (SmartCache.stats (SmartCache.step c op)))%nat.
Proof.
  intros Hle.
  destruct op as [now now' key|now key value ttl_|key|now key| |now].
  - pose proof (step_size_le c (SmartCache.OpGet now now' key)) as Hs.
    simpl in *. rewrite get_totalSize.
    etransitivity; [apply Hs; discriminate | exact Hle].
  - change (SmartCache.step c (SmartCache.OpSet now key value ttl_))
      with (SmartCache.set now key value ttl_ c).
    rewrite set_totalSize. lia.
  - simpl. destruct (JsMap.has key (SmartCache.cache c)) eqn:Hh.
    + now rewrite delete_present_totalSize.
    + now rewrite delete_absent_same.
  - pose proof (step_size_le c (SmartCache.OpHas now key)) as Hs.
    simpl in *. rewrite has_stats.
    etransitivity; [apply Hs; discriminate | exact Hle].
  - apply le_n.
  - apply le_n.
Qed.

(** [totalSize] never falls below the number of stored entries. *)
Lemma reachable_totalSize c :
  SmartCache.reachable c ->
  (SmartCache.size c <= totalSize (SmartCache.stats c))%nat.
Proof.
  induction 1 as [cfg|c op _ IH]; [apply le_n | now apply step_totalSize].
Qed.
End HasFacts.

(** C4, evaluated on the code.  An entry stored at time 0 with a ten
    millisecond time-to-live is expired at time 11.  [get] and [cleanup] each
    count its removal as one eviction.  [has] removes it and counts nothing,
    and since the entry is then gone neither a later [get] nor a later
    [cleanup] counts it: the entry is evicted zero times. *)
Theorem has_expired_entry_not_counted :
  let c := SmartCache.set 0 "x" (Some 7) (Some (num 10))
             (SmartCache.new (mkConfig (num 4) (num 1000) (num 60000) Lru)) in
  let viaHas := snd (SmartCache.has 11 "x" c) in
  evictions (SmartCache.stats (snd (SmartCache.get 11 11 "x" c))) = 1%nat /\
  evictions (SmartCache.stats (SmartCache.cleanup 11 c)) = 1%nat /\
  fst (SmartCache.has 11 "x" c) = false /\
  SmartCache.keys viaHas = [] /\
  evictions (SmartCache.stats viaHas) = 0%nat /\
  evictions (SmartCache.stats (snd (SmartCache.get 11 11 "x" viaHas))) = 0%nat /\
  evictions (SmartCache.stats (SmartCache.cleanup 11 viaHas)) = 0%nat.
Proof.
  cbv zeta. repeat split; reflexivity.
Qed.

(** C9.  In every state a cache can reach, [totalSize] is at least the number
    of stored entries.  When [get] or [has] removes an expired entry the
    statistic keeps its value while the map loses one entry, so afterwards
    [totalSize] exceeds [size()]; further [get], [has] and unsuccessful
    [delete] calls leave it too large.  [set], a successful [delete],
    [cleanup] and [clear] each end with [totalSize] equal to the size of the
    map. *)
Theorem lazy_expiry_leaves_totalSize_stale :
  forall (T : Type) (c : SmartCache.t T),
    SmartCache.reachable c ->
    (SmartCache.size c <= totalSize (SmartCache.getStats c))%nat /\
    (forall key e now now',
        JsMap.get key (SmartCache.cache c) = Some e ->
        SmartCache.isExpired now e = true ->
        let c1 := snd (SmartCache.get now now' key c) in
        totalSize (SmartCache.getStats c1) = totalSize (SmartCache.getStats c) /\
        S (SmartCache.size c1) = SmartCache.size c /\
        (SmartCache.size c1 < totalSize (SmartCache.getStats c1))%nat) /\
    (forall key e now,
        JsMap.get key (SmartCache.cache c) = Some e ->
        SmartCache.isExpired now e = true ->
        let c1 := snd (SmartCache.has now key c) in
        totalSize (SmartCache.getStats c1) = totalSize (SmartCache.getStats c) /\
        S (SmartCache.size c1) = SmartCache.size c /\
        (SmartCache.size c1 < totalSize (SmartCache.getStats c1))%nat) /\
    (forall op,
        (SmartCache.size c < totalSize (SmartCache.getStats c))%nat ->
        match op with
        | SmartCache.OpGet _ _ _ | SmartCache.OpHas _ _ => True
        | SmartCache.OpDelete key => JsMap.has key (SmartCache.cache c) = false
        | _ => False
        end ->
        (SmartCache.size (SmartCache.step c op)
         < totalSize (SmartCache.getStats (SmartCache.step c op)))%nat) /\
    (forall op,
        match op with
        | SmartCache.OpSet _ _ _ _ | SmartCache.OpClear | SmartCache.OpCleanup _ => True
        | SmartCache.OpDelete key => JsMap.has key (SmartCache.cache c) = true
        | _ => False
        end ->
        totalSize (SmartCache.getStats (SmartCache.step c op))
        = SmartCache.size (SmartCache.step c op)).
Proof.
  intros T c Hr. pose proof (reachable_totalSize c Hr) as Hinv.
  unfold SmartCache.getStats.
  assert (Hhas : forall key e, JsMap.get key (SmartCache.cache c) = Some e ->
                               JsMap.has key (SmartCache.cache c) = true).
  { intros key e Hg. unfold JsMap.has. now rewrite Hg. }
  split; [exact Hinv|]. split; [|split; [|split]].
  - intros key e now now' Hg Hexp. cbv zeta.
    rewrite (get_expired_result now now' key c e Hg Hexp). simpl.
    pose proof (size_delete key _ (Hhas key e Hg)) as Hs.
    unfold SmartCache.size in *. simpl. repeat split; lia.
  - intros key e now Hg Hexp. cbv zeta.
    rewrite (has_expired_result now key c e Hg Hexp). simpl.
    pose proof (size_delete key _ (Hhas key e Hg)) as Hs.
    unfold SmartCache.size in *. simpl. repeat split; lia.
  - intros op Hlt Hop.
    destruct op as [now now' key|now key value ttl_|key|now key| |now];
      try contradiction.
    + pose proof (step_size_le c (SmartCache.OpGet now now' key)) as Hs.
      simpl in *. rewrite get_totalSize.
      eapply Nat.le_lt_trans; [apply Hs; discriminate | exact Hlt].
    + simpl. now rewrite delete_absent_same.
    + pose proof (step_size_le c (SmartCache.OpHas now key)) as Hs.
      simpl in *. rewrite has_stats.
      eapply Nat.le_lt_trans; [apply Hs; discriminate | exact Hlt].
  - intros op Hop.
    destruct op as [now now' key|now key value ttl_|key|now key| |now];
      try contradiction; simpl.
    + apply set_totalSize.
    + now apply delete_present_totalSize.
    + reflexivity.
    + reflexivity.
Qed.

Lemma lazy_expiry_leaves_totalSize_stale_example :
  let c := SmartCache.step (SmartCache.new (mkConfig (num 4) (num 1000) (num 60000) Lru))
             (SmartCache.OpSet 0 "x" (Some 7) (Some (num 10))) in
  SmartCache.reachable c /\
  (SmartCache.size (snd (SmartCache.get 11 11 "x" c))
   < totalSize (SmartCache.getStats (snd (SmartCache.get 11 11 "x" c))))%nat /\
  (SmartCache.size (snd (SmartCache.has 11 "x" c))
   < totalSize (SmartCache.getStats (snd (SmartCache.has 11 "x" c))))%nat.
Proof.
  assert (Hr : SmartCache.reachable
                 (SmartCache.step (SmartCache.new (mkConfig (num 4) (num 1000) (num 60000) Lru))
                    (SmartCache.OpSet 0 "x" (Some 7) (Some (num 10))))).
  { apply SmartCache.reach_step, SmartCache.reach_new. }
  destruct (lazy_expiry_leaves_totalSize_stale Z _ Hr) as (_ & Hget & Hhas & _ & _).
  specialize (Hget "x" (mkEntry (Some 7) 0 (num 10) 1 0) 11 11 eq_refl eq_refl).
  specialize (Hhas "x" (mkEntry (Some 7) 0 (num 10) 1 0) 11 eq_refl eq_refl).
  cbv zeta in *. destruct Hget as (_ & _ & G3). destruct Hhas as (_ & _ & H3).
  split; [exact Hr|]. split; [exact G3 | exact H3].
Defined.

(** ** Read-through queries *)

Section QueryFacts.
Context {T L E : Type}.
Implicit Types (c : SmartCache.t T) (queryFn : L -> (E + option T) * L).

Lemma get_hit_result now now' key c e :
  JsMap.get key (SmartCache.cache c) = Some e ->
  SmartCache.isExpired now e = false ->
  SmartCache.get now now' key c
  = (data e,
     SmartCache.updateHitRate
       (SmartCache.withStats (SmartCache.bumpHits (SmartCache.stats c))
          (SmartCache.withCache
             (JsMap.set key
                (mkEntry (data e) (timestamp e) (ttl e) (S (accessCount e)) now')
                (SmartCache.cache c))
             c))).
Proof.
  intros Hg Hlive. unfold SmartCache.get. rewrite Hg. rewrite Hlive. reflexivity.
Qed.

Lemma get_config now now' key c :
  SmartCache.config (snd (SmartCache.get now now' key c)) = SmartCache.config c.
Proof. apply (step_config c (SmartCache.OpGet now now' key)). Qed.

Lemma get_sets now now' key c :
  sets (SmartCache.stats (snd (SmartCache.get now now' key c)))
  = sets (SmartCache.stats c).
Proof.
  unfold SmartCache.get.
  destruct (JsMap.get key (SmartCache.cache c)) as [e|];
    [destruct (SmartCache.isExpired now e)|]; reflexivity.
Qed.

Lemma keys_delete_incl (key : string) (m : JsMap.t (CacheEntry T)) :
  incl (JsMap.keys (JsMap.delete key m)) (JsMap.keys m).
Proof.
  destruct (JsMap.has key m) eqn:Hh.
  - destruct (delete_split key m Hh) as (pre & v & post & Em & Ed & _).
    rewrite Ed, Em. unfold JsMap.keys. rewrite !map_app. simpl.
    intros k Hin. apply in_app_or in Hin. apply in_or_app.
    destruct Hin; [left | right; right]; assumption.
  - rewrite delete_absent by assumption. apply incl_refl.
Qed.

Lemma get_keys_incl now now' key c :
  incl (SmartCache.keys (snd (SmartCache.get now now' key c))) (SmartCache.keys c).
Proof.
  unfold SmartCache.get, SmartCache.keys.
  destruct (JsMap.get key (SmartCache.cache c)) as [e|] eqn:Hg;
    [destruct (SmartCache.isExpired now e)|]; simpl.
  - apply keys_delete_incl.
  - rewrite set_present_keys; [apply incl_refl|].
    unfold JsMap.has. now rewrite Hg.
  - apply incl_refl.
Qed.

Lemma getWithCache_hit now now' now'' key c queryFn l ttl_ v :
  fst (SmartCache.get now now' key c) = Some v ->
  CachedQuery.getWithCache now now' now'' key c queryFn l ttl_
  = (inr (Some v), snd (SmartCache.get now now' key c), l).
Proof.
  intros Hv. unfold CachedQuery.getWithCache.
  destruct (SmartCache.get now now' key c) as [cached c1]. simpl in Hv.
  now subst cached.
Qed.

Lemma getWithCache_miss now now' now'' key c queryFn l ttl_ :
  fst (SmartCache.get now now' key c) = None ->
  CachedQuery.getWithCache now now' now'' key c queryFn l ttl_
  = match fst (queryFn l) with
    | inl err => (inl err, snd (SmartCache.get now now' key c), snd (queryFn l))
    | inr result =>
        (inr result,
         SmartCache.set now'' key result ttl_ (snd (SmartCache.get now now' key c)),
         snd (queryFn l))
    end.
Proof.
  intros Hv. unfold CachedQuery.getWithCache.
  destruct (SmartCache.get now now' key c) as [cached c1]. simpl in Hv.
  subst cached. destruct (queryFn l) as [[err|result] l']; reflexivity.
Qed.

Lemma get_after_set now key value ttl_ c :
  JsMap.get key (SmartCache.cache (SmartCache.set now key value ttl_ c))
  = Some (freshEntry now value ttl_ c).
Proof.
  unfold SmartCache.set, freshEntry. simpl. now rewrite get_set_same.
Qed.
End QueryFacts.

(** C5, as amended.  [getWithCache] returns the cached value and leaves the
    loader untouched when the key is present, unexpired and holds a value
    other than null.  When [get] reports a miss and the loader resolves, the
    loader has run once, its result is returned and is stored under the key
    with the given ttl, or with the default of the cache when no ttl or the
    ttl 0 is given.  If that result is not null, a second call that reads the
    clock within the stored ttl returns the same value and leaves the loader
    as the first call left it. *)
Theorem getWithCache_reads_through :
  forall (T L E : Type) (c : SmartCache.t T)
         (queryFn : L -> (E + option T) * L) (l : L)
         key ttl_ now now' now'',
    (forall e v,
        JsMap.get key (SmartCache.cache c) = Some e ->
        SmartCache.isExpired now e = false ->
        data e = Some v ->
        CachedQuery.getWithCache now now' now'' key c queryFn l ttl_
        = (inr (Some v), snd (SmartCache.get now now' key c), l))
    /\
    (forall result l',
        fst (SmartCache.get now now' key c) = None ->
        queryFn l = (inr result, l') ->
        let stored :=
          SmartCache.set now'' key result ttl_ (snd (SmartCache.get now now' key c)) in
        CachedQuery.getWithCache now now' now'' key c queryFn l ttl_
        = (inr result, stored, l') /\
        JsMap.get key (SmartCache.cache stored)
        = Some (mkEntry result now''
                  (orDefault ttl_ (defaultTtl (SmartCache.config c))) 1 now'') /\
        forall v t t' t'' ttl2,
          result = Some v ->
          numGt (num (t - now''))
                (orDefault ttl_ (defaultTtl (SmartCache.config c))) = false ->
          fst (CachedQuery.getWithCache t t' t'' key stored queryFn l' ttl2)
          = (inr (Some v), snd (SmartCache.get t t' key stored)) /\
          snd (CachedQuery.getWithCache t t' t'' key stored queryFn l' ttl2) = l').
Proof.
  intros T L E c queryFn l key ttl_ now now' now''. split.
  - intros e v Hg Hlive Hv. apply getWithCache_hit.
    rewrite (get_hit_result now now' key c e Hg Hlive). exact Hv.
  - intros result l' Hmiss Hq. cbv zeta.
    assert (Hstored :
      JsMap.get key
        (SmartCache.cache
           (SmartCache.set now'' key result ttl_
              (snd (SmartCache.get now now' key c))))
      = Some (mkEntry result now''
                (orDefault ttl_ (defaultTtl (SmartCache.config c))) 1 now'')).
    { rewrite get_after_set. unfold freshEntry. now rewrite get_config. }
    split; [|split].
    + rewrite getWithCache_miss by assumption. now rewrite Hq.
    + exact Hstored.
    + intros v t t' t'' ttl2 -> Hlive.
      rewrite getWithCache_hit with (v := v); [split; reflexivity|].
      rewrite (get_hit_result t t' key _ _ Hstored); [reflexivity | exact Hlive].
Qed.

(** Scenario C: a cold cache, a loader that resolves to 42. *)
Lemma getWithCache_cold_then_warm :
  let loader := countingLoader (Some 42) in
  let cold := SmartCache.new (mkConfig (num 500) (num 600000) (num 60000) Lfu) in
  let stored :=
    SmartCache.set 1 "p1" (Some 42) None (snd (SmartCache.get 0 0 "p1" cold)) in
  CachedQuery.getWithCache 0 0 1 "p1" cold loader 0%nat None
  = (inr (Some 42), stored, 1%nat) /\
  fst (CachedQuery.getWithCache 5 5 6 "p1" stored loader 1%nat None)
  = (inr (Some 42), snd (SmartCache.get 5 5 "p1" stored)) /\
  snd (CachedQuery.getWithCache 5 5 6 "p1" stored loader 1%nat None) = 1%nat.
Proof.
  cbv zeta.
  destruct (getWithCache_reads_through Z nat string
              (SmartCache.new (mkConfig (num 500) (num 600000) (num 60000) Lfu))
              (countingLoader (Some 42)) 0%nat "p1" None 0 0 1) as [_ Hmiss].
  destruct (Hmiss (Some 42) 1%nat eq_refl eq_refl) as (H1 & _ & H2).
  split; [exact H1|].
  apply (H2 42 5 5 6 None eq_refl). reflexivity.
Defined.

(** A stored null under [p1], read one millisecond later: the key is present
    and unexpired, yet the loader runs and its result, not the cached null,
    is returned. *)
Lemma getWithCache_null_entry_runs_loader :
  let c := SmartCache.set 0 "p1" (@None Z) None
             (SmartCache.new (mkConfig (num 500) (num 600000) (num 60000) Lfu)) in
  let r := CachedQuery.getWithCache 1 1 1 "p1" c (countingLoader (Some 42)) 0%nat None in
  SmartCache.keys c = ["p1"] /\
  fst (SmartCache.has 1 "p1" c) = true /\
  fst (fst r) = inr (Some 42) /\
  snd r = 1%nat /\
  r <> (inr None, snd (SmartCache.get 1 1 "p1" c), 0%nat).
Proof.
  cbv zeta. repeat split; try reflexivity. vm_compute. discriminate.
Qed.

(** C6.  When [get] reports a miss and the loader rejects, [getWithCache]
    rejects with the same error and the cache is the one [get] left: no
    [set] is recorded and no key is added. *)
Theorem getWithCache_propagates_rejection :
  forall (T L E : Type) (c : SmartCache.t T)
         (queryFn : L -> (E + option T) * L) (l l' : L) (err : E)
         key ttl_ now now' now'',
    fst (SmartCache.get now now' key c) = None ->
    queryFn l = (inl err, l') ->
    let afterMiss := snd (SmartCache.get now now' key c) in
    let r := CachedQuery.getWithCache now now' now'' key c queryFn l ttl_ in
    r = (inl err, afterMiss, l') /\
    SmartCache.cache (snd (fst r)) = SmartCache.cache afterMiss /\
    sets (SmartCache.stats (snd (fst r))) = sets (SmartCache.stats c) /\
    incl (SmartCache.keys (snd (fst r))) (SmartCache.keys c).
Proof.
  intros T L E c queryFn l l' err key ttl_ now now' now'' Hmiss Hq. cbv zeta.
  rewrite getWithCache_miss by assumption. rewrite Hq. simpl.
  split; [reflexivity|]. split; [reflexivity|]. split.
  - apply get_sets.
  - apply get_keys_incl.
Qed.

Lemma getWithCache_propagates_rejection_example :
  let c := SmartCache.set 0 "p2" (Some 5) None
             (SmartCache.new (mkConfig (num 500) (num 600000) (num 60000) Lfu)) in
  let r := CachedQuery.getWithCache 1 1 2 "p1" c (failingLoader "unreachable")
             0%nat None in
  fst (fst r) = inl "unreachable" /\
  SmartCache.keys (snd (fst r)) = ["p2"] /\
  sets (SmartCache.stats (snd (fst r))) = 1%nat.
Proof.
  cbv zeta.
  destruct (getWithCache_propagates_rejection Z nat string
              (SmartCache.set 0 "p2" (Some 5) None
                 (SmartCache.new (mkConfig (num 500) (num 600000) (num 60000) Lfu)))
              (failingLoader "unreachable") 0%nat 1%nat "unreachable"
              "p1" None 1 1 2 eq_refl eq_refl) as (Hr & _ & Hs & _).
  cbv zeta in Hr, Hs. rewrite Hr. simpl fst. simpl snd.
  repeat split.
Defined.

(** C10.  When the entry of [key] is present, unexpired and holds null,
    [get(key)] returns null, which is also what it returns for a key that is
    not stored, and so [getWithCache] runs the loader and returns the
    loader's outcome.  [set(key, null)] puts the cache in that state for as
    long as the stored entry has not expired. *)
Theorem stored_null_is_read_as_miss :
  forall (T L E : Type) (c : SmartCache.t T)
         (queryFn : L -> (E + option T) * L) (l : L)
         key t0 ttl0 ttl_ now now' now'',
    let c1 := SmartCache.set t0 key None ttl0 c in
    numGt (num (now - t0))
          (orDefault ttl0 (defaultTtl (SmartCache.config c))) = false ->
    (exists e, JsMap.get key (SmartCache.cache c1) = Some e /\
               data e = None /\ SmartCache.isExpired now e = false) /\
    fst (SmartCache.get now now' key c1) = None /\
    (forall c0 : SmartCache.t T,
        JsMap.get key (SmartCache.cache c0) = None ->
        fst (SmartCache.get now now' key c0) = None) /\
    fst (fst (CachedQuery.getWithCache now now' now'' key c1 queryFn l ttl_))
    = fst (queryFn l) /\
    snd (CachedQuery.getWithCache now now' now'' key c1 queryFn l ttl_)
    = snd (queryFn l).
Proof.
  intros T L E c queryFn l key t0 ttl0 ttl_ now now' now'' c1 Hlive.
  pose proof (get_after_set t0 key None ttl0 c) as Hg. fold c1 in Hg.
  assert (Hnull : fst (SmartCache.get now now' key c1) = None).
  { rewrite (get_hit_result now now' key c1 _ Hg); [reflexivity | exact Hlive]. }
  split; [|split; [exact Hnull|split]].
  - eexists. split; [exact Hg|]. split; [reflexivity|].
    exact Hlive.
  - intros c0 H0. unfold SmartCache.get. now rewrite H0.
  - rewrite getWithCache_miss by assumption.
    destruct (queryFn l) as [[err|result] l']; split; reflexivity.
Qed.

Lemma stored_null_is_read_as_miss_example :
  let c1 := SmartCache.set 0 "p1" (@None Z) None
              (SmartCache.new (mkConfig (num 500) (num 600000) (num 60000) Lfu)) in
  let r1 := CachedQuery.getWithCache 1 1 2 "p1" c1 (countingLoader None) 0%nat None in
  fst (SmartCache.get 1 1 "p1" c1) = None /\
  fst (fst r1) = inr None /\ snd r1 = 1%nat.
Proof.
  cbv zeta.
  destruct (stored_null_is_read_as_miss Z nat string
              (SmartCache.new (mkConfig (num 500) (num 600000) (num 60000) Lfu))
              (countingLoader None) 0%nat "p1" 0 None None 1 1 2
              eq_refl) as (_ & Hn & _ & Hr & Hl).
  rewrite Hn, Hr, Hl. repeat split.
Defined.

(** ** Invalidation by pattern *)

Section SubstringFacts.
Lemma prefix_spec (p s : string) :
  String.prefix p s = true <-> exists post : string, s = (p ++ post)%string.
Proof.
  revert s. induction p as [|a p IH]; intros s; simpl.
  - split; [intros _; now exists s | intros _; now destruct s].
  - destruct s as [|b s]; [split; [discriminate | intros [post E]; discriminate]|].
    simpl. destruct (Ascii.ascii_dec a b) as [->|Hne].
    + rewrite IH. split; intros [post E]; exists post; [now rewrite E | now inversion E].
    + split; [discriminate | intros [post E]; congruence].
Qed.

Lemma includes_unfold (s pattern : string) :
  includes s pattern
  = String.prefix pattern s
    || match s with
       | EmptyString => false
       | String _ s' => includes s' pattern
       end.
Proof. destruct s; reflexivity. Qed.

(** [includes] decides literal containment. *)
Lemma includes_spec (s pattern : string) :
  includes s pattern = true <-> isSubstring pattern s.
Proof.
  unfold isSubstring. split.
  - induction s as [|a s IH]; rewrite includes_unfold, orb_true_iff;
      intros [Hp|Hr]; try discriminate.
    + apply prefix_spec in Hp. destruct Hp as [post E]. now exists EmptyString, post.
    + apply prefix_spec in Hp. destruct Hp as [post E]. now exists EmptyString, post.
    + destruct (IH Hr) as (pre & post & E).
      exists (String a pre), post. simpl. now rewrite E.
  - intros (pre & post & E). revert s E.
    induction pre as [|a pre IH]; intros s E; rewrite includes_unfold, orb_true_iff.
    + left. apply prefix_spec. now exists post.
    + right. simpl in E. subst s. now apply IH.
Qed.
End SubstringFacts.

Section InvalidateFacts.
Context {T : Type}.
Implicit Types (c : SmartCache.t T) (m : JsMap.t (CacheEntry T)).

Lemma delete_cache key c :
  SmartCache.cache (snd (SmartCache.delete key c))
  = JsMap.delete key (SmartCache.cache c).
Proof.
  unfold SmartCache.delete. now destruct (JsMap.has key (SmartCache.cache c)).
Qed.

Lemma filter_filter {A : Type} (f g : A -> bool) (l : list A) :
  filter f (filter g l) = filter (fun x => g x && f x) l.
Proof.
  induction l as [|x l IH]; simpl; [reflexivity|].
  destruct (g x); simpl; [destruct (f x)|]; now rewrite IH.
Qed.

Lemma invalidate_fold pattern ks : forall n c,
  JsMap.distinct (SmartCache.cache c) ->
  SmartCache.cache (snd (fold_left (CachedQuery.invalidateStep pattern) ks (n, c)))
  = filter (fun kv => negb (includes (fst kv) pattern
                            && existsb (String.eqb (fst kv)) ks))
      (SmartCache.cache c) /\
  fst (fold_left (CachedQuery.invalidateStep pattern) ks (n, c))
  = (n + List.length (filter (fun k => includes k pattern) ks))%nat.
Proof.
  induction ks as [|k ks IH]; intros n c Hd.
  - simpl. split; [|lia]. symmetry. apply forallb_filter_id.
    apply forallb_forall. intros x _. now rewrite andb_false_r.
  - cbn [fold_left]. unfold CachedQuery.invalidateStep at 2 4. cbn [fst snd].
    destruct (includes k pattern) eqn:Hk.
    + destruct (IH (S n) (snd (SmartCache.delete k c))) as [Ec En].
      { rewrite delete_cache. now apply distinct_delete. }
      rewrite Ec, En. cbn [filter]. rewrite Hk. cbn [List.length].
      split; [|lia].
      rewrite delete_cache, delete_filter by assumption. rewrite filter_filter.
      apply filter_ext. intros [k' e]. cbn [fst existsb].
      rewrite (String.eqb_sym k' k).
      destruct (String.eqb_spec k k') as [<-|Hne]; [now rewrite Hk | reflexivity].
    + destruct (IH n c Hd) as [Ec En].
      rewrite Ec, En. cbn [filter]. rewrite Hk. split; [|reflexivity].
      apply filter_ext. intros [k' e]. cbn [fst existsb].
      destruct (String.eqb_spec k' k) as [->|Hne]; [now rewrite Hk | reflexivity].
Qed.

Lemma filter_split_length {A : Type} (f : A -> bool) (l : list A) :
  (List.length (filter f l) + List.length (filter (fun x => negb (f x)) l)
   = List.length l)%nat.
Proof.
  induction l as [|x l IH]; simpl; [reflexivity|].
  destruct (f x); simpl; lia.
Qed.

Lemma filter_keys (f : string -> bool) m :
  filter f (JsMap.keys m) = JsMap.keys (filter (fun kv => f (fst kv)) m).
Proof.
  unfold JsMap.keys. induction m as [|[k e] m IH]; simpl; [reflexivity|].
  destruct (f k); simpl; now rewrite IH.
Qed.
End InvalidateFacts.

(** C7.  [invalidatePattern] removes from the cache exactly the stored keys
    that contain the pattern as a literal substring, keeps every other entry
    as it was and in the same order, and returns the number of keys it
    removed. *)
Theorem invalidatePattern_removes_matching_keys :
  forall (T : Type) (c : SmartCache.t T) (pattern : string),
    JsMap.distinct (SmartCache.cache c) ->
    let r := CachedQuery.invalidatePattern c pattern in
    SmartCache.cache (snd r)
    = filter (fun kv => negb (includes (fst kv) pattern)) (SmartCache.cache c) /\
    (forall k, In k (SmartCache.keys (snd r)) <->
               In k (SmartCache.keys c) /\ ~ isSubstring pattern k) /\
    fst r = List.length (filter (fun k => includes k pattern) (SmartCache.keys c)) /\
    (SmartCache.size (snd r) + fst r = SmartCache.size c)%nat.
Proof.
  intros T c pattern Hd r.
  destruct (invalidate_fold pattern (SmartCache.keys c) 0%nat c Hd) as [Ec En].
  fold (CachedQuery.invalidatePattern c pattern) in Ec, En. fold r in Ec, En.
  assert (Ec' : SmartCache.cache (snd r)
                = filter (fun kv => negb (includes (fst kv) pattern))
                    (SmartCache.cache c)).
  { rewrite Ec. apply filter_ext_in. intros [k e] Hin. cbn [fst].
    assert (Hex : existsb (String.eqb k) (SmartCache.keys c) = true).
    { apply existsb_exists. exists k. split; [|apply String.eqb_refl].
      change k with (fst (k, e)). now apply in_map. }
    now rewrite Hex, andb_true_r. }
  split; [exact Ec'|]. split; [|split].
  - intros k. unfold SmartCache.keys. rewrite Ec'.
    rewrite <- (filter_keys (fun k => negb (includes k pattern))).
    rewrite filter_In, negb_true_iff, <- includes_spec.
    destruct (includes k pattern); intuition congruence.
  - rewrite En. reflexivity.
  - rewrite En. unfold SmartCache.size, JsMap.size. rewrite Ec'.
    unfold SmartCache.keys. rewrite filter_keys. unfold JsMap.keys.
    rewrite length_map. cbn [Nat.add].
    rewrite Nat.add_comm.
    apply (filter_split_length (fun kv => includes (fst kv) pattern)).
Qed.

(** Scenario D. *)
Lemma invalidatePattern_product_keys :
  let c := SmartCache.set 2 "customer:9" (Some 3) None
             (SmartCache.set 1 "product:2" (Some 2) None
                (SmartCache.set 0 "product:1" (Some 1) None
                   (SmartCache.new (mkConfig (num 100) (num 900000) (num 60000) Lfu)))) in
  let r := CachedQuery.invalidatePattern c "product" in
  SmartCache.keys c = ["product:1"; "product:2"; "customer:9"] /\
  SmartCache.keys (snd r) = ["customer:9"] /\
  fst r = 2%nat.
Proof.
  cbv zeta.
  destruct (invalidatePattern_removes_matching_keys Z
              (SmartCache.set 2 "customer:9" (Some 3) None
                 (SmartCache.set 1 "product:2" (Some 2) None
                    (SmartCache.set 0 "product:1" (Some 1) None
                       (SmartCache.new (mkConfig (num 100) (num 900000) (num 60000) Lfu)))))
              "product") as (Hc & _ & Hn & _).
  - repeat constructor; simpl; intuition discriminate.
  - cbv zeta in Hc, Hn. unfold SmartCache.keys. rewrite Hc, Hn.
    repeat split.
Defined.

(** ** The registry *)

Section ManagerFacts.
Context {T : Type}.
Implicit Types (m : CacheManager.t T) (h : list (SmartCache.t T)).

Lemma updateAt_configs a (f : SmartCache.t T -> SmartCache.t T) h :
  (forall c, SmartCache.config (f c) = SmartCache.config c) ->
  map SmartCache.config (CacheManager.updateAt a f h) = map SmartCache.config h.
Proof.
  intros Hf. revert a. induction h as [|c h IH]; intros a; [now destruct a|].
  destruct a as [|a]; simpl; [now rewrite Hf | now rewrite IH].
Qed.

Lemma getCache_registered name config m a :
  JsMap.get name (CacheManager.caches m) = Some a ->
  CacheManager.getCache name config m = (a, m).
Proof.
  intros Hg. unfold CacheManager.getCache, JsMap.has. rewrite Hg. simpl.
  now rewrite Hg.
Qed.

Lemma getCache_fresh name config m :
  JsMap.get name (CacheManager.caches m) = None ->
  CacheManager.getCache name config m
  = (List.length (CacheManager.heap m),
     CacheManager.mk
       (JsMap.set name (List.length (CacheManager.heap m)) (CacheManager.caches m))
       (CacheManager.heap m
        ++ [SmartCache.new
              (CacheManager.mergeConfig CacheManager.defaultConfig config)])).
Proof.
  intros Hg. unfold CacheManager.getCache, JsMap.has. rewrite Hg. simpl.
  now rewrite get_set_same.
Qed.

(** After [getCache(name)] the name is registered at the returned address,
    and the address holds a cache. *)
Lemma getCache_registers name config m :
  CacheManager.wellFormed m ->
  let r := CacheManager.getCache name config m in
  JsMap.get name (CacheManager.caches (snd r)) = Some (fst r) /\
  exists cfg, nth_error (CacheManager.configs (snd r)) (fst r) = Some cfg.
Proof.
  intros Hwf. cbv zeta.
  destruct (JsMap.get name (CacheManager.caches m)) as [a|] eqn:Hg.
  - rewrite (getCache_registered name config m a Hg). simpl.
    split; [exact Hg|]. specialize (Hwf name a Hg).
    unfold CacheManager.configs. destruct (nth_error (CacheManager.heap m) a) as [c|] eqn:Hn.
    + exists (SmartCache.config c). now apply map_nth_error.
    + apply nth_error_None in Hn. lia.
  - rewrite (getCache_fresh name config m Hg). simpl. split.
    + apply get_set_same.
    + eexists. unfold CacheManager.configs. simpl. rewrite map_app.
      rewrite nth_error_app2; rewrite length_map; [|lia].
      rewrite Nat.sub_diag. reflexivity.
Qed.

Lemma clearAll_fold (l : JsMap.t nat) : forall m,
  let m' := fold_left
              (fun acc na => CacheManager.onCache (snd na) SmartCache.clear acc)
              l m in
  CacheManager.caches m' = CacheManager.caches m /\ CacheManager.configs m' = CacheManager.configs m.
Proof.
  induction l as [|na l IH]; intros m; simpl; [split; reflexivity|].
  destruct (IH (CacheManager.onCache (snd na) SmartCache.clear m)) as [Ec Eh].
  rewrite Ec, Eh. split; [reflexivity|].
  unfold CacheManager.configs. simpl. now apply updateAt_configs.
Qed.

(** No action other than [destroyCache(name)] moves [name] to another
    address or changes the configuration stored at its address. *)
Lemma act_keeps_instance name a cfg m (x : CacheManager.Action T) :
  CacheManager.destroys name x = false ->
  JsMap.get name (CacheManager.caches m) = Some a ->
  nth_error (CacheManager.configs m) a = Some cfg ->
  JsMap.get name (CacheManager.caches (CacheManager.act m x)) = Some a /\
  nth_error (CacheManager.configs (CacheManager.act m x)) a = Some cfg.
Proof.
  intros Hx Hg Hc.
  destruct x as [n config|n| |a' op]; cbn [CacheManager.act].
  - destruct (JsMap.get n (CacheManager.caches m)) as [b|] eqn:Hn.
    + rewrite (getCache_registered n config m b Hn). simpl. now split.
    + rewrite (getCache_fresh n config m Hn). simpl. split.
      * rewrite get_set_other; [exact Hg | congruence].
      * unfold CacheManager.configs in *. simpl. rewrite map_app.
        rewrite nth_error_app1; [exact Hc|].
        apply nth_error_Some. congruence.
  - simpl in Hx. apply String.eqb_neq in Hx.
    unfold CacheManager.destroyCache.
    destruct (JsMap.get n (CacheManager.caches m)) as [b|]; simpl; [|now split].
    split.
    + rewrite get_delete_other; [exact Hg | exact Hx].
    + unfold CacheManager.configs in *. simpl. rewrite updateAt_configs; [exact Hc|].
      reflexivity.
  - unfold CacheManager.clearAll.
    destruct (clearAll_fold (CacheManager.caches m) m) as [Ec Eh].
    cbv zeta in Ec, Eh. rewrite Ec, Eh. now split.
  - simpl. split; [exact Hg|].
    unfold CacheManager.configs in *. simpl. rewrite updateAt_configs; [exact Hc|].
    intros c. apply step_config.
Qed.

Lemma acts_keep_instance name a cfg (between : list (CacheManager.Action T)) :
  forall m,
    forallb (fun x => negb (CacheManager.destroys name x)) between = true ->
    JsMap.get name (CacheManager.caches m) = Some a ->
    nth_error (CacheManager.configs m) a = Some cfg ->
    JsMap.get name (CacheManager.caches (fold_left CacheManager.act between m))
    = Some a /\
    nth_error (CacheManager.configs (fold_left CacheManager.act between m)) a = Some cfg.
Proof.
  induction between as [|x between IH]; intros m Hall Hg Hc; simpl; [now split|].
  simpl in Hall. apply andb_true_iff in Hall. destruct Hall as [Hx Hall].
  apply negb_true_iff in Hx.
  destruct (act_keeps_instance name a cfg m x Hx Hg Hc) as [Hg' Hc'].
  now apply IH.
Qed.
End ManagerFacts.

(** C8.  Between two calls of [getCache(name)] with no [destroyCache(name)]
    in between, whatever else is done with the registry and with the caches
    it hands out, the second call returns the address the first returned,
    changes nothing, and the configuration of the cache at that address is
    the one it had after the first call, whatever configuration the second
    call supplies. *)
Theorem getCache_returns_same_instance :
  forall (T : Type) (m : CacheManager.t T) (name : string)
         (config1 config2 : option PartialConfig)
         (between : list (CacheManager.Action T)),
    CacheManager.wellFormed m ->
    forallb (fun x => negb (CacheManager.destroys name x)) between = true ->
    let first := CacheManager.getCache name config1 m in
    let m2 := fold_left CacheManager.act between (snd first) in
    let second := CacheManager.getCache name config2 m2 in
    fst second = fst first /\
    snd second = m2 /\
    JsMap.get name (CacheManager.caches (snd second)) = Some (fst first) /\
    exists c1 c2,
      CacheManager.deref (fst first) (snd first) = Some c1 /\
      CacheManager.deref (fst second) (snd second) = Some c2 /\
      SmartCache.config c2 = SmartCache.config c1.
Proof.
  intros T m name config1 config2 between Hwf Hall first m2 second.
  destruct (getCache_registers name config1 m Hwf) as [Hg [cfg Hc]].
  fold first in Hg, Hc.
  destruct (acts_keep_instance name (fst first) cfg between (snd first) Hall Hg Hc)
    as [Hg2 Hc2].
  fold m2 in Hg2, Hc2.
  assert (Hs : second = (fst first, m2)).
  { subst second. now apply getCache_registered. }
  rewrite Hs. cbn [fst snd]. split; [reflexivity|]. split; [reflexivity|].
  split; [exact Hg2|].
  unfold CacheManager.configs in Hc, Hc2. unfold CacheManager.deref.
  rewrite nth_error_map in Hc, Hc2.
  destruct (nth_error (CacheManager.heap (snd first)) (fst first)) as [c1|];
    [|discriminate].
  destruct (nth_error (CacheManager.heap m2) (fst first)) as [c2|];
    [|discriminate].
  simpl in Hc, Hc2. exists c1, c2. repeat split; congruence.
Qed.

Lemma getCache_twice_products :
  let first :=
    CacheManager.getCache (T := Z) "products"
      (Some (mkPartial (Some (num 500)) (Some (num 600000)) None (Some Lfu)))
      CacheManager.empty in
  let second :=
    CacheManager.getCache "products"
      (Some (mkPartial (Some (num 7)) None None (Some Lru))) (snd first) in
  fst second = fst first /\ snd second = snd first.
Proof.
  cbv zeta.
  destruct (getCache_returns_same_instance Z CacheManager.empty "products"
              (Some (mkPartial (Some (num 500)) (Some (num 600000)) None (Some Lfu)))
              (Some (mkPartial (Some (num 7)) None None (Some Lru))) [])
    as (H1 & H2 & _).
  - intros name a Hg. discriminate.
  - reflexivity.
  - cbv zeta in H1, H2. simpl fold_left in H1, H2. split; [exact H1 | exact H2].
Defined.

(** * Further properties of [cache.ts] *)

(** ** Storing, reading back and deleting *)

Section StoreFacts.
Context {T : Type}.
Implicit Types (c : SmartCache.t T).

Lemma evictEntry_counters c :
  hits (SmartCache.stats (SmartCache.evictEntry c)) = hits (SmartCache.stats c) /\
  misses (SmartCache.stats (SmartCache.evictEntry c)) = misses (SmartCache.stats c) /\
  sets (SmartCache.stats (SmartCache.evictEntry c)) = sets (SmartCache.stats c) /\
  deletes (SmartCache.stats (SmartCache.evictEntry c)) = deletes (SmartCache.stats c) /\
  hitRate (SmartCache.stats (SmartCache.evictEntry c)) = hitRate (SmartCache.stats c).
Proof.
  unfold SmartCache.evictEntry.
  destruct (JsMap.size (SmartCache.cache c) =? 0)%nat; simpl; repeat split.
Qed.

(** [set] counts one set and leaves hits, misses, deletes and the rate. *)
Lemma set_counters now key value ttl_ c :
  hits (SmartCache.stats (SmartCache.set now key value ttl_ c))
  = hits (SmartCache.stats c) /\
  misses (SmartCache.stats (SmartCache.set now key value ttl_ c))
  = misses (SmartCache.stats c) /\
  sets (SmartCache.stats (SmartCache.set now key value ttl_ c))
  = S (sets (SmartCache.stats c)) /\
  deletes (SmartCache.stats (SmartCache.set now key value ttl_ c))
  = deletes (SmartCache.stats c) /\
  hitRate (SmartCache.stats (SmartCache.set now key value ttl_ c))
  = hitRate (SmartCache.stats c).
Proof.
  unfold SmartCache.set. simpl.
  destruct (_ && _); [|repeat split].
  destruct (evictEntry_counters c) as (-> & -> & -> & -> & ->). repeat split.
Qed.

Lemma has_live_result now key c e :
  JsMap.get key (SmartCache.cache c) = Some e ->
  SmartCache.isExpired now e = false ->
  SmartCache.has now key c = (true, c).
Proof.
  intros Hg Hlive. unfold SmartCache.has. rewrite Hg. now rewrite Hlive.
Qed.
End StoreFacts.

(** X1.  A value stored by [set] is what [get] returns for the key, and
    [has] answers true, for as long as the clock reading of the lookup is
    within the time-to-live of the stored entry; the lookup counts one hit,
    bumps the access count to two and records the time of the access. *)
Theorem set_then_get_returns_value :
  forall (T : Type) (c : SmartCache.t T) now key value ttl_ t t',
    numGt (num (t - now))
          (orDefault ttl_ (defaultTtl (SmartCache.config c))) = false ->
    let c1 := SmartCache.set now key value ttl_ c in
    fst (SmartCache.get t t' key c1) = value /\
    fst (SmartCache.has t key c1) = true /\
    hits (SmartCache.stats (snd (SmartCache.get t t' key c1)))
    = S (hits (SmartCache.stats c)) /\
    JsMap.get key (SmartCache.cache (snd (SmartCache.get t t' key c1)))
    = Some (mkEntry value now
              (orDefault ttl_ (defaultTtl (SmartCache.config c))) 2 t').
Proof.
  intros T c now key value ttl_ t t' Hlive c1.
  pose proof (get_after_set now key value ttl_ c) as Hg. fold c1 in Hg.
  rewrite (get_hit_result t t' key c1 _ Hg Hlive).
  rewrite (has_live_result t key c1 _ Hg Hlive). cbn [fst snd].
  split; [reflexivity|]. split; [reflexivity|]. split.
  - simpl. f_equal. exact (proj1 (set_counters now key value ttl_ c)).
  - simpl. now rewrite get_set_same.
Qed.

Lemma set_then_get_returns_value_example :
  fst (SmartCache.get 10 10 "k"
         (SmartCache.set 0 "k" (Some 5) (Some (num 10))
            (SmartCache.new (mkConfig (num 3) (num 1000) (num 60000) Lru)))) = Some 5.
Proof.
  apply (set_then_get_returns_value Z
           (SmartCache.new (mkConfig (num 3) (num 1000) (num 60000) Lru))
           0 "k" (Some 5) (Some (num 10)) 10 10).
  reflexivity.
Defined.

(** X2.  Once the clock reading of a lookup is past the time-to-live of the
    entry that [set] stored, [get] returns absent, [has] answers false and the
    key is gone after the [get].  A negative ttl, [-Infinity] included, is
    accepted as given, so an entry stored with one is never readable, not
    even in the millisecond of the [set]. *)
Theorem set_then_get_after_ttl_is_absent :
  forall (T : Type) (c : SmartCache.t T) now key value,
    JsMap.distinct (SmartCache.cache c) ->
    (forall ttl_ t t',
        numGt (num (t - now))
              (orDefault ttl_ (defaultTtl (SmartCache.config c))) = true ->
        let c1 := SmartCache.set now key value ttl_ c in
        fst (SmartCache.get t t' key c1) = None /\
        fst (SmartCache.has t key c1) = false /\
        JsMap.get key (SmartCache.cache (snd (SmartCache.get t t' key c1))) = None)
    /\
    (forall x t t',
        numLt x (num 0) = true -> now <= t ->
        let c1 := SmartCache.set now key value (Some x) c in
        fst (SmartCache.get t t' key c1) = None /\
        fst (SmartCache.has t key c1) = false).
Proof.
  intros T c now key value Hd.
  assert (Hgen : forall ttl_ t t',
    numGt (num (t - now))
          (orDefault ttl_ (defaultTtl (SmartCache.config c))) = true ->
    fst (SmartCache.get t t' key (SmartCache.set now key value ttl_ c)) = None /\
    fst (SmartCache.has t key (SmartCache.set now key value ttl_ c)) = false /\
    JsMap.get key
      (SmartCache.cache
         (snd (SmartCache.get t t' key (SmartCache.set now key value ttl_ c))))
    = None).
  { intros ttl_ t t' Hexp.
    pose proof (get_after_set now key value ttl_ c) as Hg.
    rewrite (get_expired_result t t' key _ _ Hg Hexp).
    rewrite (has_expired_result t key _ _ Hg Hexp). cbn [fst snd].
    split; [reflexivity|]. split; [reflexivity|].
    simpl. apply get_delete_same.
    apply (step_distinct c (SmartCache.OpSet now key value ttl_) Hd). }
  split; [exact Hgen|].
  intros x t t' Hneg Hle c1.
  destruct (Hgen (Some x) t t') as (H1 & H2 & _); [|now split].
  simpl. rewrite (negative_truthy x Hneg).
  apply negative_below; [exact Hneg | lia].
Qed.

Lemma set_then_get_after_ttl_is_absent_example :
  fst (SmartCache.get 0 0 "k"
         (SmartCache.set 0 "k" (Some 5) (Some (num (-1)))
            (SmartCache.new (mkConfig (num 3) (num 1000) (num 60000) Lru)))) = None.
Proof.
  apply (proj2 (set_then_get_after_ttl_is_absent Z
                  (SmartCache.new (mkConfig (num 3) (num 1000) (num 60000) Lru)) 0 "k" (Some 5)
                  (NoDup_nil _)) (num (-1)) 0 0); [reflexivity | lia].
Defined.

(** X3.  [delete] answers whether the key was stored and removes it: the key
    is absent afterwards, every other key keeps its entry, and one delete is
    counted exactly when the answer is true.  A second [delete] of the same
    key answers false and changes nothing. *)
Theorem delete_removes_once :
  forall (T : Type) (c : SmartCache.t T) key,
    JsMap.distinct (SmartCache.cache c) ->
    let r1 := SmartCache.delete key c in
    let r2 := SmartCache.delete key (snd r1) in
    fst r1 = JsMap.has key (SmartCache.cache c) /\
    JsMap.get key (SmartCache.cache (snd r1)) = None /\
    (forall k, k <> key ->
               JsMap.get k (SmartCache.cache (snd r1))
               = JsMap.get k (SmartCache.cache c)) /\
    deletes (SmartCache.stats (snd r1))
    = (deletes (SmartCache.stats c) + if fst r1 then 1 else 0)%nat /\
    r2 = (false, snd r1).
Proof.
  intros T c key Hd r1 r2.
  assert (Hgone : JsMap.get key (SmartCache.cache (snd r1)) = None).
  { subst r1. rewrite delete_cache. now apply get_delete_same. }
  split; [|split; [exact Hgone|split; [|split]]].
  - subst r1. unfold SmartCache.delete.
    now destruct (JsMap.has key (SmartCache.cache c)).
  - intros k Hk. subst r1. rewrite delete_cache. apply get_delete_other. congruence.
  - subst r1. unfold SmartCache.delete.
    destruct (JsMap.has key (SmartCache.cache c)); simpl; lia.
  - subst r2. apply delete_absent_same. now apply has_get.
Qed.

Lemma delete_removes_once_example :
  let c := SmartCache.set 0 "k" (Some 5) None
             (SmartCache.new (mkConfig (num 3) (num 1000) (num 60000) Lru)) in
  fst (SmartCache.delete "k" c) = true /\
  fst (SmartCache.delete "k" (snd (SmartCache.delete "k" c))) = false.
Proof.
  cbv zeta.
  destruct (delete_removes_once Z
              (SmartCache.set 0 "k" (Some 5) None
                 (SmartCache.new (mkConfig (num 3) (num 1000) (num 60000) Lru))) "k")
    as (H1 & _ & _ & _ & H5).
  - repeat constructor. simpl. tauto.
  - cbv zeta in H1, H5. rewrite H5, H1. split; reflexivity.
Defined.

(** ** The periodic sweep *)

Section SweepFacts.
Context {T : Type}.
Implicit Types (c : SmartCache.t T) (m : JsMap.t (CacheEntry T)).

Lemma sweep_stats ks : forall c,
  SmartCache.cache (fold_left SmartCache.sweepStep ks c)
  = fold_left (fun m k => JsMap.delete k m) ks (SmartCache.cache c) /\
  evictions (SmartCache.stats (fold_left SmartCache.sweepStep ks c))
  = (evictions (SmartCache.stats c) + List.length ks)%nat /\
  hits (SmartCache.stats (fold_left SmartCache.sweepStep ks c))
  = hits (SmartCache.stats c) /\
  misses (SmartCache.stats (fold_left SmartCache.sweepStep ks c))
  = misses (SmartCache.stats c) /\
  sets (SmartCache.stats (fold_left SmartCache.sweepStep ks c))
  = sets (SmartCache.stats c) /\
  deletes (SmartCache.stats (fold_left SmartCache.sweepStep ks c))
  = deletes (SmartCache.stats c) /\
  hitRate (SmartCache.stats (fold_left SmartCache.sweepStep ks c))
  = hitRate (SmartCache.stats c).
Proof.
  induction ks as [|k ks IH]; intros c; cbn [fold_left].
  - repeat split. simpl. lia.
  - destruct (IH (SmartCache.sweepStep c k)) as (-> & -> & -> & -> & -> & -> & ->).
    simpl. repeat split. lia.
Qed.

Lemma delete_all_filter (ks : list string) : forall m,
  JsMap.distinct m ->
  fold_left (fun m k => JsMap.delete k m) ks m
  = filter (fun kv => negb (existsb (String.eqb (fst kv)) ks)) m.
Proof.
  induction ks as [|k ks IH]; intros m Hd; cbn [fold_left].
  - symmetry. apply forallb_filter_id. apply forallb_forall. now intros.
  - rewrite IH by now apply distinct_delete.
    rewrite delete_filter by assumption. rewrite filter_filter.
    apply filter_ext. intros [k' e]. cbn [fst existsb].
    rewrite (String.eqb_sym k' k). now rewrite negb_orb.
Qed.

Lemma distinct_unique key m e e' :
  JsMap.distinct m -> In (key, e) m -> In (key, e') m -> e = e'.
Proof.
  unfold JsMap.distinct, JsMap.keys.
  induction m as [|[k0 e0] m IH]; simpl; [tauto|].
  intros Hnd. inversion Hnd as [|? ? Hnotin Hnd']; subst.
  assert (Hout : forall x, In (k0, x) m -> False).
  { intros x Hin. apply Hnotin. change k0 with (fst (k0, x)). now apply in_map. }
  intros [H1|H1] [H2|H2].
  - congruence.
  - inversion H1; subst. exfalso. eauto.
  - inversion H2; subst. exfalso. eauto.
  - now apply IH.
Qed.

(** The keys collected by the first loop of [cleanup] name exactly the
    expired entries. *)
Lemma expired_keys_mark now m kv :
  JsMap.distinct m -> In kv m ->
  existsb (String.eqb (fst kv)) (map fst (filter (expiredAt now) m))
  = expiredAt now kv.
Proof.
  intros Hd Hin. apply Bool.eq_iff_eq_true. rewrite existsb_exists. split.
  - intros (k & Hk & Heq). apply String.eqb_eq in Heq. subst k.
    apply in_map_iff in Hk. destruct Hk as ([k' e'] & Hfst & Hf).
    apply filter_In in Hf. destruct Hf as [Hin' Hexp].
    destruct kv as [k e]. simpl in Hfst. subst k'.
    now rewrite (distinct_unique k m e e' Hd Hin Hin').
  - intros Hexp. exists (fst kv). split; [|apply String.eqb_refl].
    apply in_map. apply filter_In. now split.
Qed.

Lemma cleanup_cache now c :
  JsMap.distinct (SmartCache.cache c) ->
  SmartCache.cache (SmartCache.cleanup now c)
  = filter (fun kv => negb (expiredAt now kv)) (SmartCache.cache c).
Proof.
  intros Hd. unfold SmartCache.cleanup. simpl.
  rewrite (proj1 (sweep_stats _ c)).
  change (fun kv : string * CacheEntry T =>
            numGt (num (now - timestamp (snd kv))) (ttl (snd kv)))
    with (@expiredAt T now).
  rewrite delete_all_filter by assumption.
  apply filter_ext_in. intros kv Hin. now rewrite expired_keys_mark.
Qed.

Lemma cleanup_evictions now c :
  evictions (SmartCache.stats (SmartCache.cleanup now c))
  = (evictions (SmartCache.stats c)
     + List.length (filter (expiredAt now) (SmartCache.cache c)))%nat.
Proof.
  unfold SmartCache.cleanup. simpl.
  destruct (sweep_stats
              (map fst (filter (fun kv : string * CacheEntry T =>
                                  numGt (num (now - timestamp (snd kv)))
                                        (ttl (snd kv)))
                               (SmartCache.cache c))) c)
    as (_ & -> & _).
  now rewrite length_map.
Qed.

Lemma filter_none {A : Type} (f : A -> bool) (l : list A) :
  filter f (filter (fun x => negb (f x)) l) = [].
Proof.
  induction l as [|x l IH]; simpl; [reflexivity|].
  destruct (f x) eqn:Hf; simpl; [exact IH | now rewrite Hf].
Qed.
End SweepFacts.

(** X4.  [cleanup] keeps exactly the entries that are not expired at the time
    it reads, in their order, and counts one eviction per entry it removes;
    it ends with [totalSize] equal to the size.  No entry that is left is
    expired at that time, so a second sweep at the same time removes and
    counts nothing. *)
Theorem cleanup_removes_exactly_expired :
  forall (T : Type) (c : SmartCache.t T) now,
    JsMap.distinct (SmartCache.cache c) ->
    let c1 := SmartCache.cleanup now c in
    SmartCache.cache c1
    = filter (fun kv => negb (expiredAt now kv)) (SmartCache.cache c) /\
    evictions (SmartCache.stats c1)
    = (evictions (SmartCache.stats c)
       + List.length (filter (expiredAt now) (SmartCache.cache c)))%nat /\
    totalSize (SmartCache.stats c1) = SmartCache.size c1 /\
    (forall key e, JsMap.get key (SmartCache.cache c1) = Some e ->
                   SmartCache.isExpired now e = false) /\
    SmartCache.cache (SmartCache.cleanup now c1) = SmartCache.cache c1 /\
    evictions (SmartCache.stats (SmartCache.cleanup now c1))
    = evictions (SmartCache.stats c1).
Proof.
  intros T c now Hd c1.
  assert (Ec : SmartCache.cache c1
               = filter (fun kv => negb (expiredAt now kv)) (SmartCache.cache c))
    by now apply cleanup_cache.
  assert (Hd1 : JsMap.distinct (SmartCache.cache c1))
    by (rewrite Ec; now apply distinct_filter).
  split; [exact Ec|]. split; [apply cleanup_evictions|].
  split; [reflexivity|]. split; [|split].
  - intros key e Hg. apply get_In in Hg. rewrite Ec in Hg.
    apply filter_In in Hg. destruct Hg as [_ Hlive].
    apply negb_true_iff in Hlive. exact Hlive.
  - rewrite cleanup_cache by assumption. rewrite Ec, filter_filter.
    apply filter_ext. intros kv. now rewrite andb_diag.
  - rewrite cleanup_evictions, Ec, filter_none. simpl. lia.
Qed.

Lemma cleanup_removes_exactly_expired_example :
  let c := SmartCache.set 1 "fresh" (Some 2) (Some (num 100))
             (SmartCache.set 0 "stale" (Some 1) (Some (num 10))
                (SmartCache.new (mkConfig (num 5) (num 1000) (num 60000) Lru))) in
  SmartCache.keys (SmartCache.cleanup 11 c) = ["fresh"] /\
  evictions (SmartCache.stats (SmartCache.cleanup 11 c)) = 1%nat.
Proof.
  cbv zeta.
  destruct (cleanup_removes_exactly_expired Z
              (SmartCache.set 1 "fresh" (Some 2) (Some (num 100))
                 (SmartCache.set 0 "stale" (Some 1) (Some (num 10))
                    (SmartCache.new (mkConfig (num 5) (num 1000) (num 60000) Lru)))) 11)
    as (Hc & He & _).
  - repeat constructor; simpl; intuition discriminate.
  - cbv zeta in Hc, He. unfold SmartCache.keys. rewrite Hc, He.
    split; reflexivity.
Defined.

(** ** Statistics over the life of a cache *)

Section CounterFacts.
Context {T : Type}.
Implicit Types (c : SmartCache.t T) (op : SmartCache.Op T).

Lemma rateOf_bounds (h m : nat) :
  Qle (inject_Z 0) (rateOf h m) /\ Qle (rateOf h m) (inject_Z 100).
Proof.
  unfold rateOf. destruct (Nat.ltb_spec 0 (h + m)) as [Hpos|Hz].
  - destruct (Z.of_nat (h + m)) as [|p|p] eqn:Ep; try lia.
    assert (Hh : Z.of_nat h <= Z.pos p) by lia.
    assert (Hh0 : 0 <= Z.of_nat h) by lia.
    unfold Qle, Qmult, Qdiv, Qinv, inject_Z. simpl.
    split; nia.
  - split; unfold Qle; simpl; lia.
Qed.

Lemma updateHitRate_rate c :
  hitRate (SmartCache.stats (SmartCache.updateHitRate c))
  = rateOf (hits (SmartCache.stats c)) (misses (SmartCache.stats c)) /\
  hits (SmartCache.stats (SmartCache.updateHitRate c)) = hits (SmartCache.stats c) /\
  misses (SmartCache.stats (SmartCache.updateHitRate c))
  = misses (SmartCache.stats c).
Proof. repeat split. Qed.

Lemma step_rate c op : rateAgrees c -> rateAgrees (SmartCache.step c op).
Proof.
  unfold rateAgrees. intros Hr.
  destruct op as [now now' key|now key value ttl_|key|now key| |now];
    cbn [SmartCache.step].
  - unfold SmartCache.get.
    destruct (JsMap.get key (SmartCache.cache c)) as [e|];
      [destruct (SmartCache.isExpired now e)|]; reflexivity.
  - destruct (set_counters now key value ttl_ c) as (-> & -> & _ & _ & ->).
    exact Hr.
  - unfold SmartCache.delete.
    destruct (JsMap.has key (SmartCache.cache c)); exact Hr.
  - now rewrite has_stats.
  - exact Hr.
  - unfold SmartCache.cleanup. cbn [SmartCache.stats SmartCache.withStats
      SmartCache.setTotalSize hitRate hits misses].
    destruct (sweep_stats
                (map fst (filter (fun kv : string * CacheEntry T =>
                                    numGt (num (now - timestamp (snd kv)))
                                          (ttl (snd kv)))
                                 (SmartCache.cache c))) c)
      as (_ & _ & -> & -> & _ & _ & ->).
    exact Hr.
Qed.

Lemma evictEntry_balance c :
  expiriesFinite c ->
  (SmartCache.size (SmartCache.evictEntry c)
   + evictions (SmartCache.stats (SmartCache.evictEntry c))
   = SmartCache.size c + evictions (SmartCache.stats c))%nat.
Proof.
  intros Hfin.
  destruct (Nat.eqb_spec (JsMap.size (SmartCache.cache c)) 0) as [Hz|Hnz].
  - unfold SmartCache.evictEntry. now rewrite (proj2 (Nat.eqb_eq _ _) Hz).
  - assert (Hne : SmartCache.cache c <> []).
    { intros E. apply Hnz. now rewrite E. }
    destruct (evictEntry_cache c (expiriesFinite_evictable c Hfin Hne))
      as (k & Hk & ->).
    unfold SmartCache.size. simpl.
    pose proof (size_delete k _ Hk) as Hs. lia.
Qed.

Lemma step_accounted c op :
  JsMap.distinct (SmartCache.cache c) ->
  expiriesFinite c ->
  accounted c -> accounted (SmartCache.step c op).
Proof.
  unfold accounted. intros Hd Hfin Hacc.
  destruct op as [now now' key|now key value ttl_|key|now key| |now];
    cbn [SmartCache.step].
  - unfold SmartCache.get, SmartCache.size in *.
    destruct (JsMap.get key (SmartCache.cache c)) as [e|] eqn:Hg;
      [destruct (SmartCache.isExpired now e)|]; simpl.
    + assert (Hh : JsMap.has key (SmartCache.cache c) = true)
        by (unfold JsMap.has; now rewrite Hg).
      pose proof (size_delete key _ Hh). lia.
    + rewrite size_set. unfold JsMap.has. rewrite Hg. lia.
    + lia.
  - pose proof (evictEntry_balance c Hfin) as Hb.
    destruct (evictEntry_counters c) as (_ & _ & Es & Ed & _).
    unfold SmartCache.set, SmartCache.size in *. simpl.
    destruct (_ && _); rewrite size_set;
      match goal with
      | |- context [JsMap.has key ?m] => destruct (JsMap.has key m)
      end; lia.
  - unfold SmartCache.delete, SmartCache.size in *.
    destruct (JsMap.has key (SmartCache.cache c)) eqn:Hh; simpl.
    + pose proof (size_delete key _ Hh). lia.
    + rewrite delete_absent by assumption. lia.
  - pose proof (step_size_le c (SmartCache.OpHas now key)) as Hs.
    cbn [SmartCache.step] in Hs. rewrite has_stats.
    assert (SmartCache.size (snd (SmartCache.has now key c)) <= SmartCache.size c)%nat
      by (apply Hs; discriminate).
    lia.
  - unfold SmartCache.size. simpl. lia.
  - pose proof (cleanup_evictions now c) as He.
    pose proof (cleanup_cache now c Hd) as Ec.
    pose proof (filter_split_length (expiredAt now) (SmartCache.cache c)) as Hl.
    unfold SmartCache.size, JsMap.size in *. rewrite Ec, He.
    assert (Es : sets (SmartCache.stats (SmartCache.cleanup now c))
                 = sets (SmartCache.stats c)).
    { unfold SmartCache.cleanup. simpl. apply sweep_stats. }
    assert (Ed : deletes (SmartCache.stats (SmartCache.cleanup now c))
                 = deletes (SmartCache.stats c)).
    { unfold SmartCache.cleanup. simpl. apply sweep_stats. }
    rewrite Es, Ed. lia.
Qed.

Lemma run_accounted ops : forall c,
  JsMap.distinct (SmartCache.cache c) ->
  expiriesFinite c ->
  tame (SmartCache.config c) ops ->
  accounted c -> accounted (SmartCache.run ops c).
Proof.
  unfold SmartCache.run, tame.
  induction ops as [|op ops IH]; intros c Hd Hfin Htame Hacc; simpl;
    [exact Hacc|].
  apply IH.
  - now apply step_distinct.
  - apply step_expiriesFinite; [|exact Hfin].
    intros Hp. specialize (Htame Hp). now inversion Htame.
  - rewrite step_config. intros Hp. specialize (Htame Hp). now inversion Htame.
  - now apply step_accounted.
Qed.
End CounterFacts.

(** X5.  In every state a cache can reach, the stored [hitRate] is the rate
    of the stored counters, [hits / (hits + misses) * 100], or 0 when no
    lookup has been counted; it lies between 0 and 100.  Only [get] changes
    the three, and it recomputes the rate each time. *)
Theorem hitRate_tracks_counters :
  forall (T : Type) (c : SmartCache.t T),
    SmartCache.reachable c ->
    hitRate (SmartCache.getStats c)
    = rateOf (hits (SmartCache.getStats c)) (misses (SmartCache.getStats c)) /\
    Qle (inject_Z 0) (hitRate (SmartCache.getStats c)) /\
    Qle (hitRate (SmartCache.getStats c)) (inject_Z 100).
Proof.
  intros T c Hr. unfold SmartCache.getStats.
  assert (Hagree : rateAgrees c).
  { induction Hr as [cfg|c op _ IH]; [reflexivity | now apply step_rate]. }
  split; [exact Hagree|]. rewrite Hagree. apply rateOf_bounds.
Qed.

Lemma hitRate_tracks_counters_example :
  let c := SmartCache.step
             (SmartCache.step
                (SmartCache.step (SmartCache.new (mkConfig (num 3) (num 1000) (num 60000) Lru))
                   (SmartCache.OpSet 0 "k" (Some 5) None))
                (SmartCache.OpGet 1 1 "k"))
             (SmartCache.OpGet 1 1 "other") in
  SmartCache.reachable c /\
  Qeq (hitRate (SmartCache.getStats c)) (inject_Z 50).
Proof.
  cbv zeta.
  assert (Hr : SmartCache.reachable
    (SmartCache.step
       (SmartCache.step
          (SmartCache.step (SmartCache.new (mkConfig (num 3) (num 1000) (num 60000) Lru))
             (SmartCache.OpSet 0 "k" (Some 5) None))
          (SmartCache.OpGet 1 1 "k"))
       (SmartCache.OpGet 1 1 "other"))).
  { repeat apply SmartCache.reach_step. apply SmartCache.reach_new. }
  split; [exact Hr|].
  rewrite (proj1 (hitRate_tracks_counters Z _ Hr)). reflexivity.
Defined.

(** X6.  From its construction on, through any calls of its methods, the
    entries a cache holds, the deletes it has counted and the evictions it
    has counted together never exceed the sets it has counted, provided
    that under the ['ttl'] policy every [set] stores an entry whose
    [timestamp + ttl] is below [Infinity].  The proviso is needed: under
    that policy with [ttl = Infinity], [evictEntry] counts evictions of
    entries it does not remove, and four sets on a cache of capacity two
    leave four entries and two counted evictions. *)
Theorem sets_account_for_entries :
  (forall (T : Type) (cfg : CacheConfig) (ops : list (SmartCache.Op T)),
      tame cfg ops ->
      let c := SmartCache.run ops (SmartCache.new cfg) in
      (SmartCache.size c + deletes (SmartCache.getStats c)
       + evictions (SmartCache.getStats c) <= sets (SmartCache.getStats c))%nat)
  /\
  (let c := SmartCache.run
              [SmartCache.OpSet 0 "a" (Some 1) (Some PosInf);
               SmartCache.OpSet 1 "b" (Some 2) (Some PosInf);
               SmartCache.OpSet 2 "c" (Some 3) (Some PosInf);
               SmartCache.OpSet 3 "d" (Some 4) (Some PosInf)]
              (SmartCache.new (mkConfig (num 2) (num 1000) (num 60000) Ttl)) in
   SmartCache.size c = 4%nat /\
   deletes (SmartCache.getStats c) = 0%nat /\
   evictions (SmartCache.getStats c) = 2%nat /\
   sets (SmartCache.getStats c) = 4%nat).
Proof.
  split.
  - intros T cfg ops Htame c. change (accounted c). subst c.
    apply run_accounted.
    + constructor.
    + intros _ kv [].
    + exact Htame.
    + unfold accounted. simpl. lia.
  - cbv zeta. repeat split; vm_compute; reflexivity.
Qed.

Lemma sets_account_for_entries_example :
  let c := SmartCache.run
             [SmartCache.OpSet 0 "a" (Some 1) None;
              SmartCache.OpSet 1 "b" (Some 2) None]
             (SmartCache.new (mkConfig (num 1) (num 1000) (num 60000) Ttl)) in
  (SmartCache.size c + deletes (SmartCache.getStats c)
   + evictions (SmartCache.getStats c) <= sets (SmartCache.getStats c))%nat.
Proof.
  apply (proj1 sets_account_for_entries Z
           (mkConfig (num 1) (num 1000) (num 60000) Ttl)
           [SmartCache.OpSet 0 "a" (Some 1) None;
            SmartCache.OpSet 1 "b" (Some 2) None]).
  intros _. repeat constructor.
Defined.

(** ** Reading does not renew an entry *)

Section ReadFacts.
Context {T : Type}.
Implicit Types (c : SmartCache.t T).

Lemma getRepeatedly_cons key now now' rest c :
  snd (getRepeatedly key ((now, now') :: rest) c)
  = snd (getRepeatedly key rest (snd (SmartCache.get now now' key c))).
Proof.
  simpl. destruct (SmartCache.get now now' key c) as [r c1]. simpl.
  now destruct (getRepeatedly key rest c1).
Qed.

Lemma getRepeatedly_keeps_stamp key reads : forall c e,
  JsMap.distinct (SmartCache.cache c) ->
  JsMap.get key (SmartCache.cache c) = Some e ->
  JsMap.get key (SmartCache.cache (snd (getRepeatedly key reads c))) = None \/
  exists e',
    JsMap.get key (SmartCache.cache (snd (getRepeatedly key reads c))) = Some e' /\
    data e' = data e /\ timestamp e' = timestamp e /\ ttl e' = ttl e.
Proof.
  induction reads as [|[now now'] reads IH]; intros c e Hd Hg.
  - right. exists e. now repeat split.
  - rewrite getRepeatedly_cons.
    destruct (SmartCache.isExpired now e) eqn:Hx.
    + left. rewrite (get_expired_result now now' key c e Hg Hx). cbn [snd].
      match goal with
      | |- context [getRepeatedly key reads ?c1] =>
          destruct (getRepeatedly_absent key reads c1) as (_ & -> & _)
      end; simpl; now apply get_delete_same.
    + destruct (get_hit_cache now now' key c e Hg Hx) as (_ & Ec & _).
      set (c1 := snd (SmartCache.get now now' key c)) in *.
      assert (Hg1 : JsMap.get key (SmartCache.cache c1)
                    = Some (mkEntry (data e) (timestamp e) (ttl e)
                              (S (accessCount e)) now'))
        by (rewrite Ec; apply get_set_same).
      assert (Hd1 : JsMap.distinct (SmartCache.cache c1))
        by (rewrite Ec; now apply distinct_set).
      exact (IH c1 _ Hd1 Hg1).
Qed.
End ReadFacts.

(** X7.  Reading an entry never renews it: whatever [get] calls are made on a
    key, its entry is either removed or keeps the value, the time stamp and
    the time-to-live that it had, so a [get] that reads the clock when the
    original entry would have expired returns absent. *)
Theorem get_does_not_renew :
  forall (T : Type) (c : SmartCache.t T) key e reads now now',
    JsMap.distinct (SmartCache.cache c) ->
    JsMap.get key (SmartCache.cache c) = Some e ->
    let c1 := snd (getRepeatedly key reads c) in
    (JsMap.get key (SmartCache.cache c1) = None \/
     exists e',
       JsMap.get key (SmartCache.cache c1) = Some e' /\
       data e' = data e /\ timestamp e' = timestamp e /\ ttl e' = ttl e) /\
    (SmartCache.isExpired now e = true -> fst (SmartCache.get now now' key c1) = None).
Proof.
  intros T c key e reads now now' Hd Hg c1.
  pose proof (getRepeatedly_keeps_stamp key reads c e Hd Hg) as Hk. fold c1 in Hk.
  split; [exact Hk|]. intros Hexp.
  destruct Hk as [Hnone|(e' & Hg' & _ & Ets & Ettl)].
  - unfold SmartCache.get. now rewrite Hnone.
  - rewrite (get_expired_result now now' key c1 e' Hg'); [reflexivity|].
    unfold SmartCache.isExpired in *. rewrite Ets, Ettl. exact Hexp.
Qed.

Lemma get_does_not_renew_example :
  let c := SmartCache.set 0 "k" (Some 5) (Some (num 10))
             (SmartCache.new (mkConfig (num 3) (num 1000) (num 60000) Lru)) in
  fst (SmartCache.get 11 11 "k"
         (snd (getRepeatedly "k" [(3, 3); (6, 6); (9, 9)] c))) = None.
Proof.
  cbv zeta.
  apply (get_does_not_renew Z
           (SmartCache.set 0 "k" (Some 5) (Some (num 10))
              (SmartCache.new (mkConfig (num 3) (num 1000) (num 60000) Lru)))
           "k" (mkEntry (Some 5) 0 (num 10) 1 0) [(3, 3); (6, 6); (9, 9)] 11 11).
  - repeat constructor. simpl. tauto.
  - reflexivity.
  - reflexivity.
Defined.

(** X8.  [has] and [get] judge a key alike: [has] answers true exactly when a
    [get] reading the same time would count a hit, and when it answers false
    it leaves the map as that [get] would.  Unlike [get], [has] changes no
    statistic, and a true answer changes nothing at all. *)
Theorem has_agrees_with_get :
  forall (T : Type) (c : SmartCache.t T) now now' key,
    SmartCache.getStats (snd (SmartCache.has now key c)) = SmartCache.getStats c /\
    (fst (SmartCache.has now key c) = true <->
     hits (SmartCache.getStats (snd (SmartCache.get now now' key c)))
     = S (hits (SmartCache.getStats c))) /\
    (fst (SmartCache.has now key c) = false ->
     SmartCache.cache (snd (SmartCache.has now key c))
     = SmartCache.cache (snd (SmartCache.get now now' key c))) /\
    (fst (SmartCache.has now key c) = true -> snd (SmartCache.has now key c) = c).
Proof.
  intros T c now now' key. unfold SmartCache.getStats.
  split; [apply has_stats|].
  unfold SmartCache.has, SmartCache.get.
  destruct (JsMap.get key (SmartCache.cache c)) as [e|];
    [destruct (SmartCache.isExpired now e)|]; simpl;
    repeat split; intros; try reflexivity; try discriminate; lia.
Qed.

Lemma has_agrees_with_get_example :
  let c := SmartCache.set 0 "k" (Some 5) (Some (num 10))
             (SmartCache.new (mkConfig (num 3) (num 1000) (num 60000) Lru)) in
  fst (SmartCache.has 11 "k" c) = false /\
  SmartCache.cache (snd (SmartCache.has 11 "k" c))
  = SmartCache.cache (snd (SmartCache.get 11 11 "k" c)).
Proof.
  cbv zeta. split; [reflexivity|].
  apply (has_agrees_with_get Z
           (SmartCache.set 0 "k" (Some 5) (Some (num 10))
              (SmartCache.new (mkConfig (num 3) (num 1000) (num 60000) Lru))) 11 11 "k").
  reflexivity.
Defined.

(** ** The registry: destroying, clearing, reporting *)

Section RegistryFacts.
Context {T : Type}.
Implicit Types (m : CacheManager.t T) (h : list (SmartCache.t T)).

Lemma In_get_any {V : Type} key (r : JsMap.t V) v :
  JsMap.distinct r -> In (key, v) r -> JsMap.get key r = Some v.
Proof.
  unfold JsMap.distinct, JsMap.keys.
  induction r as [|[k0 v0] r IH]; simpl; [tauto|].
  intros Hnd. inversion Hnd as [|? ? Hnotin Hnd']; subst.
  intros [Heq|Hin].
  - inversion Heq; subst. now rewrite String.eqb_refl.
  - destruct (String.eqb_spec key k0) as [->|Hne]; [|now apply IH].
    exfalso. apply Hnotin. change k0 with (fst (k0, v)). now apply in_map.
Qed.

Lemma nth_updateAt a (f : SmartCache.t T -> SmartCache.t T) h : forall b,
  nth_error (CacheManager.updateAt a f h) b
  = if (a =? b)%nat then option_map f (nth_error h b) else nth_error h b.
Proof.
  revert a. induction h as [|c h IH]; intros a b.
  - destruct a, b; simpl; try reflexivity; now destruct (a =? b)%nat.
  - destruct a as [|a], b as [|b]; simpl; try reflexivity. apply IH.
Qed.

Lemma length_updateAt a (f : SmartCache.t T -> SmartCache.t T) h :
  List.length (CacheManager.updateAt a f h) = List.length h.
Proof.
  revert a. induction h as [|c h IH]; intros a; [now destruct a|].
  destruct a; simpl; [reflexivity | now rewrite IH].
Qed.

Lemma deref_onCache a f m b :
  CacheManager.deref b (CacheManager.onCache a f m)
  = if (a =? b)%nat then option_map f (CacheManager.deref b m)
    else CacheManager.deref b m.
Proof. unfold CacheManager.deref. simpl. apply nth_updateAt. Qed.

Lemma clearAll_deref (l : JsMap.t nat) b : forall m,
  CacheManager.deref b
    (fold_left (fun acc na => CacheManager.onCache (snd na) SmartCache.clear acc) l m)
  = if existsb (fun na => (snd na =? b)%nat) l
    then option_map SmartCache.clear (CacheManager.deref b m)
    else CacheManager.deref b m.
Proof.
  induction l as [|[n a] l IH]; intros m; cbn [fold_left existsb snd].
  - reflexivity.
  - rewrite IH, deref_onCache.
    destruct (a =? b)%nat; cbn [orb]; [|reflexivity].
    destruct (CacheManager.deref b m) as [c|]; simpl;
      now destruct (existsb _ l).
Qed.

(** The two properties the registry keeps: names are distinct and every
    registered address is allocated. *)
Lemma act_keeps_registry m (x : CacheManager.Action T) :
  JsMap.distinct (CacheManager.caches m) -> CacheManager.wellFormed m ->
  JsMap.distinct (CacheManager.caches (CacheManager.act m x)) /\
  CacheManager.wellFormed (CacheManager.act m x) /\
  (List.length (CacheManager.heap m)
   <= List.length (CacheManager.heap (CacheManager.act m x)))%nat.
Proof.
  intros Hd Hwf. unfold CacheManager.wellFormed in *.
  destruct x as [n config|n| |a' op]; cbn [CacheManager.act].
  - destruct (JsMap.get n (CacheManager.caches m)) as [b|] eqn:Hn.
    + rewrite (getCache_registered n config m b Hn). simpl. auto.
    + rewrite (getCache_fresh n config m Hn). simpl. split; [|split].
      * now apply distinct_set.
      * intros name a Hg. rewrite length_app. simpl.
        destruct (String.eqb_spec n name) as [->|Hne].
        -- rewrite get_set_same in Hg. inversion Hg; subst. lia.
        -- rewrite get_set_other in Hg by assumption.
           specialize (Hwf name a Hg). lia.
      * rewrite length_app. simpl. lia.
  - unfold CacheManager.destroyCache.
    destruct (JsMap.get n (CacheManager.caches m)) as [b|]; simpl; [|auto].
    rewrite length_updateAt. split; [|split; [|lia]].
    + now apply distinct_delete.
    + intros name a Hg.
      destruct (String.eqb_spec n name) as [->|Hne].
      * rewrite get_delete_same in Hg by assumption. discriminate.
      * rewrite get_delete_other in Hg by assumption. now apply (Hwf name).
  - unfold CacheManager.clearAll.
    destruct (clearAll_fold (CacheManager.caches m) m) as [Ec Eh].
    cbv zeta in Ec, Eh. rewrite Ec.
    assert (El : List.length
                   (CacheManager.heap
                      (fold_left
                         (fun acc na =>
                            CacheManager.onCache (snd na) SmartCache.clear acc)
                         (CacheManager.caches m) m))
                 = List.length (CacheManager.heap m)).
    { unfold CacheManager.configs in Eh.
      rewrite <- (length_map SmartCache.config), Eh. apply length_map. }
    rewrite El. auto.
  - simpl. rewrite length_updateAt. auto.
Qed.
End RegistryFacts.

(** X9.  Whatever is done with the registry and with the caches it hands out,
    starting from the empty registry, its names stay distinct and every name
    it holds refers to a cache object: [getCache] never returns a dangling
    reference.  Cache objects are never freed: the heap only grows. *)
Theorem registry_references_are_live :
  forall (T : Type) (history : list (CacheManager.Action T)),
    let m := fold_left CacheManager.act history CacheManager.empty in
    JsMap.distinct (CacheManager.caches m) /\
    (forall name a,
        JsMap.get name (CacheManager.caches m) = Some a ->
        exists c, CacheManager.deref a m = Some c) /\
    (forall name config,
        exists c,
          CacheManager.deref (fst (CacheManager.getCache name config m))
            (snd (CacheManager.getCache name config m)) = Some c).
Proof.
  intros T history.
  assert (Hinv : forall m : CacheManager.t T,
    JsMap.distinct (CacheManager.caches m) -> CacheManager.wellFormed m ->
    JsMap.distinct
      (CacheManager.caches (fold_left CacheManager.act history m)) /\
    CacheManager.wellFormed (fold_left CacheManager.act history m)).
  { induction history as [|x history IH]; intros m Hd Hwf; simpl; [auto|].
    destruct (act_keeps_registry m x Hd Hwf) as (Hd' & Hwf' & _).
    now apply IH. }
  destruct (Hinv CacheManager.empty) as [Hd Hwf].
  { constructor. }
  { intros name a Hg. discriminate. }
  cbv zeta. split; [exact Hd|]. split.
  - intros name a Hg. specialize (Hwf name a Hg).
    unfold CacheManager.deref.
    destruct (nth_error _ a) as [c|] eqn:Hn; [now exists c|].
    apply nth_error_None in Hn. lia.
  - intros name config.
    destruct (getCache_registers name config _ Hwf) as [_ [cfg Hc]].
    unfold CacheManager.configs in Hc. rewrite nth_error_map in Hc.
    unfold CacheManager.deref.
    destruct (nth_error _ _) as [c|]; [now exists c | discriminate].
Qed.

(** X10.  [destroyCache] of a registered name answers true, takes the name
    out of the registry and leaves the object it referred to empty, with its
    timer stopped and its configuration kept; other names and other objects
    are untouched.  A second [destroyCache] answers false and changes
    nothing.  A later [getCache] of the name builds a new object at a new
    address, configured from the defaults and the configuration it is given,
    while references to the old object still see the destroyed one. *)
Theorem destroyCache_unregisters :
  forall (T : Type) (m : CacheManager.t T) name a c,
    JsMap.distinct (CacheManager.caches m) ->
    CacheManager.wellFormed m ->
    JsMap.get name (CacheManager.caches m) = Some a ->
    CacheManager.deref a m = Some c ->
    let r := CacheManager.destroyCache name m in
    fst r = true /\
    JsMap.get name (CacheManager.caches (snd r)) = None /\
    CacheManager.deref a (snd r) = Some (SmartCache.destroy c) /\
    SmartCache.size (SmartCache.destroy c) = 0%nat /\
    SmartCache.cleanupTimer (SmartCache.destroy c) = false /\
    SmartCache.config (SmartCache.destroy c) = SmartCache.config c /\
    (forall n, n <> name ->
               JsMap.get n (CacheManager.caches (snd r))
               = JsMap.get n (CacheManager.caches m)) /\
    (forall b, b <> a -> CacheManager.deref b (snd r) = CacheManager.deref b m) /\
    CacheManager.destroyCache name (snd r) = (false, snd r) /\
    (forall config,
        let r2 := CacheManager.getCache name config (snd r) in
        fst r2 = List.length (CacheManager.heap m) /\
        fst r2 <> a /\
        CacheManager.deref (fst r2) (snd r2)
        = Some (SmartCache.new
                  (CacheManager.mergeConfig CacheManager.defaultConfig config)) /\
        CacheManager.deref a (snd r2) = Some (SmartCache.destroy c)).
Proof.
  intros T m name a c Hd Hwf Hg Hc r.
  assert (Er : r = (true,
                    CacheManager.mk
                      (JsMap.delete name (CacheManager.caches m))
                      (CacheManager.updateAt a SmartCache.destroy
                         (CacheManager.heap m)))).
  { subst r. unfold CacheManager.destroyCache. now rewrite Hg. }
  assert (Hgone : JsMap.get name (CacheManager.caches (snd r)) = None).
  { rewrite Er. simpl. now apply get_delete_same. }
  assert (Ha : CacheManager.deref a (snd r) = Some (SmartCache.destroy c)).
  { rewrite Er. unfold CacheManager.deref in *. simpl.
    now rewrite nth_updateAt, Nat.eqb_refl, Hc. }
  assert (Hlen : List.length (CacheManager.heap (snd r))
                 = List.length (CacheManager.heap m)).
  { rewrite Er. simpl. apply length_updateAt. }
  specialize (Hwf name a Hg).
  split; [now rewrite Er|]. split; [exact Hgone|]. split; [exact Ha|].
  split; [reflexivity|]. split; [reflexivity|]. split; [reflexivity|].
  split; [|split; [|split]].
  - intros n Hn. rewrite Er. simpl. apply get_delete_other. congruence.
  - intros b Hb. rewrite Er. unfold CacheManager.deref. simpl.
    rewrite nth_updateAt. destruct (Nat.eqb_spec a b); [congruence | reflexivity].
  - unfold CacheManager.destroyCache. now rewrite Hgone.
  - intros config r2. subst r2.
    rewrite (getCache_fresh name config (snd r) Hgone). cbn [fst snd].
    rewrite Hlen. split; [reflexivity|]. split; [lia|].
    unfold CacheManager.deref in *. cbn [CacheManager.heap]. split.
    + rewrite nth_error_app2; rewrite Hlen; [|lia].
      now rewrite Nat.sub_diag.
    + rewrite nth_error_app1; [exact Ha | rewrite Hlen; lia].
Qed.

Lemma destroyCache_unregisters_example :
  let m := snd (CacheManager.getCache (T := Z) "orders" None CacheManager.empty) in
  fst (CacheManager.destroyCache "orders" m) = true /\
  fst (CacheManager.getCache "orders" None
         (snd (CacheManager.destroyCache "orders" m))) = 1%nat.
Proof.
  cbv zeta.
  destruct (destroyCache_unregisters Z
              (snd (CacheManager.getCache "orders" None CacheManager.empty))
              "orders" 0%nat (SmartCache.new CacheManager.defaultConfig))
    as (H1 & _ & _ & _ & _ & _ & _ & _ & _ & H2).
  - repeat constructor. simpl. tauto.
  - intros name a. simpl.
    destruct (String.eqb name "orders"); [intros [= <-]; lia | discriminate].
  - reflexivity.
  - reflexivity.
  - split; [exact H1|]. exact (proj1 (H2 None)).
Defined.

(** X11.  [clearAll] clears every cache that a name of the registry refers
    to and nothing else: such a cache is empty afterwards with [totalSize] 0
    and its counters, rate and configuration kept, objects that no name
    refers to (destroyed ones) are as they were, and the registry itself is
    unchanged. *)
Theorem clearAll_clears_registered :
  forall (T : Type) (m : CacheManager.t T),
    CacheManager.caches (CacheManager.clearAll m) = CacheManager.caches m /\
    (forall name a c,
        JsMap.get name (CacheManager.caches m) = Some a ->
        CacheManager.deref a m = Some c ->
        CacheManager.deref a (CacheManager.clearAll m) = Some (SmartCache.clear c) /\
        SmartCache.size (SmartCache.clear c) = 0%nat /\
        totalSize (SmartCache.getStats (SmartCache.clear c)) = 0%nat /\
        hits (SmartCache.getStats (SmartCache.clear c))
        = hits (SmartCache.getStats c) /\
        misses (SmartCache.getStats (SmartCache.clear c))
        = misses (SmartCache.getStats c) /\
        evictions (SmartCache.getStats (SmartCache.clear c))
        = evictions (SmartCache.getStats c) /\
        SmartCache.config (SmartCache.clear c) = SmartCache.config c) /\
    (forall b,
        (forall name, JsMap.get name (CacheManager.caches m) <> Some b) ->
        JsMap.distinct (CacheManager.caches m) ->
        CacheManager.deref b (CacheManager.clearAll m) = CacheManager.deref b m).
Proof.
  intros T m. unfold CacheManager.clearAll. split; [|split].
  - apply (clearAll_fold (CacheManager.caches m) m).
  - intros name a c Hg Hc. rewrite clearAll_deref, Hc.
    assert (Hex : existsb (fun na : string * nat => (snd na =? a)%nat)
                    (CacheManager.caches m) = true).
    { apply existsb_exists. exists (name, a). split; [now apply get_In|].
      apply Nat.eqb_refl. }
    rewrite Hex. repeat split.
  - intros b Hfree Hd. rewrite clearAll_deref.
    destruct (existsb _ (CacheManager.caches m)) eqn:Hex; [|reflexivity].
    apply existsb_exists in Hex. destruct Hex as ([n a] & Hin & Heq).
    apply Nat.eqb_eq in Heq. simpl in Heq. subst a.
    exfalso. apply (Hfree n). now apply In_get_any.
Qed.

Lemma clearAll_clears_registered_example :
  let m0 := snd (CacheManager.getCache (T := Z) "orders" None CacheManager.empty) in
  let m := CacheManager.onCache 0 (SmartCache.set 0 "order:1" (Some 7) None) m0 in
  CacheManager.deref 0 (CacheManager.clearAll m)
  = Some (SmartCache.clear
            (SmartCache.set 0 "order:1" (Some 7) None
               (SmartCache.new CacheManager.defaultConfig))).
Proof.
  cbv zeta.
  apply (proj1 (proj2 (clearAll_clears_registered Z
           (CacheManager.onCache 0 (SmartCache.set 0 "order:1" (Some 7) None)
              (snd (CacheManager.getCache "orders" None CacheManager.empty)))))
           "orders" 0%nat); reflexivity.
Defined.

(** ** Enumeration of a plain object, and [getAllStats] *)

Section ObjectFacts.
Context {V : Type}.
Implicit Types (l : JsMap.t V) (o : JsObject.t V).

Lemma insertByIndex_perm (x : N * (string * V)) sorted :
  Permutation (JsObject.insertByIndex x sorted) (x :: sorted).
Proof.
  induction sorted as [|y rest IH]; simpl; [apply Permutation_refl|].
  destruct (fst x <? fst y)%N; [apply Permutation_refl|].
  etransitivity; [apply perm_skip, IH | apply perm_swap].
Qed.

Lemma sort_perm (xs : list (N * (string * V))) :
  Permutation (fold_right JsObject.insertByIndex [] xs) xs.
Proof.
  induction xs as [|x xs IH]; simpl; [constructor|].
  etransitivity; [apply insertByIndex_perm | now apply perm_skip].
Qed.

Lemma insertByIndex_sorted (x : N * (string * V)) sorted :
  Sorted (fun a b => (fst a <= fst b)%N) sorted ->
  Sorted (fun a b => (fst a <= fst b)%N) (JsObject.insertByIndex x sorted).
Proof.
  induction sorted as [|y rest IH]; simpl; intros Hs.
  - repeat constructor.
  - destruct (N.ltb_spec (fst x) (fst y)) as [Hlt|Hge].
    + constructor; [exact Hs|]. constructor. now apply N.lt_le_incl.
    + inversion Hs as [|? ? Hrest Hhd]; subst.
      constructor; [now apply IH|].
      destruct rest as [|z rest']; simpl.
      * now constructor.
      * destruct (fst x <? fst z)%N; constructor; [exact Hge|].
        now inversion Hhd.
Qed.

Lemma sort_sorted (xs : list (N * (string * V))) :
  Sorted (fun a b => (fst a <= fst b)%N)
         (fold_right JsObject.insertByIndex [] xs).
Proof.
  induction xs as [|x xs IH]; simpl; [constructor|].
  now apply insertByIndex_sorted.
Qed.

Lemma indexed_snd l :
  map snd (JsObject.indexed l)
  = filter (fun kv => JsObject.isArrayIndex (fst kv)) l.
Proof.
  unfold JsObject.indexed, JsObject.isArrayIndex.
  induction l as [|kv l IH]; simpl; [reflexivity|].
  destruct (JsObject.arrayIndex (fst kv)); simpl; now rewrite IH.
Qed.

Lemma indexed_tagged l x :
  In x (JsObject.indexed l) -> JsObject.arrayIndex (fst (snd x)) = Some (fst x).
Proof.
  unfold JsObject.indexed. rewrite in_flat_map. intros (kv & _ & Hx).
  destruct (JsObject.arrayIndex (fst kv)) eqn:E; [|contradiction].
  destruct Hx as [<-|[]]. exact E.
Qed.

Lemma filter_split_perm {A : Type} (f : A -> bool) (xs : list A) :
  Permutation (filter f xs ++ filter (fun x => negb (f x)) xs) xs.
Proof.
  induction xs as [|x xs IH]; simpl; [constructor|].
  destruct (f x); simpl.
  - now apply perm_skip.
  - etransitivity; [symmetry; apply Permutation_middle | now apply perm_skip].
Qed.

(** The part of the enumeration that holds the array indices. *)
Lemma ordered_split l :
  exists idx,
    JsObject.ordered l
    = idx ++ filter (fun kv => negb (JsObject.isArrayIndex (fst kv))) l /\
    Permutation idx (filter (fun kv => JsObject.isArrayIndex (fst kv)) l) /\
    StronglySorted ascendingIndex idx.
Proof.
  exists (map snd (fold_right JsObject.insertByIndex [] (JsObject.indexed l))).
  split; [reflexivity|]. split.
  - rewrite <- indexed_snd. apply Permutation_map, sort_perm.
  - assert (Htag : forall x,
      In x (fold_right JsObject.insertByIndex [] (JsObject.indexed l)) ->
      JsObject.arrayIndex (fst (snd x)) = Some (fst x)).
    { intros x Hin. apply (indexed_tagged l).
      eapply Permutation_in; [apply sort_perm | exact Hin]. }
    pose proof (sort_sorted (JsObject.indexed l)) as Hs.
    apply Sorted_StronglySorted in Hs;
      [|intros a b c Hab Hbc; now apply N.le_trans with (fst b)].
    induction Hs as [|x xs Hs IH Hall]; simpl; constructor.
    + apply IH. intros y Hy. apply Htag. now right.
    + apply Forall_forall. intros kv Hin. apply in_map_iff in Hin.
      destruct Hin as (y & <- & Hy). unfold ascendingIndex.
      rewrite (Htag x (or_introl eq_refl)), (Htag y (or_intror Hy)).
      rewrite Forall_forall in Hall. now apply Hall.
Qed.

Lemma ordered_perm l : Permutation (JsObject.ordered l) l.
Proof.
  destruct (ordered_split l) as (idx & -> & Hp & _).
  etransitivity; [|apply (filter_split_perm (fun kv => JsObject.isArrayIndex (fst kv)))].
  now apply Permutation_app_tail.
Qed.

(** Without array indices among the names the enumeration is the creation
    order. *)
Lemma ordered_plain l :
  (forall kv, In kv l -> JsObject.arrayIndex (fst kv) = None) ->
  JsObject.ordered l = l.
Proof.
  intros Hno. unfold JsObject.ordered.
  assert (Ei : JsObject.indexed l = []).
  { unfold JsObject.indexed. induction l as [|kv l IH]; simpl; [reflexivity|].
    rewrite (Hno kv (or_introl eq_refl)). simpl. apply IH.
    intros kv' Hin. apply Hno. now right. }
  rewrite Ei. simpl. apply forallb_filter_id. apply forallb_forall.
  intros kv Hin. unfold JsObject.isArrayIndex. now rewrite (Hno kv Hin).
Qed.
End ObjectFacts.

Lemma sumOver_perm (f : CacheStats -> nat) (xs ys : list (string * CacheStats)) :
  Permutation xs ys -> sumOver f xs = sumOver f ys.
Proof.
  induction 1 as [|x xs ys _ IH|x y xs|xs ys zs _ IH1 _ IH2]; simpl;
    [reflexivity | now rewrite IH | lia | now rewrite IH1].
Qed.

Lemma count_name (name : string) (ks : list string) :
  NoDup ks ->
  (In name ks ->
   List.length (filter (fun n => negb (negb (String.eqb n name))) ks) = 1%nat) /\
  (~ In name ks ->
   List.length (filter (fun n => negb (negb (String.eqb n name))) ks) = 0%nat).
Proof.
  induction ks as [|k ks IH]; intros Hnd; [split; [intros [] | reflexivity]|].
  inversion Hnd as [|? ? Hnotin Hnd']; subst.
  destruct (IH Hnd') as [Hone Hzero]. cbn [filter].
  destruct (String.eqb_spec k name) as [->|Hne]; simpl.
  - split; [intros _; now rewrite Hzero | intros Hn; exfalso; apply Hn; now left].
  - split.
    + intros [H|H]; [congruence | now apply Hone].
    + intros Hn. apply Hzero. intros H. apply Hn. now right.
Qed.

Section StatsFacts.
Context {T : Type}.
Implicit Types (m : CacheManager.t T).

(** The contribution of a part [l] of the registry to the report. *)
Lemma statsStep_fold m (l : JsMap.t nat) : forall o,
  NoDup (JsMap.keys l) ->
  (forall k, In k (JsMap.keys (JsObject.own o)) -> ~ In k (JsMap.keys l)) ->
  JsObject.own (fold_left (CacheManager.statsStep m) l o)
  = JsObject.own o
    ++ flat_map
         (fun na =>
            if String.eqb (fst na) "__proto__" then []
            else
              match CacheManager.deref (snd na) m with
              | Some c => [(fst na, SmartCache.getStats c)]
              | None => []
              end)
         l.
Proof.
  induction l as [|[n a] l IH]; intros o Hnd Hfresh; cbn [fold_left flat_map].
  - now rewrite app_nil_r.
  - inversion Hnd as [|? ? Hnotin Hnd']; subst.
    cbn [fst snd]. unfold CacheManager.statsStep at 2. cbn [fst snd].
    destruct (CacheManager.deref a m) as [c|].
    + unfold JsObject.set. destruct (String.eqb n "__proto__").
      * rewrite IH; [reflexivity | exact Hnd'|]. simpl.
        intros k Hk Hin. apply (Hfresh k Hk). now right.
      * rewrite IH; [|exact Hnd'|].
        -- cbn [JsObject.own]. rewrite set_absent, <- app_assoc; [reflexivity|].
           apply has_false_iff. intros Hin. apply (Hfresh n Hin). now left.
        -- cbn [JsObject.own]. intros k Hk Hin. apply keys_set_iff in Hk.
           destruct Hk as [->|Hk]; [contradiction|].
           apply (Hfresh k Hk). now right.
    + rewrite IH; [|exact Hnd'|].
      * now destruct (String.eqb n "__proto__").
      * intros k Hk Hin. apply (Hfresh k Hk). now right.
Qed.

Lemma getAllStats_own m :
  JsMap.distinct (CacheManager.caches m) ->
  JsObject.own (CacheManager.getAllStats m) = reported m.
Proof.
  intros Hd. unfold CacheManager.getAllStats, reported.
  rewrite statsStep_fold; [reflexivity | exact Hd | intros k []].
Qed.

Lemma statsStep_proto m (l : JsMap.t nat) : forall o,
  NoDup (JsMap.keys l) ->
  JsObject.proto (fold_left (CacheManager.statsStep m) l o)
  = match JsMap.get "__proto__" l with
    | Some a =>
        match CacheManager.deref a m with
        | Some c => Some (SmartCache.getStats c)
        | None => JsObject.proto o
        end
    | None => JsObject.proto o
    end.
Proof.
  induction l as [|[n a] l IH]; intros o Hnd; cbn [fold_left JsMap.get];
    [reflexivity|].
  inversion Hnd as [|? ? Hnotin Hnd']; subst.
  rewrite IH by exact Hnd'. unfold CacheManager.statsStep. cbn [fst snd].
  rewrite (String.eqb_sym "__proto__" n).
  destruct (String.eqb_spec n "__proto__") as [->|Hne].
  - assert (Hg : JsMap.get "__proto__" l = None).
    { apply has_get. now apply has_false_iff. }
    rewrite Hg. destruct (CacheManager.deref a m) as [c|]; [|reflexivity].
    unfold JsObject.set. now rewrite String.eqb_refl.
  - assert (Ep : forall s,
      JsObject.proto (JsObject.set n s o) = JsObject.proto o).
    { intros s. unfold JsObject.set.
      destruct (String.eqb_spec n "__proto__"); [contradiction | reflexivity]. }
    destruct (CacheManager.deref a m) as [c|]; [|reflexivity].
    now rewrite Ep.
Qed.

Lemma reported_In m name s :
  JsMap.distinct (CacheManager.caches m) ->
  In (name, s) (reported m) <->
  name <> "__proto__" /\
  exists a c,
    JsMap.get name (CacheManager.caches m) = Some a /\
    CacheManager.deref a m = Some c /\
    s = SmartCache.getStats c.
Proof.
  intros Hd. unfold reported. rewrite in_flat_map. split.
  - intros ([n a] & Hin & Hs). cbn [fst snd] in Hs.
    destruct (String.eqb_spec n "__proto__") as [->|Hne]; [contradiction|].
    destruct (CacheManager.deref a m) as [c|] eqn:Hc; [|contradiction].
    destruct Hs as [Heq|[]]. inversion Heq; subst.
    split; [exact Hne|]. exists a, c. split; [now apply In_get_any | now split].
  - intros (Hne & a & c & Hg & Hc & ->). exists (name, a).
    split; [now apply get_In|]. cbn [fst snd].
    destruct (String.eqb_spec name "__proto__"); [contradiction|].
    rewrite Hc. now left.
Qed.

Lemma reported_names m :
  CacheManager.wellFormed m ->
  JsMap.distinct (CacheManager.caches m) ->
  map fst (reported m)
  = filter (fun n => negb (String.eqb n "__proto__"))
      (JsMap.keys (CacheManager.caches m)).
Proof.
  intros Hwf Hd. unfold reported, JsMap.keys, CacheManager.wellFormed in *.
  assert (Hall : forall n a, In (n, a) (CacheManager.caches m) ->
                             (a < List.length (CacheManager.heap m))%nat).
  { intros n a Hin. apply (Hwf n). now apply In_get_any. }
  clear Hwf Hd. induction (CacheManager.caches m) as [|[n a] l IH];
    [reflexivity|].
  cbn [flat_map map fst snd filter].
  assert (Ha : (a < List.length (CacheManager.heap m))%nat)
    by (apply (Hall n); now left).
  assert (IH' := IH (fun n' a' Hin => Hall n' a' (or_intror Hin))).
  destruct (String.eqb n "__proto__"); simpl; [exact IH'|].
  unfold CacheManager.deref at 1.
  destruct (nth_error (CacheManager.heap m) a) as [c|] eqn:Hn.
  - simpl. f_equal. exact IH'.
  - apply nth_error_None in Hn. lia.
Qed.
End StatsFacts.

(** X12.  [getAllStats] gives its result one own property per registered
    name other than [__proto__], holding the statistics of the cache the
    name refers to, in the order of registration.  A cache registered as
    [__proto__] gets no property: its statistics become the prototype of the
    result.  [Object.entries] of the result lists each property once: the
    names that are array indices first, in ascending numeric order, then the
    other names in the order of registration. *)
Theorem getAllStats_reports_registered :
  forall (T : Type) (m : CacheManager.t T),
    JsMap.distinct (CacheManager.caches m) ->
    CacheManager.wellFormed m ->
    let stats := CacheManager.getAllStats m in
    JsObject.own stats = reported m /\
    map fst (reported m)
    = filter (fun n => negb (String.eqb n "__proto__"))
        (JsMap.keys (CacheManager.caches m)) /\
    (forall name s,
        In (name, s) (JsObject.entries stats) <->
        name <> "__proto__" /\
        exists a c,
          JsMap.get name (CacheManager.caches m) = Some a /\
          CacheManager.deref a m = Some c /\
          s = SmartCache.getStats c) /\
    NoDup (map fst (JsObject.entries stats)) /\
    (List.length (JsObject.entries stats)
     + (if JsMap.has "__proto__" (CacheManager.caches m) then 1 else 0)
     = JsMap.size (CacheManager.caches m))%nat /\
    (forall a c,
        JsMap.get "__proto__" (CacheManager.caches m) = Some a ->
        CacheManager.deref a m = Some c ->
        JsObject.proto stats = Some (SmartCache.getStats c)) /\
    (JsMap.get "__proto__" (CacheManager.caches m) = None ->
     JsObject.proto stats = None) /\
    ((forall name, In name (JsMap.keys (CacheManager.caches m)) ->
                   JsObject.arrayIndex name = None) ->
     JsObject.entries stats = reported m) /\
    (exists idx,
        JsObject.entries stats
        = idx ++ filter (fun kv => negb (JsObject.isArrayIndex (fst kv)))
                   (reported m) /\
        Permutation idx
          (filter (fun kv => JsObject.isArrayIndex (fst kv)) (reported m)) /\
        StronglySorted ascendingIndex idx).
Proof.
  intros T m Hd Hwf stats.
  assert (Eown : JsObject.own stats = reported m) by now apply getAllStats_own.
  assert (Enames := reported_names m Hwf Hd).
  assert (Hperm : Permutation (JsObject.entries stats) (reported m)).
  { unfold JsObject.entries. rewrite Eown. apply ordered_perm. }
  assert (Hnd : NoDup (map fst (reported m))).
  { rewrite Enames. now apply NoDup_filter. }
  split; [exact Eown|]. split; [exact Enames|].
  split; [|split; [|split; [|split; [|split; [|split]]]]].
  - intros name s. rewrite <- (reported_In m name s Hd).
    split; apply Permutation_in; [exact Hperm | now symmetry].
  - eapply Permutation_NoDup; [|exact Hnd].
    apply Permutation_map. now symmetry.
  - rewrite (Permutation_length Hperm), <- (length_map fst), Enames.
    unfold JsMap.size. rewrite <- (length_map fst (CacheManager.caches m)).
    fold (JsMap.keys (CacheManager.caches m)).
    pose proof (filter_split_length (fun n => negb (String.eqb n "__proto__"))
                  (JsMap.keys (CacheManager.caches m))) as Hsplit.
    cbv beta in Hsplit.
    pose proof (count_name "__proto__" _ Hd) as [Hone Hzero].
    destruct (JsMap.has "__proto__" (CacheManager.caches m)) eqn:Hh.
    + rewrite Hone in Hsplit by now apply has_true_iff. lia.
    + rewrite Hzero in Hsplit by now apply has_false_iff. lia.
  - intros a c Hg Hc. subst stats. unfold CacheManager.getAllStats.
    rewrite statsStep_proto by exact Hd. now rewrite Hg, Hc.
  - intros Hg. subst stats. unfold CacheManager.getAllStats.
    rewrite statsStep_proto by exact Hd. now rewrite Hg.
  - intros Hno. unfold JsObject.entries. rewrite Eown. apply ordered_plain.
    intros [n s] Hin. apply Hno. cbn [fst].
    assert (Hn : In n (map fst (reported m)))
      by (change n with (fst (n, s)); now apply in_map).
    rewrite Enames in Hn. now apply filter_In in Hn.
  - unfold JsObject.entries. rewrite Eown. apply ordered_split.
Qed.

Lemma getAllStats_reports_registered_example :
  let m :=
    fold_left CacheManager.act
      [CacheManager.ActGetCache "b" None;
       CacheManager.ActGetCache "10" None;
       CacheManager.ActGetCache "__proto__" None;
       CacheManager.ActGetCache "9" None;
       CacheManager.ActCacheOp 2 (SmartCache.OpGet 0 0 "k")]
      (CacheManager.empty (T := Z)) in
  map fst (JsObject.entries (CacheManager.getAllStats m)) = ["9"; "10"; "b"] /\
  (forall s, ~ In ("__proto__", s) (JsObject.entries (CacheManager.getAllStats m))) /\
  option_map misses (JsObject.proto (CacheManager.getAllStats m)) = Some 1%nat.
Proof.
  cbv zeta.
  set (m := fold_left CacheManager.act _ CacheManager.empty).
  assert (Hd : JsMap.distinct (CacheManager.caches m))
    by (repeat constructor; simpl; intuition discriminate).
  assert (Hwf : CacheManager.wellFormed m).
  { intros name a. simpl.
    repeat match goal with
           | |- context [String.eqb name ?s] => destruct (String.eqb name s)
           end; intros [= <-] || discriminate; lia. }
  destruct (getAllStats_reports_registered Z m Hd Hwf)
    as (_ & _ & Hin & _ & _ & Hproto & _).
  split; [reflexivity|]. split.
  - intros s Hs. apply Hin in Hs. now destruct Hs as [Hne _].
  - now rewrite (Hproto 2%nat _ eq_refl eq_refl).
Defined.

(** ** Pattern invalidation at its edges, and its statistics *)

Section PatternFacts.
Context {T : Type}.
Implicit Types (c : SmartCache.t T).

Lemma invalidatePattern_result c pattern :
  JsMap.distinct (SmartCache.cache c) ->
  SmartCache.cache (snd (CachedQuery.invalidatePattern c pattern))
  = filter (fun kv => negb (includes (fst kv) pattern)) (SmartCache.cache c) /\
  fst (CachedQuery.invalidatePattern c pattern)
  = List.length (filter (fun kv => includes (fst kv) pattern) (SmartCache.cache c)).
Proof.
  intros Hd.
  destruct (invalidate_fold pattern (SmartCache.keys c) 0%nat c Hd) as [Ec En].
  fold (CachedQuery.invalidatePattern c pattern) in Ec, En. split.
  - rewrite Ec. apply filter_ext_in. intros [k e] Hin. cbn [fst].
    assert (Hex : existsb (String.eqb k) (SmartCache.keys c) = true).
    { apply existsb_exists. exists k. split; [|apply String.eqb_refl].
      change k with (fst (k, e)). now apply in_map. }
    now rewrite Hex, andb_true_r.
  - rewrite En. unfold SmartCache.keys. rewrite filter_keys.
    unfold JsMap.keys. now rewrite length_map.
Qed.

Lemma includes_empty (s : string) : includes s EmptyString = true.
Proof. rewrite includes_unfold. now destruct s. Qed.

Lemma invalidate_cons pattern k ks (acc : nat * SmartCache.t T) :
  fold_left (CachedQuery.invalidateStep pattern) (k :: ks) acc
  = fold_left (CachedQuery.invalidateStep pattern) ks
      (if includes k pattern
       then (S (fst acc), snd (SmartCache.delete k (snd acc)))
       else acc).
Proof. reflexivity. Qed.

Lemma invalidate_none pattern ks : forall (acc : nat * SmartCache.t T),
  (forall k, In k ks -> includes k pattern = false) ->
  fold_left (CachedQuery.invalidateStep pattern) ks acc = acc.
Proof.
  induction ks as [|k ks IH]; intros acc Hno; [reflexivity|].
  rewrite invalidate_cons, (Hno k (or_introl eq_refl)). apply IH.
  intros k' Hin. apply Hno. now right.
Qed.

Lemma has_delete_other (k k' : string) (m : JsMap.t (CacheEntry T)) :
  k <> k' -> JsMap.has k' (JsMap.delete k m) = JsMap.has k' m.
Proof. intros Hne. unfold JsMap.has. now rewrite get_delete_other. Qed.

Lemma invalidate_fold_stats pattern ks : forall n c,
  NoDup ks ->
  (forall k, In k ks -> JsMap.has k (SmartCache.cache c) = true) ->
  let r := fold_left (CachedQuery.invalidateStep pattern) ks (n, c) in
  deletes (SmartCache.stats (snd r))
  = (deletes (SmartCache.stats c)
     + List.length (filter (fun k => includes k pattern) ks))%nat /\
  hits (SmartCache.stats (snd r)) = hits (SmartCache.stats c) /\
  misses (SmartCache.stats (snd r)) = misses (SmartCache.stats c) /\
  sets (SmartCache.stats (snd r)) = sets (SmartCache.stats c) /\
  evictions (SmartCache.stats (snd r)) = evictions (SmartCache.stats c) /\
  ((0 < List.length (filter (fun k => includes k pattern) ks))%nat \/
   totalSize (SmartCache.stats c) = SmartCache.size c ->
   totalSize (SmartCache.stats (snd r)) = SmartCache.size (snd r)).
Proof.
  induction ks as [|k ks IH]; intros n c Hnd Hin; cbv zeta.
  - simpl. repeat split; try lia.
  - inversion Hnd as [|? ? Hnotin Hnd']; subst.
    rewrite invalidate_cons. cbn [filter fst snd].
    destruct (includes k pattern) eqn:Hk.
    + assert (Hh : JsMap.has k (SmartCache.cache c) = true)
        by (apply Hin; now left).
      assert (Hin' : forall k', In k' ks ->
                JsMap.has k' (SmartCache.cache (snd (SmartCache.delete k c)))
                = true).
      { intros k' Hk'. rewrite delete_cache, has_delete_other.
        - apply Hin. now right.
        - intros ->. contradiction. }
      destruct (IH (S n) (snd (SmartCache.delete k c)) Hnd' Hin')
        as (E1 & E2 & E3 & E4 & E5 & E6).
      cbv zeta in E1, E2, E3, E4, E5, E6.
      assert (Es : SmartCache.stats (snd (SmartCache.delete k c))
                   = SmartCache.setTotalSize
                       (JsMap.size (JsMap.delete k (SmartCache.cache c)))
                       (SmartCache.bumpDeletes (SmartCache.stats c))).
      { unfold SmartCache.delete. now rewrite Hh. }
      rewrite Es in E1, E2, E3, E4, E5. simpl in E1, E2, E3, E4, E5.
      cbn [List.length].
      split; [rewrite E1; lia|]. split; [exact E2|]. split; [exact E3|].
      split; [exact E4|]. split; [exact E5|].
      intros _. apply E6. right. now apply delete_present_totalSize.
    + destruct (IH n c Hnd') as (E1 & E2 & E3 & E4 & E5 & E6).
      { intros k' Hk'. apply Hin. now right. }
      cbv zeta in E1, E2, E3, E4, E5, E6.
      split; [exact E1|]. split; [exact E2|]. split; [exact E3|].
      split; [exact E4|]. split; [exact E5 | exact E6].
Qed.
End PatternFacts.

(** X13.  Two edges of [invalidatePattern].  With the empty pattern every
    key matches: the cache is emptied and the count returned is its former
    size.  With a pattern that no stored key contains, nothing matches: the
    cache, statistics included, is returned as it was and the count is 0. *)
Theorem invalidatePattern_edges :
  forall (T : Type) (c : SmartCache.t T),
    (JsMap.distinct (SmartCache.cache c) ->
     SmartCache.cache (snd (CachedQuery.invalidatePattern c EmptyString)) = [] /\
     fst (CachedQuery.invalidatePattern c EmptyString) = SmartCache.size c) /\
    (forall pattern,
        (forall k, In k (SmartCache.keys c) -> ~ isSubstring pattern k) ->
        CachedQuery.invalidatePattern c pattern = (0%nat, c)).
Proof.
  intros T c. split.
  - intros Hd.
    destruct (invalidatePattern_result c EmptyString Hd) as [-> ->]. split.
    + clear Hd. induction (SmartCache.cache c) as [|[k e] m IH]; [reflexivity|].
      cbn [filter fst]. rewrite includes_empty. exact IH.
    + unfold SmartCache.size, JsMap.size. f_equal.
      apply forallb_filter_id. apply forallb_forall.
      intros [k e] _. apply includes_empty.
  - intros pattern Hno. unfold CachedQuery.invalidatePattern.
    apply invalidate_none. intros k Hin.
    destruct (includes k pattern) eqn:Hk; [|reflexivity].
    exfalso. apply (Hno k Hin). now apply includes_spec.
Qed.

Lemma invalidatePattern_edges_example :
  let c := SmartCache.set 1 "order:2" (Some 2) None
             (SmartCache.set 0 "order:1" (Some 1) None
                (SmartCache.new (mkConfig (num 5) (num 1000) (num 60000) Lru))) in
  fst (CachedQuery.invalidatePattern c EmptyString) = 2%nat /\
  SmartCache.keys (snd (CachedQuery.invalidatePattern c EmptyString)) = [].
Proof.
  cbv zeta.
  destruct (proj1 (invalidatePattern_edges Z
              (SmartCache.set 1 "order:2" (Some 2) None
                 (SmartCache.set 0 "order:1" (Some 1) None
                    (SmartCache.new (mkConfig (num 5) (num 1000) (num 60000) Lru))))))
    as [Hc Hn].
  - repeat constructor; simpl; intuition discriminate.
  - unfold SmartCache.keys. rewrite Hc, Hn. split; reflexivity.
Defined.

(** X14.  The keys that [invalidatePattern] removes are counted as deletes,
    one each, never as evictions; hits, misses and sets are untouched.  When
    at least one key is removed, [totalSize] ends equal to the size. *)
Theorem invalidatePattern_counts_deletes :
  forall (T : Type) (c : SmartCache.t T) pattern,
    JsMap.distinct (SmartCache.cache c) ->
    let r := CachedQuery.invalidatePattern c pattern in
    deletes (SmartCache.getStats (snd r))
    = (deletes (SmartCache.getStats c) + fst r)%nat /\
    evictions (SmartCache.getStats (snd r)) = evictions (SmartCache.getStats c) /\
    hits (SmartCache.getStats (snd r)) = hits (SmartCache.getStats c) /\
    misses (SmartCache.getStats (snd r)) = misses (SmartCache.getStats c) /\
    sets (SmartCache.getStats (snd r)) = sets (SmartCache.getStats c) /\
    ((0 < fst r)%nat ->
     totalSize (SmartCache.getStats (snd r)) = SmartCache.size (snd r)).
Proof.
  intros T c pattern Hd r. unfold SmartCache.getStats.
  destruct (invalidate_fold pattern (SmartCache.keys c) 0%nat c Hd) as [_ En].
  destruct (invalidate_fold_stats pattern (SmartCache.keys c) 0%nat c Hd)
    as (E1 & E2 & E3 & E4 & E5 & E6).
  { intros k Hin. now apply has_true_iff. }
  cbv zeta in E1, E2, E3, E4, E5, E6.
  fold (CachedQuery.invalidatePattern c pattern) in En, E1, E2, E3, E4, E5, E6.
  fold r in En, E1, E2, E3, E4, E5, E6.
  simpl in En. rewrite En.
  repeat split; try assumption.
  intros Hpos. apply E6. now left.
Qed.

Lemma invalidatePattern_counts_deletes_example :
  let c := SmartCache.set 1 "order:2" (Some 2) None
             (SmartCache.set 0 "order:1" (Some 1) None
                (SmartCache.new (mkConfig (num 5) (num 1000) (num 60000) Lru))) in
  deletes (SmartCache.getStats (snd (CachedQuery.invalidatePattern c "order")))
  = (deletes (SmartCache.getStats c)
     + fst (CachedQuery.invalidatePattern c "order"))%nat.
Proof.
  cbv zeta.
  apply (invalidatePattern_counts_deletes Z
           (SmartCache.set 1 "order:2" (Some 2) None
              (SmartCache.set 0 "order:1" (Some 1) None
                 (SmartCache.new (mkConfig (num 5) (num 1000) (num 60000) Lru)))) "order").
  repeat constructor; simpl; intuition discriminate.
Defined.

(** ** Warm-up *)

Section WarmUpFacts.
Context {T : Type}.
Implicit Types (c : SmartCache.t T) (data : list (string * option T)).

Lemma warm_counts clock ttl_ data : forall i c,
  sets (SmartCache.stats
          (snd (fold_left (warmUpStep clock ttl_) data (i, c))))
  = (sets (SmartCache.stats c) + List.length data)%nat /\
  SmartCache.config (snd (fold_left (warmUpStep clock ttl_) data (i, c)))
  = SmartCache.config c /\
  fst (fold_left (warmUpStep clock ttl_) data (i, c))
  = (i + List.length data)%nat.
Proof.
  induction data as [|[k v] data IH]; intros i c; cbn [fold_left].
  - simpl. repeat split; lia.
  - unfold warmUpStep at 2 4 6. cbn [fst snd].
    destruct (IH (S i) (SmartCache.set (clock i) k v ttl_ c)) as (-> & -> & ->).
    rewrite set_config.
    destruct (set_counters (clock i) k v ttl_ c) as (_ & _ & -> & _).
    simpl. repeat split; lia.
Qed.

(** The loop is the run of the [set] calls it makes. *)
Lemma warm_as_run clock ttl_ data : forall i c,
  snd (fold_left (warmUpStep clock ttl_) data (i, c))
  = SmartCache.run (warmUpOps clock ttl_ i data) c.
Proof.
  induction data as [|[k v] data IH]; intros i c; [reflexivity|].
  cbn [fold_left warmUpOps]. unfold warmUpStep at 2. cbn [fst snd].
  now rewrite IH.
Qed.

Lemma warm_tame clock ttl_ cfg data : forall i,
  (forall j, (j < List.length data)%nat ->
             numLt (numAdd (num (clock (i + j)%nat)) (orDefault ttl_ (defaultTtl cfg)))
                   PosInf = true) ->
  Forall (opFinite cfg) (warmUpOps clock ttl_ i data).
Proof.
  induction data as [|[k v] data IH]; intros i Hfin; cbn [warmUpOps];
    constructor.
  - cbn [opFinite]. specialize (Hfin 0%nat). rewrite Nat.add_0_r in Hfin.
    apply Hfin. simpl. lia.
  - apply IH. intros j Hj. specialize (Hfin (S j)).
    rewrite Nat.add_succ_r in Hfin. apply Hfin. simpl. lia.
Qed.

Lemma warm_bound clock ttl_ data c (n : Z) :
  maxSize (SmartCache.config c) = num n ->
  1 <= n ->
  expiriesFinite c ->
  (evictionPolicy (SmartCache.config c) = Ttl ->
   forall j, (j < List.length data)%nat ->
             numLt (numAdd (num (clock j))
                      (orDefault ttl_ (defaultTtl (SmartCache.config c))))
                   PosInf = true) ->
  Z.of_nat (SmartCache.size c) <= n ->
  Z.of_nat (SmartCache.size
              (snd (fold_left (warmUpStep clock ttl_) data (O, c))))
  <= n.
Proof.
  intros Hmax Hpos Hfin Hitems Hle. rewrite warm_as_run.
  apply run_size_bound_integer; auto.
  intros Hp. apply warm_tame. exact (Hitems Hp).
Qed.

(** The last item is stored whatever happens before. *)
Lemma warm_last clock ttl_ pre k v c :
  JsMap.get k
    (SmartCache.cache
       (snd (fold_left (warmUpStep clock ttl_) (pre ++ [(k, v)]) (O, c))))
  = Some (mkEntry v (clock (List.length pre))
            (orDefault ttl_ (defaultTtl (SmartCache.config c))) 1
            (clock (List.length pre))).
Proof.
  rewrite fold_left_app. cbn [fold_left]. unfold warmUpStep at 1.
  cbn [fst snd]. rewrite get_after_set. unfold freshEntry.
  destruct (warm_counts clock ttl_ pre 0%nat c) as (_ & -> & ->).
  reflexivity.
Qed.

Lemma warm_room clock ttl_ data : forall i c,
  (forall s, (s < SmartCache.size c + List.length data)%nat ->
             numGe (num (Z.of_nat s)) (maxSize (SmartCache.config c)) = false) ->
  let c1 := snd (fold_left (warmUpStep clock ttl_) data (i, c)) in
  evictions (SmartCache.stats c1) = evictions (SmartCache.stats c) /\
  (forall k, In k (SmartCache.keys c1)
             <-> In k (SmartCache.keys c) \/ In k (map fst data)) /\
  (forall k, ~ In k (map fst data) ->
             JsMap.get k (SmartCache.cache c1) = JsMap.get k (SmartCache.cache c)) /\
  (forall pre k v post,
      data = pre ++ (k, v) :: post ->
      ~ In k (map fst post) ->
      JsMap.get k (SmartCache.cache c1)
      = Some (mkEntry v (clock (i + List.length pre)%nat)
                (orDefault ttl_ (defaultTtl (SmartCache.config c))) 1
                (clock (i + List.length pre)%nat))).
Proof.
  induction data as [|[k0 v0] data IH]; intros i c Hroom; cbv zeta;
    cbn [fold_left].
  - simpl. split; [reflexivity|]. split; [tauto|]. split; [reflexivity|].
    intros [|? ?] ? ? ? E; discriminate.
  - unfold warmUpStep at 2 4 6 8. cbn [fst snd]. cbn [List.length] in Hroom.
    assert (Hcap : atCapacity c = false) by (apply Hroom; lia).
    destruct (set_below_capacity (clock i) k0 v0 ttl_ c Hcap) as [Ec Ee].
    destruct (IH (S i) (SmartCache.set (clock i) k0 v0 ttl_ c))
      as (Hev & Hk & Hother & Hitem).
    { rewrite set_config. intros s Hs. apply Hroom.
      unfold SmartCache.size in *. rewrite Ec, size_set in Hs.
      destruct (JsMap.has k0 (SmartCache.cache c)); lia. }
    cbv zeta in Hev, Hk, Hother, Hitem. rewrite set_config in Hitem.
    split; [now rewrite Hev|]. split; [|split].
    + intros k. rewrite Hk. unfold SmartCache.keys at 1.
      rewrite Ec, keys_set_iff. simpl. unfold SmartCache.keys. intuition.
    + intros k Hno. rewrite Hother by (intros H; apply Hno; now right).
      rewrite Ec. apply get_set_other. intros ->. apply Hno. now left.
    + intros pre k v post E Hlast. destruct pre as [|x pre].
      * simpl in E. inversion E; subst. rewrite Hother by exact Hlast.
        rewrite Ec, get_set_same. unfold freshEntry. simpl.
        now rewrite Nat.add_0_r.
      * simpl in E. inversion E; subst. cbn [List.length].
        rewrite Nat.add_succ_r. now apply (Hitem pre k v post).
Qed.
End WarmUpFacts.

(** X15.  [warmUpCache] is best effort.  If the loader rejects, the promise
    still resolves and the cache is exactly as it was.  If the loader
    resolves, every item is stored by one [set], in order.  The last item is
    always there afterwards: its key holds its data, with the given ttl (the
    default of the cache when none, 0 or [NaN] is given), an access count of
    one, and the clock reading of its [set] as time stamp and last access.
    When no [set] of the run finds the cache at capacity, nothing is
    evicted, each key that is not among the items keeps its entry, and each
    item that no later item overwrites is stored in that same form.  A cache
    whose [maxSize] is an integer, at least one, and which is within it
    stays within it, provided that under the ['ttl'] policy the stored
    entries and the items have their [timestamp + ttl] below
    [Infinity]. *)
Theorem warmUpCache_best_effort :
  forall (T L E : Type) (clock : nat -> Z) (c : SmartCache.t T)
         (dataLoader : L -> (E + list (string * option T)) * L) (l : L) ttl_,
    (forall err l',
        dataLoader l = (inl err, l') ->
        warmUpCache clock c dataLoader l ttl_ = (c, l'))
    /\
    (forall data l',
        dataLoader l = (inr data, l') ->
        let c1 := fst (warmUpCache clock c dataLoader l ttl_) in
        let stored := fun (i : nat) (v : option T) =>
          mkEntry v (clock i)
            (orDefault ttl_ (defaultTtl (SmartCache.config c))) 1 (clock i) in
        snd (warmUpCache clock c dataLoader l ttl_) = l' /\
        c1 = SmartCache.run (warmUpOps clock ttl_ O data) c /\
        sets (SmartCache.getStats c1)
        = (sets (SmartCache.getStats c) + List.length data)%nat /\
        SmartCache.config c1 = SmartCache.config c /\
        (forall pre k v,
            data = pre ++ [(k, v)] ->
            JsMap.get k (SmartCache.cache c1)
            = Some (stored (List.length pre) v)) /\
        ((forall s, (s < SmartCache.size c + List.length data)%nat ->
                    numGe (num (Z.of_nat s)) (maxSize (SmartCache.config c))
                    = false) ->
         evictions (SmartCache.getStats c1) = evictions (SmartCache.getStats c) /\
         (forall k, In k (SmartCache.keys c1)
                    <-> In k (SmartCache.keys c) \/ In k (map fst data)) /\
         (forall k, ~ In k (map fst data) ->
                    JsMap.get k (SmartCache.cache c1)
                    = JsMap.get k (SmartCache.cache c)) /\
         (forall pre k v post,
             data = pre ++ (k, v) :: post ->
             ~ In k (map fst post) ->
             JsMap.get k (SmartCache.cache c1)
             = Some (stored (List.length pre) v))) /\
        (forall n,
            maxSize (SmartCache.config c) = num n ->
            1 <= n ->
            expiriesFinite c ->
            (evictionPolicy (SmartCache.config c) = Ttl ->
             forall j, (j < List.length data)%nat ->
                       numLt (numAdd (num (clock j))
                                (orDefault ttl_ (defaultTtl (SmartCache.config c))))
                             PosInf = true) ->
            Z.of_nat (SmartCache.size c) <= n ->
            Z.of_nat (SmartCache.size c1) <= n)).
Proof.
  intros T L E clock c dataLoader l ttl_. unfold warmUpCache. split.
  - intros err l' ->. reflexivity.
  - intros data l' ->. cbn [fst snd]. unfold SmartCache.getStats.
    split; [reflexivity|]. split; [apply warm_as_run|].
    split; [apply warm_counts|]. split; [apply warm_counts|].
    split; [|split].
    + intros pre k v ->. apply warm_last.
    + intros Hroom. apply (warm_room clock ttl_ data 0%nat c Hroom).
    + intros n. apply warm_bound.
Qed.

Lemma warmUpCache_best_effort_example :
  let c := SmartCache.new (mkConfig (num 5) (num 1000) (num 60000) Lru) in
  let loader := fun n : nat =>
    (@inr string _ [("p:1", Some 1); ("p:2", Some 2); ("p:1", Some 3)], S n) in
  let c1 := fst (warmUpCache (fun i => Z.of_nat i) c loader 0%nat None) in
  SmartCache.keys c1 = ["p:1"; "p:2"] /\
  JsMap.get "p:1" (SmartCache.cache c1)
  = Some (mkEntry (Some 3) 2 (num 1000) 1 2) /\
  JsMap.get "p:2" (SmartCache.cache c1)
  = Some (mkEntry (Some 2) 1 (num 1000) 1 1) /\
  evictions (SmartCache.getStats c1) = 0%nat /\
  warmUpCache (fun i => Z.of_nat i) c
    (fun n : nat => (@inl string (list (string * option Z)) "down", S n))
    0%nat None
  = (c, 1%nat).
Proof.
  cbv zeta.
  destruct (warmUpCache_best_effort Z nat string (fun i => Z.of_nat i)
              (SmartCache.new (mkConfig (num 5) (num 1000) (num 60000) Lru))
              (fun n : nat =>
                 (inr [("p:1", Some 1); ("p:2", Some 2); ("p:1", Some 3)], S n))
              0%nat None) as [_ Hok].
  destruct (Hok [("p:1", Some 1); ("p:2", Some 2); ("p:1", Some 3)] 1%nat eq_refl)
    as (_ & _ & _ & _ & Hlast & Hroom & _).
  cbv zeta in Hlast, Hroom.
  destruct Hroom as (He & _ & _ & Hitem).
  { intros s Hs. simpl in Hs.
    change (numGe (num (Z.of_nat s)) (num 5) = false).
    apply numGe_num_false. lia. }
  split; [reflexivity|].
  split; [exact (Hlast [("p:1", Some 1); ("p:2", Some 2)] "p:1" (Some 3) eq_refl)|].
  split.
  - apply (Hitem [("p:1", Some 1)] "p:2" (Some 2) [("p:1", Some 3)] eq_refl).
    simpl. intuition discriminate.
  - split; [exact He|].
    apply (proj1 (warmUpCache_best_effort Z nat string (fun i => Z.of_nat i)
                    (SmartCache.new (mkConfig (num 5) (num 1000) (num 60000) Lru))
                    (fun n : nat =>
                       (@inl string (list (string * option Z)) "down", S n))
                    0%nat None) "down" 1%nat).
    reflexivity.
Defined.

(** ** Invalidation recipes *)

Section InvalidationFacts.
Context {T : Type}.
Implicit Types (c : SmartCache.t T) (m : CacheManager.t T).

Lemma append_assoc (s1 s2 s3 : string) :
  ((s1 ++ s2) ++ s3 = s1 ++ (s2 ++ s3))%string.
Proof. induction s1 as [|a s1 IH]; simpl; [reflexivity | now rewrite IH]. Qed.

(** A key that contains a longer pattern contains each pattern the longer
    one starts with. *)
Lemma isSubstring_shorter (p suffix k : string) :
  isSubstring (p ++ suffix)%string k -> isSubstring p k.
Proof.
  intros (pre & post & ->). exists pre, (suffix ++ post)%string.
  now rewrite append_assoc.
Qed.

Lemma keys_filter_iff (g : string -> bool) (r : JsMap.t (CacheEntry T)) k :
  In k (JsMap.keys (filter (fun kv => g (fst kv)) r))
  <-> In k (JsMap.keys r) /\ g k = true.
Proof. rewrite <- filter_keys. apply filter_In. Qed.

Lemma deleteKey_cache key c :
  JsMap.distinct (SmartCache.cache c) ->
  SmartCache.cache (CacheInvalidation.deleteKey key c)
  = filter (fun kv => negb (String.eqb key (fst kv))) (SmartCache.cache c).
Proof.
  intros Hd. unfold CacheInvalidation.deleteKey.
  now rewrite delete_cache, delete_filter.
Qed.

Lemma invalidate_cache pattern c :
  JsMap.distinct (SmartCache.cache c) ->
  SmartCache.cache (CacheInvalidation.invalidate pattern c)
  = filter (fun kv => negb (includes (fst kv) pattern)) (SmartCache.cache c).
Proof. intros Hd. now apply invalidatePattern_result. Qed.

(** Delete one key, then invalidate by pattern, on the same cache. *)
Lemma delete_then_invalidate key pattern c :
  JsMap.distinct (SmartCache.cache c) ->
  SmartCache.cache
    (CacheInvalidation.invalidate pattern (CacheInvalidation.deleteKey key c))
  = filter (fun kv => negb (String.eqb key (fst kv))
                      && negb (includes (fst kv) pattern))
      (SmartCache.cache c).
Proof.
  intros Hd. rewrite invalidate_cache.
  - rewrite deleteKey_cache by assumption. apply filter_filter.
  - rewrite deleteKey_cache by assumption. now apply distinct_filter.
Qed.

Lemma deref_same a f m :
  CacheManager.deref a (CacheManager.onCache a f m)
  = option_map f (CacheManager.deref a m).
Proof. now rewrite deref_onCache, Nat.eqb_refl. Qed.

Lemma deref_other a b f m :
  a <> b ->
  CacheManager.deref b (CacheManager.onCache a f m) = CacheManager.deref b m.
Proof.
  intros Hne. rewrite deref_onCache.
  destruct (Nat.eqb_spec a b); [contradiction | reflexivity].
Qed.
End InvalidationFacts.

(** X16.  After [invalidateProductCaches(productId)] the product cache holds
    exactly its former entries whose key is neither ["product:" + productId]
    nor contains ["list"], and the search cache exactly its former entries
    whose key does not contain ["product"].  Every other cache object and the
    registry are untouched. *)
Theorem invalidateProductCaches_effect :
  forall (T : Type) (d : CacheInvalidation.DomainCaches)
         (m : CacheManager.t T) productId cP cS,
    CacheInvalidation.ProductCache d <> CacheInvalidation.SearchCache d ->
    CacheManager.deref (CacheInvalidation.ProductCache d) m = Some cP ->
    CacheManager.deref (CacheInvalidation.SearchCache d) m = Some cS ->
    JsMap.distinct (SmartCache.cache cP) ->
    JsMap.distinct (SmartCache.cache cS) ->
    let m' := CacheInvalidation.invalidateProductCaches d productId m in
    exists cP' cS',
      CacheManager.deref (CacheInvalidation.ProductCache d) m' = Some cP' /\
      CacheManager.deref (CacheInvalidation.SearchCache d) m' = Some cS' /\
      SmartCache.cache cP'
      = filter (fun kv => negb (String.eqb ("product:" ++ productId) (fst kv))
                          && negb (includes (fst kv) "list"))
          (SmartCache.cache cP) /\
      SmartCache.cache cS'
      = filter (fun kv => negb (includes (fst kv) "product"))
          (SmartCache.cache cS) /\
      (forall k, In k (SmartCache.keys cP') <->
                 In k (SmartCache.keys cP) /\
                 k <> ("product:" ++ productId)%string /\
                 ~ isSubstring "list" k) /\
      (forall k, In k (SmartCache.keys cS') <->
                 In k (SmartCache.keys cS) /\ ~ isSubstring "product" k) /\
      (forall b, b <> CacheInvalidation.ProductCache d ->
                 b <> CacheInvalidation.SearchCache d ->
                 CacheManager.deref b m' = CacheManager.deref b m) /\
      CacheManager.caches m' = CacheManager.caches m.
Proof.
  intros T d m productId cP cS Hne HP HS HdP HdS m'.
  exists (CacheInvalidation.invalidate "list"
            (CacheInvalidation.deleteKey ("product:" ++ productId) cP)),
         (CacheInvalidation.invalidate "product" cS).
  assert (EP : SmartCache.cache
                 (CacheInvalidation.invalidate "list"
                    (CacheInvalidation.deleteKey ("product:" ++ productId) cP))
               = filter (fun kv =>
                           negb (String.eqb ("product:" ++ productId) (fst kv))
                           && negb (includes (fst kv) "list"))
                   (SmartCache.cache cP))
    by now apply delete_then_invalidate.
  assert (ES : SmartCache.cache (CacheInvalidation.invalidate "product" cS)
               = filter (fun kv => negb (includes (fst kv) "product"))
                   (SmartCache.cache cS))
    by now apply invalidate_cache.
  subst m'. unfold CacheInvalidation.invalidateProductCaches.
  split; [|split; [|split; [exact EP|split; [exact ES|split; [|split; [|split]]]]]].
  - rewrite deref_same, deref_other, deref_same, HP by congruence. reflexivity.
  - rewrite deref_other, deref_same, deref_other, HS by congruence. reflexivity.
  - intros k. unfold SmartCache.keys. rewrite EP.
    rewrite (keys_filter_iff
               (fun k => negb (String.eqb ("product:" ++ productId) k)
                         && negb (includes k "list"))).
    rewrite andb_true_iff, !negb_true_iff, String.eqb_neq, <- includes_spec.
    destruct (includes k "list"); intuition congruence.
  - intros k. unfold SmartCache.keys. rewrite ES.
    rewrite (keys_filter_iff (fun k => negb (includes k "product"))).
    rewrite negb_true_iff, <- includes_spec.
    destruct (includes k "product"); intuition congruence.
  - intros b HbP HbS. rewrite !deref_other by congruence. reflexivity.
  - reflexivity.
Qed.

Lemma invalidateProductCaches_effect_example :
  let loaded := CacheInvalidation.load (T := Z) CacheManager.empty in
  let d := fst loaded in
  let m :=
    CacheManager.onCache (CacheInvalidation.SearchCache d)
      (SmartCache.set 2 "q:product shoes" (Some 3) None)
      (CacheManager.onCache (CacheInvalidation.ProductCache d)
         (SmartCache.set 1 "product:list:1" (Some 2) None)
         (CacheManager.onCache (CacheInvalidation.ProductCache d)
            (SmartCache.set 0 "product:7" (Some 1) None) (snd loaded))) in
  exists cP' cS',
    CacheManager.deref (CacheInvalidation.ProductCache d)
      (CacheInvalidation.invalidateProductCaches d "7" m) = Some cP' /\
    CacheManager.deref (CacheInvalidation.SearchCache d)
      (CacheInvalidation.invalidateProductCaches d "7" m) = Some cS' /\
    SmartCache.keys cP' = [] /\ SmartCache.keys cS' = [].
Proof.
  cbv zeta.
  edestruct (invalidateProductCaches_effect Z
               (fst (CacheInvalidation.load (T := Z) CacheManager.empty))
               (CacheManager.onCache 3
                  (SmartCache.set 2 "q:product shoes" (Some 3) None)
                  (CacheManager.onCache 0
                     (SmartCache.set 1 "product:list:1" (Some 2) None)
                     (CacheManager.onCache 0
                        (SmartCache.set 0 "product:7" (Some 1) None)
                        (snd (CacheInvalidation.load CacheManager.empty)))))
               "7")
    as (cP' & cS' & HP & HS & EP & ES & _).
  - simpl. lia.
  - reflexivity.
  - reflexivity.
  - repeat constructor; simpl; intuition discriminate.
  - repeat constructor; simpl; intuition discriminate.
  - exists cP', cS'. split; [exact HP|]. split; [exact HS|].
    unfold SmartCache.keys. rewrite EP, ES. split; reflexivity.
Defined.

(** X17.  After [invalidateCustomerCaches(customerId)] the customer cache has
    lost the key ["customer:" + customerId] and nothing else, and the order
    cache holds exactly its former entries whose key does not contain
    ["customer:" + customerId].  The match is by substring, so the order
    entries of every customer whose id starts with [customerId] are removed
    as well. *)
Theorem invalidateCustomerCaches_effect :
  forall (T : Type) (d : CacheInvalidation.DomainCaches)
         (m : CacheManager.t T) customerId cC cO,
    CacheInvalidation.CustomerCache d <> CacheInvalidation.OrderCache d ->
    CacheManager.deref (CacheInvalidation.CustomerCache d) m = Some cC ->
    CacheManager.deref (CacheInvalidation.OrderCache d) m = Some cO ->
    JsMap.distinct (SmartCache.cache cC) ->
    JsMap.distinct (SmartCache.cache cO) ->
    let m' := CacheInvalidation.invalidateCustomerCaches d customerId m in
    exists cC' cO',
      CacheManager.deref (CacheInvalidation.CustomerCache d) m' = Some cC' /\
      CacheManager.deref (CacheInvalidation.OrderCache d) m' = Some cO' /\
      SmartCache.cache cC'
      = filter (fun kv => negb (String.eqb ("customer:" ++ customerId) (fst kv)))
          (SmartCache.cache cC) /\
      SmartCache.cache cO'
      = filter (fun kv => negb (includes (fst kv) ("customer:" ++ customerId)))
          (SmartCache.cache cO) /\
      (forall k suffix,
          isSubstring ("customer:" ++ customerId ++ suffix) k ->
          ~ In k (SmartCache.keys cO')) /\
      (forall b, b <> CacheInvalidation.CustomerCache d ->
                 b <> CacheInvalidation.OrderCache d ->
                 CacheManager.deref b m' = CacheManager.deref b m).
Proof.
  intros T d m customerId cC cO Hne HC HO HdC HdO m'.
  exists (CacheInvalidation.deleteKey ("customer:" ++ customerId) cC),
         (CacheInvalidation.invalidate ("customer:" ++ customerId) cO).
  assert (EO : SmartCache.cache
                 (CacheInvalidation.invalidate ("customer:" ++ customerId) cO)
               = filter (fun kv =>
                           negb (includes (fst kv) ("customer:" ++ customerId)))
                   (SmartCache.cache cO))
    by now apply invalidate_cache.
  subst m'. unfold CacheInvalidation.invalidateCustomerCaches.
  split; [|split; [|split; [|split; [exact EO|split]]]].
  - rewrite deref_other, deref_same, HC by congruence. reflexivity.
  - rewrite deref_same, deref_other, HO by congruence. reflexivity.
  - now apply deleteKey_cache.
  - intros k suffix Hsub Hin. unfold SmartCache.keys in Hin. rewrite EO in Hin.
    apply (keys_filter_iff
             (fun k => negb (includes k ("customer:" ++ customerId)))) in Hin.
    destruct Hin as [_ Hno]. apply negb_true_iff in Hno.
    assert (Hyes : includes k ("customer:" ++ customerId) = true).
    { apply includes_spec. apply (isSubstring_shorter _ suffix).
      now rewrite append_assoc. }
    congruence.
  - intros b HbC HbO. rewrite !deref_other by congruence. reflexivity.
Qed.

Lemma invalidateCustomerCaches_effect_example :
  let loaded := CacheInvalidation.load (T := Z) CacheManager.empty in
  let d := fst loaded in
  let m :=
    CacheManager.onCache (CacheInvalidation.OrderCache d)
      (SmartCache.set 1 "orders:customer:2" (Some 2) None)
      (CacheManager.onCache (CacheInvalidation.OrderCache d)
         (SmartCache.set 0 "orders:customer:12" (Some 1) None) (snd loaded)) in
  exists cO',
    CacheManager.deref (CacheInvalidation.OrderCache d)
      (CacheInvalidation.invalidateCustomerCaches d "1" m) = Some cO' /\
    SmartCache.keys cO' = ["orders:customer:2"].
Proof.
  cbv zeta.
  edestruct (invalidateCustomerCaches_effect Z
               (fst (CacheInvalidation.load (T := Z) CacheManager.empty))
               (CacheManager.onCache 2
                  (SmartCache.set 1 "orders:customer:2" (Some 2) None)
                  (CacheManager.onCache 2
                     (SmartCache.set 0 "orders:customer:12" (Some 1) None)
                     (snd (CacheInvalidation.load CacheManager.empty))))
               "1")
    as (cC' & cO' & _ & HO & _ & EO & _).
  - simpl. lia.
  - reflexivity.
  - reflexivity.
  - constructor.
  - repeat constructor; simpl; intuition discriminate.
  - exists cO'. split; [exact HO|].
    unfold SmartCache.keys. rewrite EO. reflexivity.
Defined.

(** X18.  [invalidateOrderCaches(orderId, customerId)] always removes the key
    ["order:" + orderId] from the order cache.  With a customer id that is
    not empty it also removes every key containing
    ["customer:" + customerId]; with no customer id, or with the empty
    string, it removes nothing more.  No other cache object is touched. *)
Theorem invalidateOrderCaches_effect :
  forall (T : Type) (d : CacheInvalidation.DomainCaches)
         (m : CacheManager.t T) orderId customerId cO,
    CacheManager.deref (CacheInvalidation.OrderCache d) m = Some cO ->
    JsMap.distinct (SmartCache.cache cO) ->
    let m' := CacheInvalidation.invalidateOrderCaches d orderId customerId m in
    exists cO',
      CacheManager.deref (CacheInvalidation.OrderCache d) m' = Some cO' /\
      JsMap.get ("order:" ++ orderId) (SmartCache.cache cO') = None /\
      (customerId = None \/ customerId = Some EmptyString ->
       SmartCache.cache cO'
       = filter (fun kv => negb (String.eqb ("order:" ++ orderId) (fst kv)))
           (SmartCache.cache cO)) /\
      (forall cid,
          customerId = Some cid -> cid <> EmptyString ->
          SmartCache.cache cO'
          = filter (fun kv => negb (String.eqb ("order:" ++ orderId) (fst kv))
                              && negb (includes (fst kv) ("customer:" ++ cid)))
              (SmartCache.cache cO)) /\
      (forall b, b <> CacheInvalidation.OrderCache d ->
                 CacheManager.deref b m' = CacheManager.deref b m).
Proof.
  intros T d m orderId customerId cO HO Hd m'.
  assert (Hgone : forall (g : string * CacheEntry T -> bool),
    JsMap.get ("order:" ++ orderId)
      (filter (fun kv => negb (String.eqb ("order:" ++ orderId) (fst kv)) && g kv)
         (SmartCache.cache cO)) = None).
  { intros g. apply has_get. apply has_false_iff. unfold JsMap.keys.
    intros Hin. apply in_map_iff in Hin. destruct Hin as ([k e] & Ek & Hin).
    apply filter_In in Hin. destruct Hin as [_ Hf]. simpl in Ek, Hf. subst k.
    now rewrite String.eqb_refl in Hf. }
  assert (E1 : SmartCache.cache
                 (CacheInvalidation.deleteKey ("order:" ++ orderId) cO)
               = filter (fun kv =>
                           negb (String.eqb ("order:" ++ orderId) (fst kv)))
                   (SmartCache.cache cO))
    by now apply deleteKey_cache.
  subst m'. unfold CacheInvalidation.invalidateOrderCaches.
  destruct customerId as [cid|];
    [destruct (String.eqb_spec cid EmptyString) as [->|Hcid]|].
  - exists (CacheInvalidation.deleteKey ("order:" ++ orderId) cO).
    rewrite deref_same, HO. split; [reflexivity|]. split.
    + rewrite E1. specialize (Hgone (fun _ => true)).
      erewrite filter_ext; [exact Hgone|]. intros kv. cbv beta.
      now rewrite andb_true_r.
    + split; [intros _; exact E1|]. split; [intros cid [= <-]; congruence|].
      intros b Hb. now rewrite deref_other by congruence.
  - exists (CacheInvalidation.invalidate ("customer:" ++ cid)
              (CacheInvalidation.deleteKey ("order:" ++ orderId) cO)).
    assert (E2 := delete_then_invalidate ("order:" ++ orderId)%string
                    ("customer:" ++ cid)%string cO Hd).
    rewrite deref_same, deref_same, HO. split; [reflexivity|]. split.
    + rewrite E2. apply (Hgone (fun kv => negb (includes (fst kv) ("customer:" ++ cid)))).
    + split; [intros [H|H]; congruence|].
      split; [intros cid' [= <-] _; exact E2|].
      intros b Hb. now rewrite !deref_other by congruence.
  - exists (CacheInvalidation.deleteKey ("order:" ++ orderId) cO).
    rewrite deref_same, HO. split; [reflexivity|]. split.
    + rewrite E1. specialize (Hgone (fun _ => true)).
      erewrite filter_ext; [exact Hgone|]. intros kv. cbv beta.
      now rewrite andb_true_r.
    + split; [intros _; exact E1|]. split; [discriminate|].
      intros b Hb. now rewrite deref_other by congruence.
Qed.

Lemma invalidateOrderCaches_effect_example :
  let loaded := CacheInvalidation.load (T := Z) CacheManager.empty in
  let d := fst loaded in
  let m :=
    CacheManager.onCache (CacheInvalidation.OrderCache d)
      (SmartCache.set 1 "orders:customer:2" (Some 2) None)
      (CacheManager.onCache (CacheInvalidation.OrderCache d)
         (SmartCache.set 0 "order:9" (Some 1) None) (snd loaded)) in
  exists cO',
    CacheManager.deref (CacheInvalidation.OrderCache d)
      (CacheInvalidation.invalidateOrderCaches d "9" (Some EmptyString) m)
    = Some cO' /\
    SmartCache.keys cO' = ["orders:customer:2"].
Proof.
  cbv zeta.
  edestruct (invalidateOrderCaches_effect Z
               (fst (CacheInvalidation.load (T := Z) CacheManager.empty))
               (CacheManager.onCache 2
                  (SmartCache.set 1 "orders:customer:2" (Some 2) None)
                  (CacheManager.onCache 2
                     (SmartCache.set 0 "order:9" (Some 1) None)
                     (snd (CacheInvalidation.load CacheManager.empty))))
               "9" (Some EmptyString))
    as (cO' & HO & _ & EO & _).
  - reflexivity.
  - repeat constructor; simpl; intuition discriminate.
  - exists cO'. split; [exact HO|].
    unfold SmartCache.keys. rewrite EO by (now right). reflexivity.
Defined.

(** ** The health report *)

Section ReportFacts.
Variable toFixed1 : Q -> string.

Lemma Qltb_rateOf (h m : nat) (k : Z) :
  0 < k ->
  Qltb (rateOf h m) (inject_Z k) = true <->
  (h + m = 0)%nat \/ 100 * Z.of_nat h < k * Z.of_nat (h + m).
Proof.
  intros Hk. unfold Qltb, rateOf. rewrite negb_true_iff, <- not_true_iff_false.
  rewrite Qle_bool_iff.
  destruct (Nat.ltb_spec 0 (h + m)) as [Hpos|Hz].
  - destruct (Z.of_nat (h + m)) as [|p|p] eqn:Ep; try lia.
    cbv [Qle Qmult Qdiv Qinv inject_Z Qnum Qden].
    split; [intros H; right; nia | intros [H|H]; nia].
  - unfold Qle. simpl. split; [intros _; left; lia | intros _; lia].
Qed.

Lemma Qltb_eviction_share (s e : nat) :
  Qltb (Qmult (inject_Z (Z.of_nat s)) (3 # 10)) (inject_Z (Z.of_nat e)) = true
  <-> (3 * s < 10 * e)%nat.
Proof.
  rewrite Qltb_lt. cbv [Qlt Qmult inject_Z Qnum Qden]. lia.
Qed.

Lemma sumOver_cons (f : CacheStats -> nat) entry stats :
  sumOver f (entry :: stats) = (f (snd entry) + sumOver f stats)%nat.
Proof. reflexivity. Qed.

Lemma report_fold stats : forall acc,
  CacheMonitoring.totalHits (fold_left (CacheMonitoring.reportStep toFixed1) stats acc)
  = (CacheMonitoring.totalHits acc + sumOver hits stats)%nat /\
  CacheMonitoring.totalRequests
    (fold_left (CacheMonitoring.reportStep toFixed1) stats acc)
  = (CacheMonitoring.totalRequests acc
     + (sumOver hits stats + sumOver misses stats))%nat /\
  CacheMonitoring.runningSize
    (fold_left (CacheMonitoring.reportStep toFixed1) stats acc)
  = (CacheMonitoring.runningSize acc + sumOver totalSize stats)%nat /\
  CacheMonitoring.pushed (fold_left (CacheMonitoring.reportStep toFixed1) stats acc)
  = CacheMonitoring.pushed acc ++ flat_map (recommendationsFor toFixed1) stats.
Proof.
  induction stats as [|entry stats IH]; intros acc; cbn [fold_left].
  - simpl. rewrite app_nil_r. repeat split; lia.
  - destruct (IH (CacheMonitoring.reportStep toFixed1 acc entry))
      as (-> & -> & -> & ->).
    rewrite !sumOver_cons. cbn [flat_map].
    unfold CacheMonitoring.reportStep, recommendationsFor.
    cbn [CacheMonitoring.totalHits CacheMonitoring.totalRequests
         CacheMonitoring.runningSize CacheMonitoring.pushed].
    repeat split; try lia.
    destruct (Qltb (hitRate (snd entry)) (inject_Z 50));
      destruct (Qltb _ (inject_Z (Z.of_nat (evictions (snd entry)))));
      now rewrite <- ?app_assoc.
Qed.
End ReportFacts.

(** X19.  The report adds up hits, requests and [totalSize] over the
    properties that [Object.entries] lists for the result of [getAllStats]:
    the registered caches other than one named [__proto__].  Its health
    follows from the total hits [H] and total misses [M] alone: critical
    when no lookup was counted at all or when [7 H < 3 M] (rate below 30),
    warning when the rate is at least 30 and [2 H < 3 M] (rate below 60),
    healthy otherwise.  So a registry whose caches have served no lookup yet
    is reported critical. *)
Theorem generateReport_health :
  forall (T : Type) (toFixed1 : Q -> string) (m : CacheManager.t T),
    let r := CacheMonitoring.generateReport toFixed1 m in
    let listed := JsObject.entries (CacheManager.getAllStats m) in
    let H := sumOver hits listed in
    let M := sumOver misses listed in
    CacheMonitoring.caches r = CacheManager.getAllStats m /\
    CacheMonitoring.totalHitRate (CacheMonitoring.overall r) = rateOf H M /\
    CacheMonitoring.overallTotalSize (CacheMonitoring.overall r)
    = sumOver totalSize listed /\
    (CacheMonitoring.healthStatus (CacheMonitoring.overall r)
     = CacheMonitoring.critical
     <-> (H + M = 0 \/ 7 * H < 3 * M)%nat) /\
    (CacheMonitoring.healthStatus (CacheMonitoring.overall r)
     = CacheMonitoring.warning
     <-> (0 < H + M /\ 3 * M <= 7 * H /\ 2 * H < 3 * M)%nat) /\
    (CacheMonitoring.healthStatus (CacheMonitoring.overall r)
     = CacheMonitoring.healthy
     <-> (0 < H + M /\ 3 * M <= 2 * H)%nat) /\
    (JsMap.distinct (CacheManager.caches m) ->
     Permutation listed (reported m) /\
     forall f, sumOver f listed = sumOver f (reported m)).
Proof.
  intros T toFixed1 m r listed H M.
  destruct (report_fold toFixed1 listed (CacheMonitoring.mkRunning [] 0 0 0))
    as (Eh & Er & Es & _).
  cbn [CacheMonitoring.totalHits CacheMonitoring.totalRequests
       CacheMonitoring.runningSize Nat.add] in Eh, Er, Es.
  fold H in Eh, Er. fold M in Er.
  assert (Erate : CacheMonitoring.totalHitRate (CacheMonitoring.overall r)
                  = rateOf H M).
  { subst r. unfold CacheMonitoring.generateReport.
    cbn [CacheMonitoring.overall CacheMonitoring.totalHitRate].
    fold listed. rewrite Eh, Er. reflexivity. }
  assert (Estatus : CacheMonitoring.healthStatus (CacheMonitoring.overall r)
                    = if Qltb (rateOf H M) (inject_Z 30) then CacheMonitoring.critical
                      else if Qltb (rateOf H M) (inject_Z 60)
                           then CacheMonitoring.warning
                           else CacheMonitoring.healthy).
  { subst r. unfold CacheMonitoring.generateReport.
    cbn [CacheMonitoring.overall CacheMonitoring.healthStatus].
    fold listed. rewrite Eh, Er. reflexivity. }
  split; [reflexivity|]. split; [exact Erate|]. split; [exact Es|].
  assert (Hperm : JsMap.distinct (CacheManager.caches m) ->
                  Permutation listed (reported m)).
  { intros Hd. subst listed. unfold JsObject.entries.
    rewrite (getAllStats_own m Hd). apply ordered_perm. }
  rewrite Estatus.
  pose proof (Qltb_rateOf H M 30 ltac:(lia)) as H30.
  pose proof (Qltb_rateOf H M 60 ltac:(lia)) as H60.
  assert (Hlast : JsMap.distinct (CacheManager.caches m) ->
                  Permutation listed (reported m) /\
                  forall f, sumOver f listed = sumOver f (reported m)).
  { intros Hd. split; [now apply Hperm|].
    intros f. apply sumOver_perm. now apply Hperm. }
  destruct (Qltb (rateOf H M) (inject_Z 30)) eqn:E30;
    destruct (Qltb (rateOf H M) (inject_Z 60)) eqn:E60;
    (split; [|split; [|split; [|exact Hlast]]]);
    split; intros; try discriminate; try reflexivity;
    try (assert (Hc : true = true) by reflexivity;
         first [apply H30 in Hc | apply H60 in Hc]);
    try (assert (Hf : ~ ((H + M = 0)%nat \/ 100 * Z.of_nat H < 30 * Z.of_nat (H + M)))
           by (intros Hx; apply H30 in Hx; discriminate));
    try (assert (Hg : ~ ((H + M = 0)%nat \/ 100 * Z.of_nat H < 60 * Z.of_nat (H + M)))
           by (intros Hx; apply H60 in Hx; discriminate));
    lia.
Qed.

(** X20.  The recommendations of the report are the messages of the listed
    caches, one cache after the other in the order of [Object.entries], and
    nothing else.  A cache contributes its low-hit-rate message when its
    stored [hitRate] is below 50, followed by its high-eviction message when
    [evictions > 0.3 * sets], that is [10 * evictions > 3 * sets]; each at
    most once.  A listed cache that has counted no lookup has rate 0 and so
    is always reported for a low hit rate. *)
Theorem generateReport_recommendations :
  forall (T : Type) (toFixed1 : Q -> string) (m : CacheManager.t T),
    let r := CacheMonitoring.generateReport toFixed1 m in
    let listed := JsObject.entries (CacheManager.getAllStats m) in
    CacheMonitoring.recommendations r
    = flat_map (recommendationsFor toFixed1) listed /\
    (forall name stat,
        let low := Qlt (hitRate stat) (inject_Z 50) in
        let high := (3 * sets stat < 10 * evictions stat)%nat in
        let lowText := CacheMonitoring.lowHitRateText toFixed1 name stat in
        let highText := CacheMonitoring.highEvictionText name in
        (low -> high ->
         recommendationsFor toFixed1 (name, stat) = [lowText; highText]) /\
        (low -> ~ high -> recommendationsFor toFixed1 (name, stat) = [lowText]) /\
        (~ low -> high -> recommendationsFor toFixed1 (name, stat) = [highText]) /\
        (~ low -> ~ high -> recommendationsFor toFixed1 (name, stat) = [])) /\
    (forall name stat,
        In (name, stat) listed ->
        hitRate stat = rateOf (hits stat) (misses stat) ->
        (hits stat + misses stat = 0)%nat ->
        In (CacheMonitoring.lowHitRateText toFixed1 name stat)
           (CacheMonitoring.recommendations r)) /\
    (JsMap.distinct (CacheManager.caches m) ->
     Permutation listed (reported m)).
Proof.
  intros T toFixed1 m r listed.
  assert (Er : CacheMonitoring.recommendations r
               = flat_map (recommendationsFor toFixed1) listed).
  { subst r. unfold CacheMonitoring.generateReport.
    cbn [CacheMonitoring.recommendations]. fold listed.
    now rewrite (proj2 (proj2 (proj2 (report_fold toFixed1 _ _)))). }
  assert (Hcases : forall name stat,
    recommendationsFor toFixed1 (name, stat)
    = (if Qltb (hitRate stat) (inject_Z 50)
       then [CacheMonitoring.lowHitRateText toFixed1 name stat] else [])
      ++ (if (3 * sets stat <? 10 * evictions stat)%nat
          then [CacheMonitoring.highEvictionText name] else [])).
  { intros name stat. unfold recommendationsFor. cbn [fst snd]. f_equal.
    pose proof (Qltb_eviction_share (sets stat) (evictions stat)) as Hshare.
    destruct (Nat.ltb_spec (3 * sets stat) (10 * evictions stat)) as [Hlt|Hge].
    - now rewrite (proj2 Hshare Hlt).
    - assert (E : Qltb (Qmult (inject_Z (Z.of_nat (sets stat))) (3 # 10))
                       (inject_Z (Z.of_nat (evictions stat))) = false).
      { apply not_true_iff_false. intros E. apply Hshare in E. lia. }
      now rewrite E. }
  split; [exact Er|]. split; [|split].
  - intros name stat low high lowText highText. subst low high.
    rewrite Hcases. fold lowText highText.
    pose proof (Qltb_lt (hitRate stat) (inject_Z 50)) as Hlow.
    destruct (Qltb (hitRate stat) (inject_Z 50));
      destruct (Nat.ltb_spec (3 * sets stat) (10 * evictions stat));
      repeat split; intros; try reflexivity;
      try (exfalso; lia);
      try (exfalso; assert (Hx : false = true) by (now apply Hlow); discriminate);
      try (exfalso; assert (Hx : Qlt (hitRate stat) (inject_Z 50))
                      by (now apply Hlow); contradiction).
  - intros name stat Hin Hrate Hidle. rewrite Er. apply in_flat_map.
    exists (name, stat). split; [exact Hin|]. rewrite Hcases.
    apply in_or_app. left.
    assert (Hlow : Qltb (hitRate stat) (inject_Z 50) = true).
    { rewrite Hrate. apply Qltb_rateOf; [lia | now left]. }
    rewrite Hlow. now left.
  - intros Hd. subst listed. unfold JsObject.entries.
    rewrite (getAllStats_own m Hd). apply ordered_perm.
Qed.

Lemma generateReport_recommendations_example :
  let m := snd (CacheInvalidation.load (T := Z) CacheManager.empty) in
  CacheMonitoring.recommendations
    (CacheMonitoring.generateReport (fun _ => "0.0") m)
  = [CacheMonitoring.lowHitRateText (fun _ => "0.0") "products"
       SmartCache.initialStats;
     CacheMonitoring.lowHitRateText (fun _ => "0.0") "customers"
       SmartCache.initialStats;
     CacheMonitoring.lowHitRateText (fun _ => "0.0") "orders"
       SmartCache.initialStats;
     CacheMonitoring.lowHitRateText (fun _ => "0.0") "search"
       SmartCache.initialStats] /\
  In (CacheMonitoring.lowHitRateText (fun _ => "0.0") "orders"
        SmartCache.initialStats)
     (CacheMonitoring.recommendations
        (CacheMonitoring.generateReport (fun _ => "0.0") m)).
Proof.
  cbv zeta.
  destruct (generateReport_recommendations Z (fun _ => "0.0")
              (snd (CacheInvalidation.load CacheManager.empty)))
    as (Er & _ & Hidle & _).
  split.
  - rewrite Er. reflexivity.
  - apply (Hidle "orders" SmartCache.initialStats).
    + simpl. tauto.
    + reflexivity.
    + reflexivity.
Defined.

(** ** Refreshing an expired entry through [getWithCache] *)

Lemma evictEntry_still_absent {T : Type} (c : SmartCache.t T) key :
  JsMap.has key (SmartCache.cache c) = false ->
  JsMap.has key (SmartCache.cache (SmartCache.evictEntry c)) = false.
Proof.
  intros Hh. unfold SmartCache.evictEntry.
  destruct (JsMap.size (SmartCache.cache c) =? 0)%nat; [exact Hh|].
  simpl. now apply has_delete_still_absent.
Qed.

(** X21.  When [getWithCache] finds the entry of its key expired and the
    loader resolves, [get] removes the entry and counts one miss and one
    eviction, and [set] counts one set and stores the freshly loaded value as
    a new entry at the end of the iteration order, not in the place of the
    old one.  If the cache is below capacity once the expired entry is
    removed, nothing else is removed and the size is as before.  If it is
    still at capacity then, because it held more than [maxSize] entries or
    because [maxSize] is zero or negative, [set] runs [evictEntry] first,
    which counts one more eviction unless the cache is empty. *)
Theorem getWithCache_refreshes_expired :
  forall (T L E : Type) (c : SmartCache.t T)
         (queryFn : L -> (E + option T) * L) (l l' : L)
         key e v ttl_ now now' now'',
    JsMap.distinct (SmartCache.cache c) ->
    JsMap.get key (SmartCache.cache c) = Some e ->
    SmartCache.isExpired now e = true ->
    queryFn l = (inr v, l') ->
    let r := CachedQuery.getWithCache now now' now'' key c queryFn l ttl_ in
    let afterGet := snd (SmartCache.get now now' key c) in
    let entry :=
      mkEntry v now'' (orDefault ttl_ (defaultTtl (SmartCache.config c))) 1 now'' in
    fst (fst r) = inr v /\
    snd r = l' /\
    SmartCache.cache afterGet = JsMap.delete key (SmartCache.cache c) /\
    S (SmartCache.size afterGet) = SmartCache.size c /\
    misses (SmartCache.getStats (snd (fst r)))
    = S (misses (SmartCache.getStats c)) /\
    sets (SmartCache.getStats (snd (fst r))) = S (sets (SmartCache.getStats c)) /\
    (atCapacity afterGet = false ->
     SmartCache.cache (snd (fst r))
     = JsMap.delete key (SmartCache.cache c) ++ [(key, entry)] /\
     evictions (SmartCache.getStats (snd (fst r)))
     = S (evictions (SmartCache.getStats c)) /\
     SmartCache.size (snd (fst r)) = SmartCache.size c) /\
    (atCapacity afterGet = true ->
     SmartCache.cache (snd (fst r))
     = SmartCache.cache (SmartCache.evictEntry afterGet) ++ [(key, entry)] /\
     evictions (SmartCache.getStats (snd (fst r)))
     = (S (evictions (SmartCache.getStats c))
        + if (SmartCache.size afterGet =? 0)%nat then 0 else 1)%nat).
Proof.
  intros T L E c queryFn l l' key e v ttl_ now now' now'' Hd Hg Hexp Hq
         r afterGet entry.
  unfold SmartCache.getStats.
  pose proof (get_expired_result now now' key c e Hg Hexp) as Hget.
  assert (Hh : JsMap.has key (SmartCache.cache c) = true)
    by (unfold JsMap.has; now rewrite Hg).
  pose proof (size_delete key _ Hh) as Hsize.
  assert (Ec1 : SmartCache.cache afterGet = JsMap.delete key (SmartCache.cache c))
    by (subst afterGet; now rewrite Hget).
  assert (Es1 : SmartCache.stats afterGet
                = SmartCache.stats
                    (SmartCache.updateHitRate
                       (SmartCache.withStats
                          (SmartCache.bumpEvictions
                             (SmartCache.bumpMisses (SmartCache.stats c)))
                          (SmartCache.withCache
                             (JsMap.delete key (SmartCache.cache c)) c))))
    by (subst afterGet; now rewrite Hget).
  assert (Ecfg : SmartCache.config afterGet = SmartCache.config c)
    by (subst afterGet; apply get_config).
  assert (Er : r = (inr v, SmartCache.set now'' key v ttl_ afterGet, l')).
  { subst r. rewrite getWithCache_miss by (now rewrite Hget).
    fold afterGet. now rewrite Hq. }
  assert (Hgone : JsMap.has key (SmartCache.cache afterGet) = false).
  { rewrite Ec1. apply has_get. now apply get_delete_same. }
  assert (Efresh : freshEntry now'' v ttl_ afterGet = entry).
  { unfold freshEntry. now rewrite Ecfg. }
  destruct (set_counters now'' key v ttl_ afterGet) as (_ & Em & Est & _).
  rewrite Er. cbn [fst snd].
  split; [reflexivity|]. split; [reflexivity|]. split; [exact Ec1|].
  split; [unfold SmartCache.size; now rewrite Ec1|].
  split; [rewrite Em, Es1; reflexivity|].
  split; [rewrite Est, Es1; reflexivity|].
  split.
  - intros Hcap.
    destruct (set_below_capacity now'' key v ttl_ afterGet Hcap) as [Ec Ee].
    assert (Hcache : SmartCache.cache (SmartCache.set now'' key v ttl_ afterGet)
                     = JsMap.delete key (SmartCache.cache c) ++ [(key, entry)]).
    { rewrite Ec, Efresh, <- Ec1. now apply set_absent. }
    split; [exact Hcache|]. split; [rewrite Ee, Es1; reflexivity|].
    unfold SmartCache.size, JsMap.size in *. rewrite Hcache, length_app.
    simpl. lia.
  - intros Hcap. rewrite set_at_capacity by assumption. cbv zeta.
    cbn [SmartCache.cache SmartCache.stats]. rewrite Efresh. split.
    + apply set_absent. now apply evictEntry_still_absent.
    + unfold SmartCache.evictEntry, SmartCache.size.
      destruct (JsMap.size (SmartCache.cache afterGet) =? 0)%nat; simpl;
        rewrite Es1; simpl; lia.
Qed.

Lemma getWithCache_refreshes_expired_example :
  let c := SmartCache.set 1 "b" (Some 2) None
             (SmartCache.set 0 "a" (Some 1) (Some (num 10))
                (SmartCache.new (mkConfig (num 5) (num 1000) (num 60000) Lru))) in
  SmartCache.keys
    (snd (fst (CachedQuery.getWithCache 20 20 21 "a" c
                 (countingLoader (Some 9)) 0%nat None)))
  = ["b"; "a"].
Proof.
  cbv zeta.
  destruct (getWithCache_refreshes_expired Z nat string
              (SmartCache.set 1 "b" (Some 2) None
                 (SmartCache.set 0 "a" (Some 1) (Some (num 10))
                    (SmartCache.new (mkConfig (num 5) (num 1000) (num 60000) Lru))))
              (countingLoader (Some 9)) 0%nat 1%nat
              "a" (mkEntry (Some 1) 0 (num 10) 1 0) (Some 9) None 20 20 21)
    as (_ & _ & _ & _ & _ & _ & Hbelow & _).
  - repeat constructor; simpl; intuition discriminate.
  - reflexivity.
  - reflexivity.
  - reflexivity.
  - destruct Hbelow as (Hc & _); [reflexivity|].
    unfold SmartCache.keys. rewrite Hc. reflexivity.
Defined.

Lemma registry_references_are_live_example :
  let m := fold_left CacheManager.act
             [CacheManager.ActGetCache "orders" None;
              CacheManager.ActDestroyCache "orders"]
             (CacheManager.empty (T := Z)) in
  exists c,
    CacheManager.deref (fst (CacheManager.getCache "orders" None m))
      (snd (CacheManager.getCache "orders" None m)) = Some c.
Proof.
  cbv zeta.
  apply (proj2 (proj2 (registry_references_are_live Z
                         [CacheManager.ActGetCache "orders" None;
                          CacheManager.ActDestroyCache "orders"]))).
Defined.

Lemma generateReport_health_example :
  let m := snd (CacheInvalidation.load (T := Z) CacheManager.empty) in
  CacheMonitoring.healthStatus
    (CacheMonitoring.overall (CacheMonitoring.generateReport (fun _ => "0.0") m))
  = CacheMonitoring.critical /\
  sumOver hits (JsObject.entries (CacheManager.getAllStats m))
  = sumOver hits (reported m).
Proof.
  cbv zeta.
  destruct (generateReport_health Z (fun _ => "0.0")
              (snd (CacheInvalidation.load CacheManager.empty)))
    as (_ & _ & _ & Hcritical & _ & _ & Hsum).
  split.
  - apply Hcritical. left. reflexivity.
  - apply Hsum. repeat constructor; simpl; intuition discriminate.
Defined.
